(** * vetcare: appointment availability and stock allocation

    A shallow embedding of the scheduling and inventory core of the
    veterinary-clinic application:

    - [domain/entities/stock.py]            ([StockEntity], [StockMovementEntity])
    - [infra/database/repositories/stock_repository.py]   ([StockRepository])
    - [services/inventory_service.py]       ([InventoryService])
    - [domain/entities/appointment.py]      ([AppointmentEntity])
    - [infra/database/repositories/appointment_repository.py] ([AppointmentRepository])
    - [services/appointment_service.py]     ([AppointmentService])

    with what they need of [domain/entities/product.py],
    [infra/database/repositories/product_repository.py] and
    [infra/database/models.py] (the column types and the column defaults).

    Python exceptions are values of type [error]; a method that touches the
    database is a function from the database to the database it leaves
    behind paired with its outcome, so that the rows written before an
    exception is raised stay visible. *)

From Stdlib Require Import ZArith List Bool Lia String Ascii.
From Stdlib Require Import Sorting.Sorted Sorting.Permutation.
Import ListNotations.
Open Scope Z_scope.

(** ** Exceptions *)

(** The exceptions of the modelled code: every [raise ValueError(...)], one
    constructor per message, and the exceptions that Python and the ORM
    raise on their own where the code runs into them. [OutOfFuel] is not a
    Python exception: it marks a loop of the model that was cut off, and is
    shown never to occur. *)
Inductive error : Type :=
  (* domain/entities/stock.py *)
  | ProductIdMustBePositive
  | QuantityCannotBeZero
  | CurrentQuantityNegative
  | ReservedQuantityNegative
  | ReservedExceedsCurrent
  | QuantityToAddMustBePositive
  | QuantityToRemoveMustBePositive
  | CannotRemoveMoreThanAvailable
  | QuantityToReserveMustBePositive
  | CannotReserveMoreThanAvailable
  | QuantityToReleaseMustBePositive
  | CannotReleaseMoreThanReserved
  (* stock repository and inventory service *)
  | StockNotFound
  | ProductNotFound
  | CannotAddStockToInactiveProduct
  | InsufficientStock (available requested : Z)
  | InsufficientStockToReserve (available requested : Z)
  | NoAdjustmentNeeded
  (* domain/entities/appointment.py *)
  | DurationMustBePositive
  | CannotCancelThisAppointment
  (* appointment repository and appointment service *)
  | AppointmentIdNotFound (id : Z)
  | CannotUpdateWithoutId
  | FieldRequired (field : string)
  | InvalidAppointmentType
  | DurationOutOfRange
  | PetNotFound
  | CannotScheduleForInactivePet
  | VeterinarianNotFound
  | NotAVeterinarian
  | CannotScheduleInThePast
  | AppointmentNotFound
  | OnlyScheduledCanBeConfirmed
  | OnlyConfirmedCanBeStarted
  | OnlyInProgressCanBeCompleted
  | AppointmentCannotBeCancelled
  | CannotRescheduleToPast
  (* raised by Python and by the ORM *)
  | MissingConstructorArguments   (* TypeError: __init__() missing 2 required
                                     positional arguments *)
  | NoneHasNoStrip                (* AttributeError: 'NoneType' object has no
                                     attribute 'strip' *)
  | MovementTypeNotStorable       (* StatementError at the flush: the value is
                                     not among the defined enum values *)
  | AvailabilityQueryError        (* the query of check_availability cannot
                                     be built and run *)
  | OutOfFuel.

Inductive result (A : Type) : Type :=
  | Ok (a : A)
  | Raise (e : error).
Arguments Ok {A} a.
Arguments Raise {A} e.

(** ** A state-and-exception monad over a database [S] *)

Definition M (S A : Type) : Type := S -> S * result A.

Definition ret {S A} (a : A) : M S A := fun s => (s, Ok a).
Definition raise {S A} (e : error) : M S A := fun s => (s, Raise e).
Definition bind {S A B} (c : M S A) (k : A -> M S B) : M S B :=
  fun s => match c s with
           | (s', Ok a) => k a s'
           | (s', Raise e) => (s', Raise e)
           end.
Definition lift {S A} (r : result A) : M S A := fun s => (s, r).

Declare Scope monad_scope.
Delimit Scope monad_scope with monad.
Notation "x <- c ;; k" := (bind c (fun x => k))
  (at level 61, c at next level, right associativity) : monad_scope.
Notation "c ;; k" := (bind c (fun _ => k))
  (at level 61, right associativity) : monad_scope.
Open Scope monad_scope.

(** [when b e]: [if b: raise e]. *)
Definition when {S} (b : bool) (e : error) : M S unit :=
  if b then raise e else ret tt.

(** ** Dates and times

    A [datetime.date] is its proleptic Gregorian ordinal
    ([date.toordinal()]); Python orders dates as it orders their ordinals.
    A naive [datetime.datetime] is the number of microseconds since
    0001-01-01 00:00:00, the resolution of the type.

    Python keeps dates within [date.min] and [date.max] and raises
    [OverflowError] when a sum leaves the years 1 to 9999 or a [timedelta]
    exceeds 999999999 days; here the sums are sums of integers and do not
    fail.  Where a statement below bounds a day, a time or a duration, it
    does so to stay within the range in which Python computes the same
    sums. *)

Definition date : Type := Z.
Definition datetime : Type := Z.

Definition is_leap (y : Z) : bool :=
  ((y mod 4 =? 0) && negb (y mod 100 =? 0)) || (y mod 400 =? 0).

Definition days_before_year (y : Z) : Z :=
  let y' := y - 1 in y' * 365 + y' / 4 - y' / 100 + y' / 400.

Definition days_before_month (y m : Z) : Z :=
  nth (Z.to_nat m) [0; 0; 31; 59; 90; 120; 151; 181; 212; 243; 273; 304; 334] 0
  + (if (2 <? m) && is_leap y then 1 else 0).

(** [date(y, m, d).toordinal()] *)
Definition ymd (y m d : Z) : date :=
  days_before_year y + days_before_month y m + d.

(** [date.min] and [date.max] *)
Definition date_min : date := ymd 1 1 1.
Definition date_max : date := ymd 9999 12 31.

Definition valid_date (d : date) : Prop := date_min <= d <= date_max.

Definition usec_per_minute : Z := 60000000.
Definition usec_per_hour : Z := 60 * usec_per_minute.
Definition usec_per_day : Z := 24 * usec_per_hour.

(** [timedelta(minutes=m)], in microseconds, for an [m] within the range
    of [timedelta]. *)
Definition timedelta_minutes (m : Z) : Z := m * usec_per_minute.

(** [datetime.combine(d, time(hour=h, minute=mi))] *)
Definition datetime_combine (d : date) (h mi : Z) : datetime :=
  (d - 1) * usec_per_day + h * usec_per_hour + mi * usec_per_minute.

(** [datetime.combine(d, time.min)] and [datetime.combine(d, time.max)] *)
Definition day_first_instant (d : date) : datetime := datetime_combine d 0 0.
Definition day_last_instant (d : date) : datetime :=
  datetime_combine d 0 0 + usec_per_day - 1.

(** ** Small helpers for Python idioms *)

(** [list.sort(key=...)] and SQL [ORDER BY]: the stable sort by an integer
    key, written as the insertion sort that keeps equal keys in their
    original order. *)
Section StableSort.
Context {A : Type} (key : A -> Z).

Fixpoint insert_by_key (x : A) (l : list A) : list A :=
  match l with
  | [] => [x]
  | y :: l' => if key x <=? key y then x :: y :: l'
               else y :: insert_by_key x l'
  end.

Fixpoint sort_by_key (l : list A) : list A :=
  match l with
  | [] => []
  | x :: l' => insert_by_key x (sort_by_key l')
  end.
End StableSort.

Definition option_eqb {A} (eqb : A -> A -> bool) (x y : option A) : bool :=
  match x, y with
  | Some a, Some b => eqb a b
  | None, None => true
  | _, _ => false
  end.

Definition sum_Z (l : list Z) : Z := fold_right Z.add 0 l.

(** [for x in l: f(x)], stopping at the first exception. *)
Fixpoint mapM {A B} (f : A -> result B) (l : list A) : result (list B) :=
  match l with
  | [] => Ok []
  | x :: l' =>
      match f x with
      | Raise e => Raise e
      | Ok y => match mapM f l' with
                | Raise e => Raise e
                | Ok ys => Ok (y :: ys)
                end
      end
  end.

(** ** Enum classes

    The ORM models of [infra/database/models.py] have enum classes of their
    own ([ProductStatusEnum], [StockMovementTypeEnum], ...) with the names
    and the values of the enums of the domain entities.  Members of two
    [Enum] classes are never equal, whatever their names and values, and a
    column [Enum(E)] takes the members of [E] only.  [enum_value D E] is
    what an attribute holds that is handed either a member of the domain
    enum [D] or a member of the enum [E] of the model. *)
Inductive enum_value (D E : Type) : Type :=
  | domain_member (d : D)
  | model_member (e : E).
Arguments domain_member {D E} d.
Arguments model_member {D E} e.

(** * Inventory *)

(** ** domain/entities/stock.py *)

Inductive StockMovementType : Type :=
  | PURCHASE | SALE | ADJUSTMENT | RETURN | EXPIRED | DAMAGED.

Record StockMovement : Type := mkStockMovement {
  mv_id : option Z;
  mv_product_id : Z;
  movement_type : StockMovementType;
  quantity : Z;
  reference_id : option Z;
  reference_type : option string;
  mv_notes : option string;
  mv_created_at : option datetime;
  mv_created_by : option Z
}.

Record Stock : Type := mkStock {
  id : option Z;
  product_id : Z;
  current_quantity : Z;
  reserved_quantity : Z;
  expiration_date : option date;
  batch_number : option string;
  location : option string;
  last_updated : option datetime
}.

Module StockMovementEntity.

(** [StockMovement.__post_init__]: the validation, then the sign of the
    quantity is set from the movement type. *)
Definition post_init (m : StockMovement) : result StockMovement :=
  if mv_product_id m <=? 0 then Raise ProductIdMustBePositive
  else if quantity m =? 0 then Raise QuantityCannotBeZero
  else
    let q :=
      match movement_type m with
      | SALE | EXPIRED | DAMAGED =>
          if 0 <? quantity m then - Z.abs (quantity m) else quantity m
      | PURCHASE | RETURN =>
          if quantity m <? 0 then Z.abs (quantity m) else quantity m
      | ADJUSTMENT => quantity m
      end in
    Ok (mkStockMovement (mv_id m) (mv_product_id m) (movement_type m) q
          (reference_id m) (reference_type m) (mv_notes m)
          (mv_created_at m) (mv_created_by m)).

(** The dataclass constructor: [StockMovement(...)]. *)
Definition new (mid : option Z) (pid : Z) (t : StockMovementType) (q : Z)
    (ref_id : option Z) (ref_type notes : option string)
    (created_at : option datetime) (created_by : option Z)
  : result StockMovement :=
  post_init (mkStockMovement mid pid t q ref_id ref_type notes
               created_at created_by).

(** The constructor called without [reference_id] and [reference_type].
    The two fields have no default value: Python raises [TypeError] for
    the missing arguments before [__post_init__] runs. *)
Definition new_without_reference (mid : option Z) (pid : Z)
    (t : StockMovementType) (q : Z) (notes : option string)
    (created_at : option datetime) (created_by : option Z)
  : result StockMovement :=
  Raise MissingConstructorArguments.

End StockMovementEntity.

Module StockEntity.

(** [Stock.__post_init__] *)
Definition post_init (s : Stock) : result Stock :=
  if product_id s <=? 0 then Raise ProductIdMustBePositive
  else if current_quantity s <? 0 then Raise CurrentQuantityNegative
  else if reserved_quantity s <? 0 then Raise ReservedQuantityNegative
  else if current_quantity s <? reserved_quantity s
       then Raise ReservedExceedsCurrent
  else Ok s.

(** The dataclass constructor: [Stock(...)]. *)
Definition new (sid : option Z) (pid cur res : Z) (exp : option date)
    (batch loc : option string) (upd : option datetime) : result Stock :=
  post_init (mkStock sid pid cur res exp batch loc upd).

Definition available_quantity (s : Stock) : Z :=
  current_quantity s - reserved_quantity s.

Definition set_current (s : Stock) (q : Z) (upd : option datetime) : Stock :=
  mkStock (id s) (product_id s) q (reserved_quantity s)
    (expiration_date s) (batch_number s) (location s) upd.

Definition set_reserved (s : Stock) (r : Z) : Stock :=
  mkStock (id s) (product_id s) (current_quantity s) r
    (expiration_date s) (batch_number s) (location s) (last_updated s).

Definition set_id (s : Stock) (i : Z) : Stock :=
  mkStock (Some i) (product_id s) (current_quantity s) (reserved_quantity s)
    (expiration_date s) (batch_number s) (location s) (last_updated s).

Definition add_stock (now : datetime) (s : Stock) (q : Z) : result Stock :=
  if q <=? 0 then Raise QuantityToAddMustBePositive
  else Ok (set_current s (current_quantity s + q) (Some now)).

Definition remove_stock (now : datetime) (s : Stock) (q : Z) : result Stock :=
  if q <=? 0 then Raise QuantityToRemoveMustBePositive
  else if available_quantity s <? q then Raise CannotRemoveMoreThanAvailable
  else Ok (set_current s (current_quantity s - q) (Some now)).

Definition reserve_stock (s : Stock) (q : Z) : result Stock :=
  if q <=? 0 then Raise QuantityToReserveMustBePositive
  else if available_quantity s <? q then Raise CannotReserveMoreThanAvailable
  else Ok (set_reserved s (reserved_quantity s + q)).

Definition release_reservation (s : Stock) (q : Z) : result Stock :=
  if q <=? 0 then Raise QuantityToReleaseMustBePositive
  else if reserved_quantity s <? q then Raise CannotReleaseMoreThanReserved
  else Ok (set_reserved s (reserved_quantity s - q)).

(** The invariant of a lot, as [__post_init__] states it. *)
Definition invariant (s : Stock) : Prop :=
  0 <= current_quantity s
  /\ 0 <= reserved_quantity s <= current_quantity s
  /\ 0 <= available_quantity s.

(** The remaining properties of a lot; [today] is [date.today()]. *)
Definition is_expired (today : date) (s : Stock) : bool :=
  match expiration_date s with
  | None => false
  | Some d => d <? today
  end.

Definition days_to_expiration (today : date) (s : Stock) : option Z :=
  match expiration_date s with
  | None => None
  | Some d => Some (d - today)
  end.

Definition is_near_expiration (today : date) (days_threshold : Z) (s : Stock)
  : bool :=
  match days_to_expiration today s with
  | None => false
  | Some days_to_exp => (0 <=? days_to_exp) && (days_to_exp <=? days_threshold)
  end.

End StockEntity.

(** ** The inventory tables *)

(** [ProductStatus] of [domain/entities/product.py] *)
Inductive ProductStatus : Type := ACTIVE | INACTIVE | DISCONTINUED.

(** [ProductStatusEnum] and [StockMovementTypeEnum] of
    [infra/database/models.py] *)
Module ProductStatusEnum.
Inductive t : Type := ACTIVE | INACTIVE | DISCONTINUED.
End ProductStatusEnum.

Module StockMovementTypeEnum.
Inductive t : Type :=
  | PURCHASE | SALE | ADJUSTMENT | RETURN | EXPIRED | DAMAGED.
End StockMovementTypeEnum.

(** A row of the table [products]: the columns the inventory service
    reads.  The other columns are left out; every row is taken to pass
    [Product.__post_init__] (the checks of the name, the SKU, the prices
    and the stock levels) when it is loaded. *)
Record ProductModel : Type := mkProductModel {
  prod_id : Z;
  prod_status : ProductStatusEnum.t
}.

(** The entity [Product], with the same two attributes. *)
Record Product : Type := mkProduct {
  product_key : Z;
  product_status : enum_value ProductStatus ProductStatusEnum.t
}.

(** The property [is_active]: [self.status == ProductStatus.ACTIVE]. *)
Definition is_active (p : Product) : bool :=
  match product_status p with
  | domain_member ACTIVE => true
  | _ => false
  end.

(** The tables [products], [stock] and [stock_movements], rows in the order
    of their insertion, and [inventory_clock], the value of the SQL
    function [now()] during the call: what the column defaults
    [func.now()] store. *)
Record InventoryDb : Type := mkInventoryDb {
  products : list ProductModel;
  stock : list Stock;
  stock_movements : list StockMovement;
  inventory_clock : datetime
}.

Definition with_stock (db : InventoryDb) (rows : list Stock) : InventoryDb :=
  mkInventoryDb (products db) rows (stock_movements db) (inventory_clock db).

Definition with_movements (db : InventoryDb) (rows : list StockMovement)
  : InventoryDb :=
  mkInventoryDb (products db) (stock db) rows (inventory_clock db).

(** The next value of an autoincrement primary key. *)
Definition next_id (ids : list (option Z)) : Z :=
  1 + fold_right (fun i acc => match i with
                               | Some n => Z.max n acc
                               | None => acc
                               end) 0 ids.

(** ** infra/database/repositories/product_repository.py *)

Module ProductRepository.

(** [_model_to_domain]: [status=model.status], the member of
    [ProductStatusEnum] as the row has it. *)
Definition _model_to_domain (model : ProductModel) : Product :=
  mkProduct (prod_id model) (model_member (prod_status model)).

Definition find_by_id (pid : Z) : M InventoryDb (option Product) :=
  fun db =>
    (db, Ok (option_map _model_to_domain
               (find (fun p => prod_id p =? pid) (products db)))).

End ProductRepository.

(** ** infra/database/repositories/stock_repository.py *)

Module StockRepository.

Definition has_id (i : Z) (s : Stock) : bool :=
  option_eqb Z.eqb (id s) (Some i).

(** [_stock_domain_to_model] and the INSERT, for the key [i] the row gets.
    The column [last_updated] has [default=func.now()]: an attribute that
    is [None] is left out of the INSERT and the column takes [now()]. *)
Definition _stock_domain_to_model (clock : datetime) (i : Z) (s : Stock)
  : Stock :=
  mkStock (Some i) (product_id s) (current_quantity s) (reserved_quantity s)
    (expiration_date s) (batch_number s) (location s)
    (match last_updated s with
     | Some t => Some t
     | None => Some clock
     end).

(** Whether the columns [_update_stock_model_from_domain] assigns, other
    than [last_updated], all have the value the row has already. *)
Definition same_columns (model s : Stock) : bool :=
  (product_id model =? product_id s)
  && (current_quantity model =? current_quantity s)
  && (reserved_quantity model =? reserved_quantity s)
  && option_eqb Z.eqb (expiration_date model) (expiration_date s)
  && option_eqb String.eqb (batch_number model) (batch_number s)
  && option_eqb String.eqb (location model) (location s).

(** [_update_stock_model_from_domain] and the UPDATE of the commit.  The
    row keeps its key and takes the columns of [s].  The UPDATE sets the
    columns whose value has changed; [last_updated] has
    [onupdate=func.now()], so when it is not among them it is set to
    [now()].  When no column has changed there is no UPDATE. *)
Definition _update_stock_model_from_domain (clock : datetime)
    (model s : Stock) : Stock :=
  mkStock (id model) (product_id s) (current_quantity s) (reserved_quantity s)
    (expiration_date s) (batch_number s) (location s)
    (if option_eqb Z.eqb (last_updated s) (last_updated model)
     then if same_columns model s then last_updated model else Some clock
     else last_updated s).

(** [query(StockModel).filter_by(id=i).first()] followed by
    [_update_stock_model_from_domain]: the first row with that id is
    updated. *)
Fixpoint update_row (clock : datetime) (i : Z) (s : Stock)
    (rows : list Stock) : option (list Stock) :=
  match rows with
  | [] => None
  | r :: rows' =>
      if has_id i r
      then Some (_update_stock_model_from_domain clock r s :: rows')
      else option_map (cons r) (update_row clock i s rows')
  end.

(** [save_stock] returns the entity it was given, with the key set after
    an INSERT; the values the database has filled in are in the row only. *)
Definition save_stock (s : Stock) : M InventoryDb Stock :=
  fun db =>
    match id s with
    | None =>
        let i := next_id (map id (stock db)) in
        (with_stock db
           (stock db ++ [_stock_domain_to_model (inventory_clock db) i s]),
         Ok (StockEntity.set_id s i))
    | Some i =>
        match update_row (inventory_clock db) i s (stock db) with
        | None => (db, Raise StockNotFound)
        | Some rows => (with_stock db rows, Ok s)
        end
    end.

Definition update_stock (s : Stock) : M InventoryDb Stock := save_stock s.

Definition rows_of_product (pid : Z) (rows : list Stock) : list Stock :=
  filter (fun s => product_id s =? pid) rows.

(** Every row read goes through [_stock_model_to_domain], hence through
    [Stock.__post_init__]. *)
Definition find_stock_by_product_id (pid : Z) : M InventoryDb (list Stock) :=
  fun db => (db, mapM StockEntity.post_init (rows_of_product pid (stock db))).

(** [int(sum(current_quantity) or 0)] *)
Definition get_total_stock_by_product (pid : Z) : M InventoryDb Z :=
  fun db =>
    (db, Ok (sum_Z (map current_quantity (rows_of_product pid (stock db))))).

(** [int(sum(current_quantity - reserved_quantity) or 0)] *)
Definition get_available_stock_by_product (pid : Z) : M InventoryDb Z :=
  fun db =>
    (db, Ok (sum_Z (map StockEntity.available_quantity
                      (rows_of_product pid (stock db))))).

Definition set_mv_id (m : StockMovement) (i : Z) : StockMovement :=
  mkStockMovement (Some i) (mv_product_id m) (movement_type m) (quantity m)
    (reference_id m) (reference_type m) (mv_notes m)
    (mv_created_at m) (mv_created_by m).

(** What the column [movement_type], an [Enum(StockMovementTypeEnum)],
    makes at the flush of the value the model holds. *)
Definition bind_movement_type
    (v : enum_value StockMovementType StockMovementTypeEnum.t)
  : result StockMovementTypeEnum.t :=
  match v with
  | model_member e => Ok e
  | domain_member _ => Raise MovementTypeNotStorable
  end.

(** [save_movement].  [_movement_domain_to_model] hands
    [movement.movement_type], a member of the domain enum, to the model as
    it is; at the flush the column rejects it, the session is rolled back
    and the exception is raised again.  The column [created_at] has
    [default=func.now()]. *)
Definition save_movement (m : StockMovement) : M InventoryDb StockMovement :=
  fun db =>
    match bind_movement_type (domain_member (movement_type m)) with
    | Raise e => (db, Raise e)
    | Ok _ =>
        let i := next_id (map mv_id (stock_movements db)) in
        let row :=
          mkStockMovement (Some i) (mv_product_id m) (movement_type m)
            (quantity m) (reference_id m) (reference_type m) (mv_notes m)
            (match mv_created_at m with
             | Some t => Some t
             | None => Some (inventory_clock db)
             end)
            (mv_created_by m) in
        (with_movements db (stock_movements db ++ [row]), Ok (set_mv_id m i))
    end.

(** [find_stock_by_id] *)
Definition find_stock_by_id (i : Z) : M InventoryDb (option Stock) :=
  fun db =>
    match find (has_id i) (stock db) with
    | None => (db, Ok None)
    | Some r => match StockEntity.post_init r with
                | Ok s => (db, Ok (Some s))
                | Raise e => (db, Raise e)
                end
    end.

(** A comparison of the nullable column [expiration_date] in SQL: a row
    without expiration date satisfies none. *)
Definition expiration_satisfies (test : date -> bool) (s : Stock) : bool :=
  match expiration_date s with
  | None => false
  | Some d => test d
  end.

(** [find_expired_stock]: [expiration_date < today] *)
Definition find_expired_stock (today : date) : M InventoryDb (list Stock) :=
  fun db =>
    (db, mapM StockEntity.post_init
           (filter (expiration_satisfies (fun d => d <? today)) (stock db))).

(** [find_near_expiration_stock]: [expiration_date <= today + threshold]
    and [expiration_date >= today]; [today + timedelta(days=threshold)] is
    taken to be a date, that is, within [date.min] and [date.max]. *)
Definition find_near_expiration_stock (today : date) (days_threshold : Z)
  : M InventoryDb (list Stock) :=
  fun db =>
    let threshold_date := today + days_threshold in
    (db, mapM StockEntity.post_init
           (filter (expiration_satisfies (fun d => today <=? d))
              (filter (expiration_satisfies (fun d => d <=? threshold_date))
                 (stock db)))).

End StockRepository.

(** ** services/inventory_service.py

    Each use case takes [now], the value of [datetime.now()] during the
    call. *)

Module InventoryService.
Import StockRepository.

(** [x.expiration_date or date.max]: a [date] object is never falsy. *)
Definition expiration_key (s : Stock) : Z :=
  match expiration_date s with
  | Some d => d
  | None => date_max
  end.

Definition same_lot (exp : option date) (batch loc : option string)
    (s : Stock) : bool :=
  option_eqb String.eqb (batch_number s) batch
  && option_eqb String.eqb (location s) loc
  && option_eqb Z.eqb (expiration_date s) exp.

Definition add_stock (now : datetime) (pid q : Z) (exp : option date)
    (batch loc : option string) (ref_id : option Z)
    (ref_type notes : option string) : M InventoryDb Stock :=
  product <- ProductRepository.find_by_id pid ;;
  match product with
  | None => raise ProductNotFound
  | Some p =>
      when (negb (is_active p)) CannotAddStockToInactiveProduct ;;
      existing_stocks <- find_stock_by_product_id pid ;;
      s <- match find (same_lot exp batch loc) existing_stocks with
           | Some matching_stock =>
               m <- lift (StockEntity.add_stock now matching_stock q) ;;
               update_stock m
           | None =>
               n <- lift (StockEntity.new None pid q 0 exp batch loc
                            (Some now)) ;;
               save_stock n
           end ;;
      movement <- lift (StockMovementEntity.new None pid PURCHASE q
                          ref_id ref_type notes (Some now) None) ;;
      save_movement movement ;;
      ret s
  end.

(** The lots a consume or a reserve walks, in the order it walks them. *)
Definition fifo_candidates (stocks : list Stock) : list Stock :=
  sort_by_key expiration_key
    (filter (fun s => 0 <? StockEntity.available_quantity s) stocks).

(** The body of [for stock in stocks] of [remove_stock]. *)
Fixpoint remove_loop (now : datetime) (stocks : list Stock)
    (remaining_quantity : Z) (affected_stocks : list Stock)
  : M InventoryDb (list Stock) :=
  match stocks with
  | [] => ret affected_stocks
  | s :: rest =>
      if remaining_quantity <=? 0 then ret affected_stocks
      else
        let available_in_stock := StockEntity.available_quantity s in
        let quantity_to_remove :=
          Z.min remaining_quantity available_in_stock in
        s' <- lift (StockEntity.remove_stock now s quantity_to_remove) ;;
        update_stock s' ;;
        remove_loop now rest (remaining_quantity - quantity_to_remove)
          (affected_stocks ++ [s'])
  end.

Definition remove_stock (now : datetime) (pid q : Z) (ref_id : option Z)
    (ref_type notes : option string) (mtype : StockMovementType)
  : M InventoryDb (list Stock) :=
  product <- ProductRepository.find_by_id pid ;;
  match product with
  | None => raise ProductNotFound
  | Some _ =>
      available_stock <- get_available_stock_by_product pid ;;
      when (available_stock <? q) (InsufficientStock available_stock q) ;;
      stocks <- find_stock_by_product_id pid ;;
      affected_stocks <- remove_loop now (fifo_candidates stocks) q [] ;;
      movement <- lift (StockMovementEntity.new None pid mtype (- q)
                          ref_id ref_type notes (Some now) None) ;;
      save_movement movement ;;
      ret affected_stocks
  end.

(** The body of [for stock in stocks] of [reserve_stock]. *)
Fixpoint reserve_loop (stocks : list Stock) (remaining_quantity : Z)
    (affected_stocks : list Stock) : M InventoryDb (list Stock) :=
  match stocks with
  | [] => ret affected_stocks
  | s :: rest =>
      if remaining_quantity <=? 0 then ret affected_stocks
      else
        let available_in_stock := StockEntity.available_quantity s in
        let quantity_to_reserve :=
          Z.min remaining_quantity available_in_stock in
        s' <- lift (StockEntity.reserve_stock s quantity_to_reserve) ;;
        update_stock s' ;;
        reserve_loop rest (remaining_quantity - quantity_to_reserve)
          (affected_stocks ++ [s'])
  end.

Definition reserve_stock (pid q : Z) : M InventoryDb (list Stock) :=
  available_stock <- get_available_stock_by_product pid ;;
  when (available_stock <? q) (InsufficientStockToReserve available_stock q) ;;
  stocks <- find_stock_by_product_id pid ;;
  reserve_loop (fifo_candidates stocks) q [].

(** The body of [for stock in stocks] of [release_reservation]. *)
Fixpoint release_loop (stocks : list Stock) (remaining_quantity : Z)
    (affected_stocks : list Stock) : M InventoryDb (list Stock) :=
  match stocks with
  | [] => ret affected_stocks
  | s :: rest =>
      if remaining_quantity <=? 0 then ret affected_stocks
      else
        let reserved_in_stock := reserved_quantity s in
        let quantity_to_release :=
          Z.min remaining_quantity reserved_in_stock in
        s' <- lift (StockEntity.release_reservation s quantity_to_release) ;;
        update_stock s' ;;
        release_loop rest (remaining_quantity - quantity_to_release)
          (affected_stocks ++ [s'])
  end.

Definition release_reservation (pid q : Z) : M InventoryDb (list Stock) :=
  stocks <- find_stock_by_product_id pid ;;
  release_loop (filter (fun s => 0 <? reserved_quantity s) stocks) q [].

(** [adjust_stock]: the movement is built by a call of [StockMovement]
    that gives neither [reference_id] nor [reference_type]. *)
Definition adjust_stock (now : datetime) (pid new_quantity : Z)
    (reason : string) (user_id : option Z) : M InventoryDb Stock :=
  current_stock <- get_total_stock_by_product pid ;;
  let difference := new_quantity - current_stock in
  when (difference =? 0) NoAdjustmentNeeded ;;
  movement <- lift (StockMovementEntity.new_without_reference None pid
                      ADJUSTMENT difference
                      (Some ("Stock adjustment: " ++ reason)%string)
                      (Some now) user_id) ;;
  save_movement movement ;;
  stocks <- find_stock_by_product_id pid ;;
  match stocks with
  | main_stock :: _ =>
      update_stock (StockEntity.set_current main_stock new_quantity
                      (Some now))
  | [] =>
      s <- lift (StockEntity.new None pid new_quantity 0 None None None
                   (Some now)) ;;
      save_stock s
  end.

End InventoryService.

(** * Appointments *)

(** ** domain/entities/appointment.py *)

Inductive AppointmentStatus : Type :=
  | SCHEDULED | CONFIRMED | IN_PROGRESS | COMPLETED | CANCELLED | NO_SHOW.

Inductive AppointmentType : Type :=
  | CONSULTATION | VACCINATION | SURGERY | EMERGENCY | FOLLOW_UP | GROOMING.

Record Appointment : Type := mkAppointment {
  apt_id : option Z;
  pet_id : Z;
  veterinarian_id : option Z;
  appointment_date : datetime;
  duration_minutes : Z;
  appointment_type : AppointmentType;
  status : AppointmentStatus;
  reason : option string;
  notes : option string;
  created_at : option datetime;
  updated_at : option datetime;
  created_by : option Z
}.

Definition status_eqb (a b : AppointmentStatus) : bool :=
  match a, b with
  | SCHEDULED, SCHEDULED | CONFIRMED, CONFIRMED | IN_PROGRESS, IN_PROGRESS
  | COMPLETED, COMPLETED | CANCELLED, CANCELLED | NO_SHOW, NO_SHOW => true
  | _, _ => false
  end.

(** [status in [SCHEDULED, CONFIRMED, IN_PROGRESS]] *)
Definition blocks_slot (s : AppointmentStatus) : bool :=
  match s with
  | SCHEDULED | CONFIRMED | IN_PROGRESS => true
  | _ => false
  end.

(** Truth value of an [Optional[str]]. *)
Definition truthy (s : option string) : bool :=
  match s with
  | None => false
  | Some EmptyString => false
  | Some _ => true
  end.

Module AppointmentEntity.

(** The [end_time] property. *)
Definition end_time (a : Appointment) : datetime :=
  appointment_date a + timedelta_minutes (duration_minutes a).

(** [Appointment.__post_init__]: [end_time] is a property and never
    [None], so the only live statement is the check of the duration. *)
Definition post_init (a : Appointment) : result Appointment :=
  if duration_minutes a <=? 0 then Raise DurationMustBePositive else Ok a.

Definition can_be_modified (a : Appointment) : bool :=
  blocks_slot (status a).

Definition with_state (a : Appointment) (s : AppointmentStatus)
    (n : option string) (upd : option datetime) : Appointment :=
  mkAppointment (apt_id a) (pet_id a) (veterinarian_id a)
    (appointment_date a) (duration_minutes a) (appointment_type a)
    s (reason a) n (created_at a) upd (created_by a).

(** [mark_as_completed]: the dataclass has no [completion_notes]
    attribute, so given notes replace [notes]. *)
Definition mark_as_completed (now : datetime) (a : Appointment)
    (completion_notes : option string) : result Appointment :=
  if negb (status_eqb (status a) IN_PROGRESS)
  then Raise OnlyInProgressCanBeCompleted
  else Ok (with_state a COMPLETED
             (if truthy completion_notes then completion_notes else notes a)
             (Some now)).

Definition cancel (now : datetime) (a : Appointment)
    (cancellation_reason : option string) : result Appointment :=
  if negb (can_be_modified a) then Raise CannotCancelThisAppointment
  else Ok (with_state a CANCELLED
             (match cancellation_reason with
              | Some r => if truthy (Some r)
                          then Some ("Cancelled: " ++ r)%string
                          else notes a
              | None => notes a
              end)
             (Some now)).

(** The [is_upcoming] property; [now] is [datetime.now()]. *)
Definition is_upcoming (now : datetime) (a : Appointment) : bool :=
  (now <=? appointment_date a)
  && (appointment_date a <=? now + 24 * usec_per_hour).

End AppointmentEntity.

(** ** The clinic tables *)

Inductive UserRole : Type := ADMIN | VETERINARIAN | RECEPTIONIST | ASSISTANT.

Record Pet : Type := mkPet { pet_key : Z; pet_is_active : bool }.
Record User : Type := mkUser { user_key : Z; role : UserRole }.

(** The tables [pets], [users] and [appointments], and [clinic_clock], the
    value of the SQL function [now()] during the call. *)
Record ClinicDb : Type := mkClinicDb {
  pets : list Pet;
  users : list User;
  appointments : list Appointment;
  clinic_clock : datetime
}.

Definition with_appointments (db : ClinicDb) (rows : list Appointment)
  : ClinicDb :=
  mkClinicDb (pets db) (users db) rows (clinic_clock db).

(** ** infra/database/repositories/appointment_repository.py *)

Module AppointmentRepository.

Definition has_id (i : Z) (a : Appointment) : bool :=
  option_eqb Z.eqb (apt_id a) (Some i).

Definition set_id (a : Appointment) (i : Z) : Appointment :=
  mkAppointment (Some i) (pet_id a) (veterinarian_id a)
    (appointment_date a) (duration_minutes a) (appointment_type a)
    (status a) (reason a) (notes a) (created_at a) (updated_at a)
    (created_by a).

(** [_entity_to_model] and the INSERT, for the key [i] the row gets.  The
    columns [created_at] and [updated_at] have [default=func.now()]: an
    attribute that is [None] is left out of the INSERT and the column
    takes [now()]. *)
Definition _entity_to_model (clock : datetime) (i : Z) (a : Appointment)
  : Appointment :=
  mkAppointment (Some i) (pet_id a) (veterinarian_id a)
    (appointment_date a) (duration_minutes a) (appointment_type a)
    (status a) (reason a) (notes a)
    (match created_at a with Some t => Some t | None => Some clock end)
    (match updated_at a with Some t => Some t | None => Some clock end)
    (created_by a).

(** [_update_model_from_entity]: every column but [id] and [created_at]
    is taken from the entity.  Every caller assigns [datetime.now()] to
    [updated_at] before it updates, and the value assigned is the value
    stored; the [onupdate] of the column, which applies to an UPDATE that
    does not set the column, is left out. *)
Definition update_model_from_entity (model entity : Appointment)
  : Appointment :=
  mkAppointment (apt_id model) (pet_id entity) (veterinarian_id entity)
    (appointment_date entity) (duration_minutes entity)
    (appointment_type entity) (status entity) (reason entity)
    (notes entity) (created_at model) (updated_at entity)
    (created_by entity).

Fixpoint update_row (i : Z) (entity : Appointment) (rows : list Appointment)
  : option (list Appointment) :=
  match rows with
  | [] => None
  | r :: rows' =>
      if has_id i r then Some (update_model_from_entity r entity :: rows')
      else option_map (cons r) (update_row i entity rows')
  end.

(** [save] returns the entity it was given, with the key set after an
    INSERT; the values the database has filled in are in the row only. *)
Definition save (a : Appointment) : M ClinicDb Appointment :=
  fun db =>
    match apt_id a with
    | None =>
        let i := next_id (map apt_id (appointments db)) in
        (with_appointments db
           (appointments db ++ [_entity_to_model (clinic_clock db) i a]),
         Ok (set_id a i))
    | Some i =>
        match update_row i a (appointments db) with
        | None => (db, Raise (AppointmentIdNotFound i))
        | Some rows => (with_appointments db rows, Ok a)
        end
    end.

(** [if not appointment.id]: [None] and [0] are both falsy. *)
Definition update (a : Appointment) : M ClinicDb Appointment :=
  match apt_id a with
  | None | Some 0 => raise CannotUpdateWithoutId
  | Some _ => save a
  end.

(** Rows become entities through [_model_to_entity], hence through
    [Appointment.__post_init__]. *)
Definition find_by_id (i : Z) : M ClinicDb (option Appointment) :=
  fun db =>
    match find (has_id i) (appointments db) with
    | None => (db, Ok None)
    | Some r => match AppointmentEntity.post_init r with
                | Ok a => (db, Ok (Some a))
                | Raise e => (db, Raise e)
                end
    end.

Definition on_date (d : date) (a : Appointment) : bool :=
  (day_first_instant d <=? appointment_date a)
  && (appointment_date a <=? day_last_instant d).

Definition find_by_date (d : date) : M ClinicDb (list Appointment) :=
  fun db =>
    (db, mapM AppointmentEntity.post_init
           (sort_by_key appointment_date
              (filter (on_date d) (appointments db)))).

(** [check_availability].  The filter of the query adds the string ['+']
    to [func.cast(AppointmentModel.duration_minutes, str)], where [str] is
    the Python class and no SQL type; Python raises while it builds that
    expression, before a query is sent, whatever the arguments and the
    table.  The comparison the filter describes, of the text
    [datetime(appointment_date, '+N minutes')] with the times given, is
    never made. *)
Definition check_availability (start_time end_time : datetime) (vet : Z)
  : M ClinicDb bool :=
  raise AvailabilityQueryError.

(** [delete]: the first row with the id is removed. *)
Fixpoint remove_row (i : Z) (rows : list Appointment) : list Appointment :=
  match rows with
  | [] => []
  | r :: rows' => if has_id i r then rows' else r :: remove_row i rows'
  end.

Definition delete (i : Z) : M ClinicDb bool :=
  fun db =>
    match find (has_id i) (appointments db) with
    | None => (db, Ok false)
    | Some _ => (with_appointments db (remove_row i (appointments db)), Ok true)
    end.

End AppointmentRepository.

Module PetRepository.
Definition find_by_id (i : Z) : M ClinicDb (option Pet) :=
  fun db => (db, Ok (find (fun p => pet_key p =? i) (pets db))).
End PetRepository.

Module UserRepository.
Definition find_by_id (i : Z) : M ClinicDb (option User) :=
  fun db => (db, Ok (find (fun u => user_key u =? i) (users db))).
End UserRepository.

(** ** services/appointment_service.py *)

Module AppointmentService.

(** [AppointmentType(value)] *)
Definition appointment_type_of_string (s : string)
  : option AppointmentType :=
  if String.eqb s "consultation" then Some CONSULTATION
  else if String.eqb s "vaccination" then Some VACCINATION
  else if String.eqb s "surgery" then Some SURGERY
  else if String.eqb s "emergency" then Some EMERGENCY
  else if String.eqb s "follow_up" then Some FOLLOW_UP
  else if String.eqb s "grooming" then Some GROOMING
  else None.

(** [str.strip()], for the ASCII white space. *)
Definition is_space (c : ascii) : bool :=
  match nat_of_ascii c with
  | 9%nat | 10%nat | 11%nat | 12%nat | 13%nat | 32%nat => true
  | _ => false
  end.

Fixpoint lstrip (s : string) : string :=
  match s with
  | EmptyString => EmptyString
  | String c s' => if is_space c then lstrip s' else s
  end.

Fixpoint rev_string (s acc : string) : string :=
  match s with
  | EmptyString => acc
  | String c s' => rev_string s' (String c acc)
  end.

Definition strip (s : string) : string :=
  rev_string (lstrip (rev_string (lstrip s) EmptyString)) EmptyString.

(** An entry of a dictionary, where the code tells a key that is absent
    from a key whose value is [None]. *)
Inductive dict_entry (A : Type) : Type :=
  | absent
  | present (v : option A).
Arguments absent {A}.
Arguments present {A} v.

(** [data.get(key, '').strip() or None]: the default [''] is for the key
    that is absent; [None] has no method [strip]. *)
Definition strip_or_none (e : dict_entry string) : result (option string) :=
  match e with
  | present None => Raise NoneHasNoStrip
  | present (Some v) =>
      let t := strip v in Ok (if truthy (Some t) then Some t else None)
  | absent =>
      let t := strip EmptyString in Ok (if truthy (Some t) then Some t else None)
  end.

(** The dictionary [appointment_data].  The keys read with [get(key)]
    alone are options: absent or [None] is [None].  [appointment_date] is
    given as a [datetime] object, [duration_minutes], when it is not
    [None], as an [int]. *)
Record appointment_data : Type := mkAppointmentData {
  ad_pet_id : option Z;
  ad_veterinarian_id : option Z;
  ad_appointment_date : option datetime;
  ad_appointment_type : option string;
  ad_duration_minutes : dict_entry Z;
  ad_reason : dict_entry string;
  ad_notes : dict_entry string;
  ad_created_by : option Z
}.

(** Truth value of an [Optional[int]]. *)
Definition truthy_int (i : option Z) : bool :=
  match i with
  | None | Some 0 => false
  | Some _ => true
  end.

Definition _validate_appointment_data (d : appointment_data)
  : result unit :=
  if negb (truthy_int (ad_pet_id d)) then Raise (FieldRequired "pet_id")
  else match ad_appointment_date d with
  | None => Raise (FieldRequired "appointment_date")
  | Some _ =>
  if negb (truthy (ad_appointment_type d))
  then Raise (FieldRequired "appointment_type")
  else match ad_appointment_type d with
  | None => Raise (FieldRequired "appointment_type")
  | Some t =>
  match appointment_type_of_string t with
  | None => Raise InvalidAppointmentType
  | Some _ =>
      match ad_duration_minutes d with
      | present (Some duration) =>
          if (duration <=? 0) || (480 <? duration)
          then Raise DurationOutOfRange else Ok tt
      | present None => Raise DurationOutOfRange
      | absent => Ok tt
      end
  end end end.

Definition _get_default_duration (t : AppointmentType) : Z :=
  match t with
  | CONSULTATION => 30
  | VACCINATION => 15
  | SURGERY => 120
  | EMERGENCY => 60
  | FOLLOW_UP => 20
  | GROOMING => 60
  end.

Definition is_vet_role (r : UserRole) : bool :=
  match r with
  | VETERINARIAN | ADMIN => true
  | _ => false
  end.

(** The veterinarian of [schedule_appointment], when one is given. *)
Definition lookup_veterinarian (vid : option Z) : M ClinicDb (option User) :=
  if truthy_int vid then
    match vid with
    | None => ret None
    | Some v =>
        veterinarian <- UserRepository.find_by_id v ;;
        match veterinarian with
        | None => raise VeterinarianNotFound
        | Some u =>
            when (negb (is_vet_role (role u))) NotAVeterinarian ;;
            ret (Some u)
        end
    end
  else ret None.

Definition schedule_appointment (now : datetime) (d : appointment_data)
  : M ClinicDb Appointment :=
  lift (_validate_appointment_data d) ;;
  match ad_pet_id d, ad_appointment_date d, ad_appointment_type d with
  | Some pid, Some appointment_date, Some type_name =>
      pet <- PetRepository.find_by_id pid ;;
      match pet with
      | None => raise PetNotFound
      | Some pet =>
          when (negb (pet_is_active pet)) CannotScheduleForInactivePet ;;
          veterinarian <- lookup_veterinarian (ad_veterinarian_id d) ;;
          when (appointment_date <? now) CannotScheduleInThePast ;;
          match appointment_type_of_string type_name with
          | None => raise InvalidAppointmentType
          | Some appointment_type =>
              duration <-
                match ad_duration_minutes d with
                | present (Some m) => ret m
                | absent => ret (_get_default_duration appointment_type)
                | present None =>
                    (* the validation has raised *)
                    raise DurationOutOfRange
                end ;;
              reason <- lift (strip_or_none (ad_reason d)) ;;
              notes <- lift (strip_or_none (ad_notes d)) ;;
              appointment <-
                lift (AppointmentEntity.post_init
                        (mkAppointment None (pet_key pet)
                           (option_map user_key veterinarian)
                           appointment_date duration appointment_type
                           SCHEDULED reason notes
                           (Some now) None (ad_created_by d))) ;;
              AppointmentRepository.save appointment
          end
      end
  | _, _, _ => raise (FieldRequired "pet_id")
  end.

Definition touch (a : Appointment) (s : AppointmentStatus)
    (now : datetime) : Appointment :=
  AppointmentEntity.with_state a s (notes a) (Some now).

Definition confirm_appointment (now : datetime) (appointment_id : Z)
  : M ClinicDb Appointment :=
  appointment <- AppointmentRepository.find_by_id appointment_id ;;
  match appointment with
  | None => raise AppointmentNotFound
  | Some a =>
      when (negb (status_eqb (status a) SCHEDULED))
        OnlyScheduledCanBeConfirmed ;;
      AppointmentRepository.update (touch a CONFIRMED now)
  end.

Definition complete_appointment (now : datetime) (appointment_id : Z)
    (completion_notes : option string) : M ClinicDb Appointment :=
  appointment <- AppointmentRepository.find_by_id appointment_id ;;
  match appointment with
  | None => raise AppointmentNotFound
  | Some a =>
      when (negb (status_eqb (status a) IN_PROGRESS))
        OnlyInProgressCanBeCompleted ;;
      a' <- lift (AppointmentEntity.mark_as_completed now a
                    completion_notes) ;;
      AppointmentRepository.update a'
  end.

Definition cancel_appointment (now : datetime) (appointment_id : Z)
    (cancellation_reason : option string) : M ClinicDb Appointment :=
  appointment <- AppointmentRepository.find_by_id appointment_id ;;
  match appointment with
  | None => raise AppointmentNotFound
  | Some a =>
      when (negb (AppointmentEntity.can_be_modified a))
        AppointmentCannotBeCancelled ;;
      a' <- lift (AppointmentEntity.cancel now a cancellation_reason) ;;
      AppointmentRepository.update a'
  end.

Definition start_appointment (now : datetime) (appointment_id : Z)
  : M ClinicDb Appointment :=
  appointment <- AppointmentRepository.find_by_id appointment_id ;;
  match appointment with
  | None => raise AppointmentNotFound
  | Some a =>
      when (negb (status_eqb (status a) CONFIRMED))
        OnlyConfirmedCanBeStarted ;;
      AppointmentRepository.update (touch a IN_PROGRESS now)
  end.

(** The dictionary [update_data]: the attributes of an appointment the
    callers set.  A value that is [None] is skipped by the loop that sets
    the attributes, as a key that is absent is, so both are [None] here;
    [appointment_date], when the key is there, is a naive [datetime], and
    [appointment_type] a string. *)
Record update_data : Type := mkUpdateData {
  ud_appointment_date : option datetime;
  ud_duration_minutes : option Z;
  ud_appointment_type : option string;
  ud_status : option AppointmentStatus;
  ud_reason : option string;
  ud_notes : option string
}.

Definition or_else {A} (o : option A) (d : A) : A :=
  match o with Some v => v | None => d end.

(** [for field, value in update_data.items(): setattr(...)] *)
Definition apply_update (a : Appointment) (u : update_data)
    (t : option AppointmentType) (now : datetime) : Appointment :=
  mkAppointment (apt_id a) (pet_id a) (veterinarian_id a)
    (or_else (ud_appointment_date u) (appointment_date a))
    (or_else (ud_duration_minutes u) (duration_minutes a))
    (or_else t (appointment_type a))
    (or_else (ud_status u) (status a))
    (match ud_reason u with Some r => Some r | None => reason a end)
    (match ud_notes u with Some n => Some n | None => notes a end)
    (created_at a) (Some now) (created_by a).

Definition update_appointment (now : datetime) (appointment_id : Z)
    (u : update_data) : M ClinicDb Appointment :=
  appointment <- AppointmentRepository.find_by_id appointment_id ;;
  match appointment with
  | None => raise AppointmentNotFound
  | Some a =>
      when (match ud_appointment_date u with
            | Some new_date => new_date <? now
            | None => false
            end) CannotRescheduleToPast ;;
      t <- match ud_appointment_type u with
           | None => ret None
           | Some name =>
               match appointment_type_of_string name with
               | None => raise InvalidAppointmentType
               | Some t => ret (Some t)
               end
           end ;;
      AppointmentRepository.update (apply_update a u t now)
  end.

(** An entry of the list [get_availability_slots] returns; the third key,
    [display_time], is the two times printed. *)
Record Slot : Type := mkSlot { start_time : datetime; slot_end_time : datetime }.

(** [current_time < appointment.end_time and
     slot_end > appointment.appointment_date] *)
Definition overlaps (current_time slot_end : datetime) (a : Appointment)
  : bool :=
  (current_time <? AppointmentEntity.end_time a)
  && (appointment_date a <? slot_end).

Definition step : Z := timedelta_minutes 30.

(** The [while] loop. Each turn moves [current_time] forward by [step], so
    the loop ends; [fuel] bounds the number of turns and [None] is
    returned when it is used up with the loop condition still true. *)
Fixpoint slots_loop (fuel : nat) (existing_appointments : list Appointment)
    (duration end_time current_time : Z) (available_slots : list Slot)
  : option (list Slot) :=
  if current_time + duration <=? end_time then
    match fuel with
    | O => None
    | S fuel' =>
        let slot_end := current_time + duration in
        let is_available :=
          negb (existsb (overlaps current_time slot_end)
                  existing_appointments) in
        slots_loop fuel' existing_appointments duration end_time
          (current_time + step)
          (if is_available
           then available_slots ++ [mkSlot current_time slot_end]
           else available_slots)
    end
  else Some available_slots.

Definition start_hour : Z := 8.
Definition end_hour : Z := 18.

(** The number of turns the loop takes from [current_time]. *)
Definition turns (duration end_time current_time : Z) : nat :=
  Z.to_nat ((end_time - (current_time + duration)) / step + 1).

Definition get_availability_slots (date_target : date) (vet : Z)
    (duration_minutes : Z) : M ClinicDb (list Slot) :=
  on_day <- AppointmentRepository.find_by_date date_target ;;
  let existing_appointments :=
    filter (fun apt =>
              option_eqb Z.eqb (veterinarian_id apt) (Some vet)
              && blocks_slot (status apt)) on_day in
  let current_time := datetime_combine date_target start_hour 0 in
  let end_time := datetime_combine date_target end_hour 0 in
  let duration := timedelta_minutes duration_minutes in
  match slots_loop (turns duration end_time current_time)
          existing_appointments duration end_time current_time [] with
  | Some available_slots => ret available_slots
  | None => raise OutOfFuel
  end.

(** An entry of the list [get_daily_schedule] returns; the key [time_slot],
    the start and the end of the appointment printed, is left out. *)
Record ScheduleEntry : Type := mkScheduleEntry {
  entry_appointment : Appointment;
  entry_pet : option Pet;
  entry_veterinarian : option User;
  entry_is_upcoming : bool
}.

(** The body of [for appointment in appointments] of [get_daily_schedule]. *)
Fixpoint enrich (now : datetime) (apts : list Appointment)
  : M ClinicDb (list ScheduleEntry) :=
  match apts with
  | [] => ret []
  | a :: rest =>
      pet <- PetRepository.find_by_id (pet_id a) ;;
      veterinarian <-
        (if truthy_int (veterinarian_id a) then
           match veterinarian_id a with
           | Some v => UserRepository.find_by_id v
           | None => ret None
           end
         else ret None) ;;
      entries <- enrich now rest ;;
      ret (mkScheduleEntry a pet veterinarian
             (AppointmentEntity.is_upcoming now a) :: entries)
  end.

Definition get_daily_schedule (now : datetime) (target_date : date)
    (vet : option Z) : M ClinicDb (list ScheduleEntry) :=
  on_day <- AppointmentRepository.find_by_date target_date ;;
  let apts :=
    if truthy_int vet
    then filter (fun apt => option_eqb Z.eqb (veterinarian_id apt) vet) on_day
    else on_day in
  schedule <- enrich now apts ;;
  ret (sort_by_key (fun e => appointment_date (entry_appointment e)) schedule).

End AppointmentService.

(** * What the specification says, in its own words

    The definitions of this section follow the specification and are
    compared below with the code above. *)

Module Spec.

(** "available_quantity = current_quantity - reserved_quantity" *)
Definition available (s : Stock) : Z :=
  current_quantity s - reserved_quantity s.

(** "current_quantity >= 0; 0 <= reserved_quantity <= current_quantity;
    available_quantity = current_quantity - reserved_quantity >= 0" *)
Definition lot_invariant (s : Stock) : Prop :=
  0 <= current_quantity s
  /\ 0 <= reserved_quantity s <= current_quantity s
  /\ 0 <= current_quantity s - reserved_quantity s.

(** "sorted ascending by expiration date, with lots having no expiration
    date sorted last": the lot [a] may come before the lot [b].  A lot
    that expires on [date.max], the last day there is, is as late as a lot
    that does not expire. *)
Definition fifo_before (a b : Stock) : Prop :=
  match expiration_date a, expiration_date b with
  | Some x, Some y => x <= y
  | Some _, None => True
  | None, Some y => y = date_max
  | None, None => True
  end.

(** The row [r'] is the lot [r] with [t] units more in its reserved
    quantity and nothing else changed but the time of the last update; a
    lot on which nothing is held is left as it is. *)
Definition held (t : Z) (r r' : Stock) : Prop :=
  id r' = id r
  /\ product_id r' = product_id r
  /\ current_quantity r' = current_quantity r
  /\ reserved_quantity r' = reserved_quantity r + t
  /\ expiration_date r' = expiration_date r
  /\ batch_number r' = batch_number r
  /\ location r' = location r
  /\ (t = 0 -> r' = r).

(** The row [r'] is the lot [r] with [t] units taken from its current
    quantity and nothing else changed but the time of the last update; a
    lot from which nothing is taken is left as it is. *)
Definition consumed (t : Z) (r r' : Stock) : Prop :=
  id r' = id r
  /\ product_id r' = product_id r
  /\ current_quantity r' = current_quantity r - t
  /\ reserved_quantity r' = reserved_quantity r
  /\ expiration_date r' = expiration_date r
  /\ batch_number r' = batch_number r
  /\ location r' = location r
  /\ (t = 0 -> r' = r).

(** A greedy walk: "for each lot, removes min(remaining, lot.available)
    from that lot, decrementing remaining by the same amount".  The
    result pairs every lot of the walk with the amount taken from it. *)
Fixpoint greedy_plan (amount : Stock -> Z) (remaining : Z)
    (lots : list Stock) : list (Stock * Z) :=
  match lots with
  | [] => []
  | s :: rest =>
      let t := Z.min (Z.max remaining 0) (amount s) in
      (s, t) :: greedy_plan amount (remaining - t) rest
  end.

(** The amount a plan takes from the row [r], found by its id. *)
Definition taken (plan : list (Stock * Z)) (r : Stock) : Z :=
  match find (fun p => option_eqb Z.eqb (id (fst p)) (id r)) plan with
  | Some (_, t) => t
  | None => 0
  end.

(** The table after a plan was carried out with the change [upd]: the
    rows the plan takes something from are changed, the others are
    left as they are. *)
Definition apply_plan (upd : Stock -> Z -> Stock) (plan : list (Stock * Z))
    (rows : list Stock) : list Stock :=
  map (fun r => if 0 <? taken plan r then upd r (taken plan r) else r) rows.

(** Half-open overlap of [[s1, e1)] and [[s2, e2)]. *)
Definition overlap (s1 e1 s2 e2 : Z) : Prop := s1 < e2 /\ e1 > s2.

(** The statuses that block a slot. *)
Definition active (s : AppointmentStatus) : Prop :=
  s = SCHEDULED \/ s = CONFIRMED \/ s = IN_PROGRESS.

(** "the reason and the notes, stripped of surrounding white space,
    empty meaning none": the text that is stored for the entry of the
    dictionary. *)
Definition stripped (e : AppointmentService.dict_entry string)
  : option string :=
  match e with
  | AppointmentService.present (Some v) =>
      if truthy (Some (AppointmentService.strip v))
      then Some (AppointmentService.strip v) else None
  | _ => None
  end.

(** The errors that report a transition from a status that does not
    allow it. *)
Definition invalid_state_transition (e : error) : Prop :=
  e = OnlyScheduledCanBeConfirmed \/ e = OnlyConfirmedCanBeStarted
  \/ e = OnlyInProgressCanBeCompleted \/ e = AppointmentCannotBeCancelled.

End Spec.

(** * Well-formed tables *)

(** A stored lot: it has a primary key, passes [Stock.__post_init__], and
    its expiration date, when it has one, is a [date]. *)
Definition valid_stock_row (s : Stock) : Prop :=
  id s <> None
  /\ 0 < product_id s
  /\ StockEntity.invariant s
  /\ (forall d, expiration_date s = Some d -> valid_date d).

(** The [stock] table: primary keys are unique and every row is valid. *)
Definition wf_stock (rows : list Stock) : Prop :=
  NoDup (map id rows) /\ Forall valid_stock_row rows.

(** The data-model invariant of a stored appointment. *)
Definition valid_appointment (a : Appointment) : Prop :=
  0 < duration_minutes a <= 480.

(** Ascending order of the keys. *)
Definition key_le {A} (key : A -> Z) (a b : A) : Prop := key a <= key b.

(** [db'] has the ledger of [db] followed by movements of nonzero
    quantity. *)
Definition ledger_grows (db db' : InventoryDb) : Prop :=
  exists new, stock_movements db' = stock_movements db ++ new
              /\ Forall (fun m => quantity m <> 0) new.

(** * The three lot walks as one

    [remove_stock], [reserve_stock] and [release_reservation] of the
    inventory service run the same loop with a different method of the lot
    ([op]) and a different bound ([amount]). [lot_walk] is that loop. *)
Fixpoint lot_walk (op : Stock -> Z -> result Stock) (amount : Stock -> Z)
    (stocks : list Stock) (remaining_quantity : Z)
    (affected_stocks : list Stock) : M InventoryDb (list Stock) :=
  match stocks with
  | [] => ret affected_stocks
  | s :: rest =>
      if remaining_quantity <=? 0 then ret affected_stocks
      else
        let t := Z.min remaining_quantity (amount s) in
        s' <- lift (op s t) ;;
        StockRepository.update_stock s' ;;
        lot_walk op amount rest (remaining_quantity - t)
          (affected_stocks ++ [s'])
  end.

(** What the three methods do to a lot when they accept the quantity. *)
Definition removed (now : datetime) (s : Stock) (t : Z) : Stock :=
  StockEntity.set_current s (current_quantity s - t) (Some now).
Definition reserved (s : Stock) (t : Z) : Stock :=
  StockEntity.set_reserved s (reserved_quantity s + t).
Definition released (s : Stock) (t : Z) : Stock :=
  StockEntity.set_reserved s (reserved_quantity s - t).

(** The row that is stored for the lot [r] when a walk has changed it
    into [upd r t]. *)
Definition stored (clock : datetime) (upd : Stock -> Z -> Stock)
    (r : Stock) (t : Z) : Stock :=
  StockRepository._update_stock_model_from_domain clock r (upd r t).

(** The lots a plan changes, changed, in the order of the plan. *)
Definition touched (upd : Stock -> Z -> Stock) (plan : list (Stock * Z))
  : list Stock :=
  map (fun p => upd (fst p) (snd p)) (filter (fun p => 0 <? snd p) plan).

(** Total of the available quantity of a product, as
    [get_available_stock_by_product] computes it. *)
Definition total_available (pid : Z) (rows : list Stock) : Z :=
  sum_Z (map StockEntity.available_quantity
           (StockRepository.rows_of_product pid rows)).

Definition total_current (pid : Z) (rows : list Stock) : Z :=
  sum_Z (map current_quantity (StockRepository.rows_of_product pid rows)).

Definition total_reserved (pid : Z) (rows : list Stock) : Z :=
  sum_Z (map reserved_quantity (StockRepository.rows_of_product pid rows)).

(** The plan of a consume or a reserve of [q] units of the product. *)
Definition fifo_plan (pid q : Z) (rows : list Stock) : list (Stock * Z) :=
  Spec.greedy_plan StockEntity.available_quantity q
    (InventoryService.fifo_candidates
       (StockRepository.rows_of_product pid rows)).

(** The candidate windows of [get_availability_slots] from
    [current_time] on: one for each turn of the loop. *)
Definition candidates (duration end_time current_time : Z)
  : list AppointmentService.Slot :=
  map (fun k => AppointmentService.mkSlot
                  (current_time + Z.of_nat k * AppointmentService.step)
                  (current_time + Z.of_nat k * AppointmentService.step
                   + duration))
    (seq 0 (AppointmentService.turns duration end_time current_time)).

(** A window that no appointment of the list overlaps. *)
Definition free (existing : list Appointment) (w : AppointmentService.Slot)
  : bool :=
  negb (existsb (AppointmentService.overlaps
                   (AppointmentService.start_time w)
                   (AppointmentService.slot_end_time w)) existing).

(** Windows in chronological order. *)
Definition earlier (w1 w2 : AppointmentService.Slot) : Prop :=
  AppointmentService.start_time w1 < AppointmentService.start_time w2.

(** [db'] keeps the invariant of every lot if [db] has it. *)
Definition lots_stay_valid (db db' : InventoryDb) : Prop :=
  Forall StockEntity.invariant (stock db) ->
  Forall StockEntity.invariant (stock db').

(** * Example data *)

Module Ex.

(** One product with three lots, stored in the order no expiration,
    June, March. *)
Definition lot_none : Stock :=
  mkStock (Some 1) 1 20 0 None None None None.
Definition lot_june : Stock :=
  mkStock (Some 2) 1 10 0 (Some (ymd 2024 6 1)) None None None.
Definition lot_march : Stock :=
  mkStock (Some 3) 1 5 0 (Some (ymd 2024 3 1)) None None None.

(** The value of the SQL function [now()] in the examples. *)
Definition clock : datetime := datetime_combine (ymd 2024 1 10) 14 0.

Definition product_1 : ProductModel :=
  mkProductModel 1 ProductStatusEnum.ACTIVE.

Definition three_lots : InventoryDb :=
  mkInventoryDb [product_1] [lot_none; lot_june; lot_march] [] clock.

(** One product with one lot of 10 units, 4 of them reserved. *)
Definition lot_reserved : Stock :=
  mkStock (Some 1) 1 10 4 None None None None.

Definition one_lot : InventoryDb :=
  mkInventoryDb [product_1] [lot_reserved] [] clock.

(** The three lots with reservations: all of the March lot and 4 units of
    the June lot are reserved. *)
Definition held_june : Stock :=
  mkStock (Some 2) 1 10 4 (Some (ymd 2024 6 1)) None None None.
Definition held_march : Stock :=
  mkStock (Some 3) 1 5 5 (Some (ymd 2024 3 1)) None None None.

Definition held_lots : InventoryDb :=
  mkInventoryDb [product_1] [lot_none; held_june; held_march] [] clock.

Definition now : datetime := datetime_combine (ymd 2024 1 10) 9 0.

(** Veterinarian 7 has a confirmed appointment from 10:00 to 10:30. *)
Definition day : date := ymd 2030 1 15.
Definition at_time (h mi : Z) : datetime := datetime_combine day h mi.

Definition booked : Appointment :=
  mkAppointment (Some 1) 1 (Some 7) (at_time 10 0) 30 CONSULTATION
    CONFIRMED None None None None None.

Definition clinic : ClinicDb :=
  mkClinicDb [mkPet 1 true] [mkUser 7 VETERINARIAN] [booked] clock.

(** The same clinic with a scheduled and a completed appointment more. *)
Definition pending : Appointment :=
  mkAppointment (Some 2) 1 (Some 7) (at_time 11 0) 15 VACCINATION
    SCHEDULED None None None None None.

Definition finished : Appointment :=
  mkAppointment (Some 3) 1 (Some 7) (at_time 9 0) 30 CONSULTATION
    COMPLETED None None None None None.

Definition busy_clinic : ClinicDb :=
  mkClinicDb [mkPet 1 true] [mkUser 7 VETERINARIAN]
    [booked; pending; finished] clock.

(** Veterinarian 7 has a confirmed operation of 480 minutes that begins
    at 23:00 on the day before [day]. *)
Definition overnight : Appointment :=
  mkAppointment (Some 1) 1 (Some 7) (datetime_combine (day - 1) 23 0) 480
    SURGERY CONFIRMED None None None None None.

Definition night_clinic : ClinicDb :=
  mkClinicDb [mkPet 1 true] [mkUser 7 VETERINARIAN] [overnight] clock.

(** A request for veterinarian 7 from 10:15 to 10:45. *)
Definition request : AppointmentService.appointment_data :=
  AppointmentService.mkAppointmentData (Some 1) (Some 7)
    (Some (at_time 10 15)) (Some "consultation"%string)
    (AppointmentService.present (Some 30))
    (AppointmentService.present (Some "check-up"%string))
    (AppointmentService.present (Some "first visit"%string)) None.

(** A change of the duration to 600 minutes. *)
Definition prolong : AppointmentService.update_data :=
  AppointmentService.mkUpdateData None (Some 600) None None None None.

(** A change of the duration and of the notes. *)
Definition edit : AppointmentService.update_data :=
  AppointmentService.mkUpdateData None (Some 45) None None None
    (Some "edited"%string).

End Ex.

(** * General lemmas *)

Section SortLemmas.
Context {A : Type} (key : A -> Z).

Lemma insert_by_key_perm (x : A) (l : list A) :
  Permutation (x :: l) (insert_by_key key x l).
Proof.
  induction l as [|y l IH]; simpl.
  - apply Permutation_refl.
  - destruct (key x <=? key y).
    + apply Permutation_refl.
    + eapply perm_trans; [apply perm_swap|].
      apply perm_skip. exact IH.
Qed.

Lemma sort_by_key_perm (l : list A) : Permutation l (sort_by_key key l).
Proof.
  induction l as [|x l IH]; simpl.
  - constructor.
  - eapply perm_trans; [|apply insert_by_key_perm].
    apply perm_skip. exact IH.
Qed.

Lemma sort_by_key_In (l : list A) (x : A) :
  In x (sort_by_key key l) <-> In x l.
Proof.
  split; intro H.
  - eapply Permutation_in; [apply Permutation_sym, sort_by_key_perm|]. exact H.
  - eapply Permutation_in; [apply sort_by_key_perm|]. exact H.
Qed.

Lemma insert_by_key_sorted (x : A) (l : list A) :
  StronglySorted (key_le key) l -> StronglySorted (key_le key) (insert_by_key key x l).
Proof.
  induction l as [|y l IH]; simpl; intro Hs.
  - constructor; constructor.
  - inversion Hs as [|? ? Hs' Hall]; subst.
    destruct (Z.leb_spec (key x) (key y)) as [Hle|Hgt].
    + constructor; [exact Hs|].
      constructor; [exact Hle|].
      rewrite Forall_forall in *. intros z Hz.
      unfold key_le in *. specialize (Hall z Hz). lia.
    + constructor; [apply IH; exact Hs'|].
      rewrite Forall_forall in *. intros z Hz.
      apply (Permutation_in _ (Permutation_sym (insert_by_key_perm x l))) in Hz.
      destruct Hz as [<-|Hz]; [unfold key_le; lia|apply Hall; exact Hz].
Qed.

Lemma sort_by_key_sorted (l : list A) :
  StronglySorted (key_le key) (sort_by_key key l).
Proof.
  induction l as [|x l IH]; simpl.
  - constructor.
  - apply insert_by_key_sorted. exact IH.
Qed.

End SortLemmas.

Lemma mapM_id {A} (f : A -> result A) (l : list A) :
  Forall (fun x => f x = Ok x) l -> mapM f l = Ok l.
Proof.
  induction 1 as [|x l Hx _ IH]; simpl.
  - reflexivity.
  - rewrite Hx, IH. reflexivity.
Qed.

Lemma option_eqb_Z_eq (x y : option Z) :
  option_eqb Z.eqb x y = true <-> x = y.
Proof.
  destruct x as [a|], y as [b|]; simpl; split; intro H;
    try discriminate; try reflexivity.
  - apply Z.eqb_eq in H. congruence.
  - inversion H. apply Z.eqb_refl.
Qed.

(** ** Reasoning about computations in [M] *)

Lemma bind_ok {S A B} (c : M S A) (k : A -> M S B) (s s1 : S) (a : A) :
  c s = (s1, Ok a) -> bind c k s = k a s1.
Proof. intro H. unfold bind. rewrite H. reflexivity. Qed.

Lemma bind_raise {S A B} (c : M S A) (k : A -> M S B) (s s1 : S) (e : error) :
  c s = (s1, Raise e) -> bind c k s = (s1, Raise e).
Proof. intro H. unfold bind. rewrite H. reflexivity. Qed.

(** [keeps R Q c]: whatever its outcome, [c] moves the database along the
    relation [R], and a value it returns satisfies [Q]. *)
Section Keeps.
Context {S : Type} (R : S -> S -> Prop).
Hypothesis R_refl : forall s, R s s.
Hypothesis R_trans : forall a b c, R a b -> R b c -> R a c.

Definition keeps {A} (Q : A -> Prop) (c : M S A) : Prop :=
  forall s, R s (fst (c s)) /\ forall a, snd (c s) = Ok a -> Q a.

Lemma keeps_ret {A} (Q : A -> Prop) (a : A) : Q a -> keeps Q (ret a).
Proof.
  intros Ha s. split; [apply R_refl|].
  simpl. intros a' E. inversion E. subst. exact Ha.
Qed.

Lemma keeps_raise {A} (Q : A -> Prop) (e : error) : keeps Q (raise e).
Proof. intros s. split; [apply R_refl|]. simpl. discriminate. Qed.

Lemma keeps_lift {A} (Q : A -> Prop) (r : result A) :
  (forall a, r = Ok a -> Q a) -> keeps Q (lift r).
Proof. intros H s. split; [apply R_refl|]. simpl. exact H. Qed.

Lemma keeps_when (b : bool) (e : error) : keeps (fun _ => True) (when b e).
Proof. destruct b; [apply keeps_raise|apply keeps_ret; exact I]. Qed.

Lemma keeps_pure {A} (Q : A -> Prop) (f : S -> result A) :
  (forall s a, f s = Ok a -> Q a) -> keeps Q (fun s => (s, f s)).
Proof. intros H s. split; [apply R_refl|]. simpl. apply H. Qed.

Lemma keeps_bind {A B} (Q : A -> Prop) (Q' : B -> Prop)
    (c : M S A) (k : A -> M S B) :
  keeps Q c -> (forall a, Q a -> keeps Q' (k a)) -> keeps Q' (bind c k).
Proof.
  intros Hc Hk s. unfold bind.
  destruct (Hc s) as [HR HQ]. destruct (c s) as [s1 [a|e]]; simpl in *.
  - destruct (Hk a (HQ a eq_refl) s1) as [HR' HQ'].
    split; [eapply R_trans; eassumption|exact HQ'].
  - split; [exact HR|discriminate].
Qed.

End Keeps.

(** ** The movement ledger *)

Lemma ledger_grows_refl (db : InventoryDb) : ledger_grows db db.
Proof. exists []. rewrite app_nil_r. split; [reflexivity|constructor]. Qed.

Lemma ledger_grows_trans (a b c : InventoryDb) :
  ledger_grows a b -> ledger_grows b c -> ledger_grows a c.
Proof.
  intros [n1 [E1 F1]] [n2 [E2 F2]]. exists (n1 ++ n2). split.
  - rewrite E2, E1, app_assoc. reflexivity.
  - apply Forall_app. split; assumption.
Qed.

Lemma post_init_movement_nonzero (m m' : StockMovement) :
  StockMovementEntity.post_init m = Ok m' -> quantity m' <> 0.
Proof.
  unfold StockMovementEntity.post_init.
  destruct (mv_product_id m <=? 0); [discriminate|].
  destruct (Z.eqb_spec (quantity m) 0) as [|Hq]; [discriminate|].
  intro E. inversion E; subst; clear E. simpl.
  destruct (movement_type m);
    repeat match goal with
           | |- context [?a <? ?b] => destruct (Z.ltb_spec a b)
           end; lia.
Qed.

Lemma ledger_grows_same (db db' : InventoryDb) :
  stock_movements db' = stock_movements db -> ledger_grows db db'.
Proof.
  intro E. exists []. rewrite app_nil_r. split; [exact E|constructor].
Qed.

Abbreviation keeps_ledger := (keeps ledger_grows).

Lemma keeps_ledger_bind {A B} (Q : A -> Prop) (Q' : B -> Prop)
    (c : M InventoryDb A) (k : A -> M InventoryDb B) :
  keeps_ledger Q c -> (forall a, Q a -> keeps_ledger Q' (k a)) ->
  keeps_ledger Q' (bind c k).
Proof. apply keeps_bind. exact ledger_grows_trans. Qed.

Lemma keeps_ledger_save_stock (s : Stock) :
  keeps_ledger (fun _ => True) (StockRepository.save_stock s).
Proof.
  intros db. unfold StockRepository.save_stock.
  destruct (id s) as [i|].
  - destruct (StockRepository.update_row _ i s (stock db)); simpl;
      (split; [apply ledger_grows_same; reflexivity|auto]).
  - simpl. split; [apply ledger_grows_same; reflexivity|auto].
Qed.

(** [save_movement] raises at the flush and stores nothing. *)
Lemma save_movement_raises (m : StockMovement) (db : InventoryDb) :
  StockRepository.save_movement m db = (db, Raise MovementTypeNotStorable).
Proof. reflexivity. Qed.

Lemma keeps_ledger_save_movement (m : StockMovement) :
  keeps_ledger (fun _ => True) (StockRepository.save_movement m).
Proof.
  intros db. rewrite save_movement_raises. simpl.
  split; [apply ledger_grows_refl|discriminate].
Qed.

Lemma keeps_ledger_find_stock (pid : Z) :
  keeps_ledger (fun _ => True) (StockRepository.find_stock_by_product_id pid).
Proof. intros db. simpl. split; [apply ledger_grows_refl|auto]. Qed.

Lemma keeps_ledger_new_movement mid pid t q ref_id ref_type notes c_at c_by :
  keeps_ledger (fun m => quantity m <> 0)
    (lift (StockMovementEntity.new mid pid t q ref_id ref_type notes c_at c_by)).
Proof.
  apply keeps_lift; [exact ledger_grows_refl|].
  intros m. apply post_init_movement_nonzero.
Qed.

Ltac ledger_step :=
  first
    [ eapply keeps_ledger_bind;
      [ first [ apply keeps_ledger_new_movement
              | apply keeps_ledger_find_stock
              | apply keeps_ledger_save_stock
              | apply keeps_ledger_save_movement
              | apply keeps_when; exact ledger_grows_refl
              | apply (keeps_lift _ ledger_grows_refl (fun _ => True)); auto
              | apply (keeps_pure _ ledger_grows_refl (fun _ => True)); auto ]
      | intros ? ? ]
    | apply keeps_ledger_save_stock
    | apply keeps_ledger_save_movement
    | apply keeps_raise; exact ledger_grows_refl
    | apply keeps_ret; [exact ledger_grows_refl|exact I] ].

Lemma keeps_ledger_remove_loop now l r aff :
  keeps_ledger (fun _ => True) (InventoryService.remove_loop now l r aff).
Proof.
  revert r aff. induction l as [|s l IH]; intros r aff; simpl.
  - ledger_step.
  - destruct (r <=? 0); [ledger_step|].
    repeat ledger_step. apply IH.
Qed.

Lemma keeps_ledger_reserve_loop l r aff :
  keeps_ledger (fun _ => True) (InventoryService.reserve_loop l r aff).
Proof.
  revert r aff. induction l as [|s l IH]; intros r aff; simpl.
  - ledger_step.
  - destruct (r <=? 0); [ledger_step|].
    repeat ledger_step. apply IH.
Qed.

Lemma keeps_ledger_release_loop l r aff :
  keeps_ledger (fun _ => True) (InventoryService.release_loop l r aff).
Proof.
  revert r aff. induction l as [|s l IH]; intros r aff; simpl.
  - ledger_step.
  - destruct (r <=? 0); [ledger_step|].
    repeat ledger_step. apply IH.
Qed.

(** C10. No operation appends a movement of quantity zero to the ledger:
    constructing a [StockMovement] of quantity 0 raises for every movement
    type, and whatever the outcome of a receive ([add_stock]), a consume
    ([remove_stock]), an adjustment, a reserve or a release, the ledger it
    leaves is the ledger it found followed by movements of nonzero
    quantity. *)
Theorem movement_ledger_has_no_zero_quantity :
  (forall mid pid t ref_id ref_type notes c_at c_by,
      StockMovementEntity.new mid pid t 0 ref_id ref_type notes c_at c_by
      = Raise (if pid <=? 0 then ProductIdMustBePositive
               else QuantityCannotBeZero))
  /\ (forall now pid q exp batch loc ref_id ref_type notes db,
         ledger_grows db
           (fst (InventoryService.add_stock now pid q exp batch loc
                   ref_id ref_type notes db)))
  /\ (forall now pid q ref_id ref_type notes mtype db,
         ledger_grows db
           (fst (InventoryService.remove_stock now pid q ref_id ref_type
                   notes mtype db)))
  /\ (forall now pid new_quantity reason user_id db,
         ledger_grows db
           (fst (InventoryService.adjust_stock now pid new_quantity reason
                   user_id db)))
  /\ (forall pid q db,
         ledger_grows db (fst (InventoryService.reserve_stock pid q db)))
  /\ (forall pid q db,
         ledger_grows db (fst (InventoryService.release_reservation pid q db))).
Proof.
  split; [|split; [|split; [|split; [|split]]]].
  - intros. unfold StockMovementEntity.new, StockMovementEntity.post_init.
    simpl. destruct (pid <=? 0); reflexivity.
  - intros now pid q exp batch loc ref_id ref_type nts.
    enough (H : keeps_ledger (fun _ => True)
                  (InventoryService.add_stock now pid q exp batch loc
                     ref_id ref_type nts)) by (intro db; apply H).
    unfold InventoryService.add_stock.
    ledger_step. destruct a as [p|]; [|ledger_step].
    do 2 ledger_step.
    eapply keeps_ledger_bind with (Q := fun _ => True).
    { destruct (find _ a0); repeat ledger_step. }
    intros s _. repeat ledger_step.
  - intros now pid q ref_id ref_type nts mtype.
    enough (H : keeps_ledger (fun _ => True)
                  (InventoryService.remove_stock now pid q ref_id ref_type
                     nts mtype)) by (intro db; apply H).
    unfold InventoryService.remove_stock.
    ledger_step. destruct a as [p|]; [|ledger_step].
    do 3 ledger_step.
    eapply keeps_ledger_bind with (Q := fun _ => True).
    { apply keeps_ledger_remove_loop. }
    intros aff _. repeat ledger_step.
  - intros now pid new_quantity reason user_id.
    enough (H : keeps_ledger (fun _ => True)
                  (InventoryService.adjust_stock now pid new_quantity reason
                     user_id)) by (intro db; apply H).
    unfold InventoryService.adjust_stock.
    do 5 ledger_step. destruct a3; repeat ledger_step.
  - intros pid q.
    enough (H : keeps_ledger (fun _ => True)
                  (InventoryService.reserve_stock pid q)) by (intro db; apply H).
    unfold InventoryService.reserve_stock.
    do 3 ledger_step. apply keeps_ledger_reserve_loop.
  - intros pid q.
    enough (H : keeps_ledger (fun _ => True)
                  (InventoryService.release_reservation pid q))
      by (intro db; apply H).
    unfold InventoryService.release_reservation.
    ledger_step. apply keeps_ledger_release_loop.
Qed.

(** ** The lot walks *)

Lemma remove_loop_walk now l r aff db :
  InventoryService.remove_loop now l r aff db
  = lot_walk (StockEntity.remove_stock now) StockEntity.available_quantity
      l r aff db.
Proof.
  revert r aff db. induction l as [|s l IH]; intros r aff db; simpl.
  - reflexivity.
  - destruct (r <=? 0); [reflexivity|].
    unfold bind. destruct (lift _ db) as [db1 [s'|e]]; [|reflexivity].
    destruct (StockRepository.update_stock s' db1) as [db2 [u|e]];
      [apply IH|reflexivity].
Qed.

Lemma reserve_loop_walk l r aff db :
  InventoryService.reserve_loop l r aff db
  = lot_walk StockEntity.reserve_stock StockEntity.available_quantity
      l r aff db.
Proof.
  revert r aff db. induction l as [|s l IH]; intros r aff db; simpl.
  - reflexivity.
  - destruct (r <=? 0); [reflexivity|].
    unfold bind. destruct (lift _ db) as [db1 [s'|e]]; [|reflexivity].
    destruct (StockRepository.update_stock s' db1) as [db2 [u|e]];
      [apply IH|reflexivity].
Qed.

Lemma release_loop_walk l r aff db :
  InventoryService.release_loop l r aff db
  = lot_walk StockEntity.release_reservation reserved_quantity l r aff db.
Proof.
  revert r aff db. induction l as [|s l IH]; intros r aff db; simpl.
  - reflexivity.
  - destruct (r <=? 0); [reflexivity|].
    unfold bind. destruct (lift _ db) as [db1 [s'|e]]; [|reflexivity].
    destruct (StockRepository.update_stock s' db1) as [db2 [u|e]];
      [apply IH|reflexivity].
Qed.

(** A walk touches the [stock] table only. *)
Lemma lot_walk_frame op amount l r aff db :
  products (fst (lot_walk op amount l r aff db)) = products db
  /\ stock_movements (fst (lot_walk op amount l r aff db))
     = stock_movements db.
Proof.
  revert r aff db. induction l as [|s l IH]; intros r aff db; simpl.
  - auto.
  - destruct (r <=? 0); simpl; [auto|].
    unfold bind, lift. destruct (op s _) as [s'|e]; simpl; [|auto].
    unfold StockRepository.update_stock, StockRepository.save_stock.
    destruct (id s') as [i|].
    + destruct (StockRepository.update_row _ i s' (stock db)) as [rows|];
        simpl; [|auto].
      destruct (IH (r - Z.min r (amount s)) (aff ++ [s']) (with_stock db rows))
        as [E1 E2].
      rewrite E1, E2. auto.
    + match goal with
      | |- context [lot_walk op amount l ?r' ?aff' ?db'] =>
          destruct (IH r' aff' db') as [E1 E2]
      end.
      rewrite E1, E2. auto.
Qed.

(** Rows with distinct primary keys. *)
Lemma same_id_same_row (rows : list Stock) (a b : Stock) :
  NoDup (map id rows) -> In a rows -> In b rows -> id a = id b -> a = b.
Proof.
  induction rows as [|r rows IH]; simpl; intros Hnd Ha Hb E; [contradiction|].
  inversion Hnd as [|? ? Hnotin Hnd']; subst.
  destruct Ha as [<-|Ha], Hb as [<-|Hb].
  - reflexivity.
  - exfalso. apply Hnotin. rewrite E. apply in_map. exact Hb.
  - exfalso. apply Hnotin. rewrite <- E. apply in_map. exact Ha.
  - apply IH; assumption.
Qed.

Lemma has_id_iff (i : Z) (s : Stock) :
  StockRepository.has_id i s = true <-> id s = Some i.
Proof. unfold StockRepository.has_id. apply option_eqb_Z_eq. Qed.

(** Under unique keys, [update_row] changes the row with the key and no
    other. *)
Lemma update_row_map (clock : datetime) (rows : list Stock) (i : Z)
    (s s' : Stock) :
  NoDup (map id rows) -> In s rows -> id s = Some i ->
  StockRepository.update_row clock i s' rows
  = Some (map (fun r =>
                 if StockRepository.has_id i r
                 then StockRepository._update_stock_model_from_domain
                        clock r s'
                 else r) rows).
Proof.
  induction rows as [|r rows IH]; simpl; intros Hnd Hin Hid; [contradiction|].
  inversion Hnd as [|? ? Hnotin Hnd']; subst.
  destruct (StockRepository.has_id i r) eqn:Hr.
  - f_equal. f_equal. symmetry.
    erewrite map_ext_in; [apply map_id|].
    intros x Hx. simpl.
    destruct (StockRepository.has_id i x) eqn:Hxi; [|reflexivity].
    exfalso. apply Hnotin.
    apply has_id_iff in Hr. apply has_id_iff in Hxi.
    rewrite Hr, <- Hxi. apply in_map. exact Hx.
  - destruct Hin as [->|Hin].
    + apply has_id_iff in Hid. congruence.
    + rewrite (IH Hnd' Hin Hid). reflexivity.
Qed.

Lemma taken_cons_same (s r : Stock) (t : Z) (p : list (Stock * Z)) :
  id s = id r -> Spec.taken ((s, t) :: p) r = t.
Proof.
  intro E. unfold Spec.taken. simpl.
  replace (option_eqb Z.eqb (id s) (id r)) with true; [reflexivity|].
  symmetry. apply option_eqb_Z_eq. exact E.
Qed.

Lemma taken_cons_other (s r : Stock) (t : Z) (p : list (Stock * Z)) :
  id s <> id r -> Spec.taken ((s, t) :: p) r = Spec.taken p r.
Proof.
  intro E. unfold Spec.taken. simpl.
  destruct (option_eqb Z.eqb (id s) (id r)) eqn:H; [|reflexivity].
  apply option_eqb_Z_eq in H. contradiction.
Qed.

Lemma taken_absent (r : Stock) (p : list (Stock * Z)) :
  (forall x, In x p -> id (fst x) <> id r) -> Spec.taken p r = 0.
Proof.
  induction p as [|[s t] p IH]; intro H; [reflexivity|].
  rewrite taken_cons_other.
  - apply IH. intros x Hx. apply H. right. exact Hx.
  - apply (H (s, t)). left. reflexivity.
Qed.

Lemma taken_zero (r : Stock) (p : list (Stock * Z)) :
  Forall (fun x => snd x = 0) p -> Spec.taken p r = 0.
Proof.
  induction 1 as [|[s t] p Hx _ IH]; [reflexivity|]. simpl in Hx. subst t.
  unfold Spec.taken in *. simpl.
  destruct (option_eqb Z.eqb (id s) (id r)); [reflexivity|exact IH].
Qed.

Lemma greedy_plan_fst amount q lots :
  map fst (Spec.greedy_plan amount q lots) = lots.
Proof.
  revert q. induction lots as [|s l IH]; intro q; simpl; [reflexivity|].
  rewrite IH. reflexivity.
Qed.

Lemma greedy_plan_stopped amount q lots :
  q <= 0 -> (forall s, In s lots -> 0 <= amount s) ->
  Forall (fun x => snd x = 0) (Spec.greedy_plan amount q lots).
Proof.
  revert q. induction lots as [|s l IH]; intros q Hq Ha; simpl; constructor.
  - simpl. specialize (Ha s (or_introl eq_refl)). lia.
  - assert (E : Z.min (Z.max q 0) (amount s) = 0).
    { specialize (Ha s (or_introl eq_refl)). lia. }
    rewrite E. apply IH; [lia|]. intros x Hx. apply Ha. right. exact Hx.
Qed.

Lemma apply_plan_zero upd plan rows :
  Forall (fun x => snd x = 0) plan -> Spec.apply_plan upd plan rows = rows.
Proof.
  intro H. unfold Spec.apply_plan. erewrite map_ext; [apply map_id|].
  intro r. simpl. rewrite (taken_zero r plan H). reflexivity.
Qed.

Lemma touched_zero upd plan :
  Forall (fun x => snd x = 0) plan -> touched upd plan = [].
Proof.
  unfold touched. induction 1 as [|[s t] p Hx _ IH]; [reflexivity|].
  simpl in *. subst t. simpl. exact IH.
Qed.

Lemma with_stock_same (db : InventoryDb) : with_stock db (stock db) = db.
Proof. destruct db. reflexivity. Qed.

Section Walk.
Variable op : Stock -> Z -> result Stock.
Variable amount : Stock -> Z.
Variable upd : Stock -> Z -> Stock.
Variable clock : datetime.
Hypothesis upd_id : forall s t, id (upd s t) = id s.

Lemma replaced_ids (rows : list Stock) (i : Z) (f : Stock -> Stock) :
  (forall r, id (f r) = id r) ->
  map id (map (fun r => if StockRepository.has_id i r then f r else r) rows)
  = map id rows.
Proof.
  intro Hf. rewrite map_map. apply map_ext. intro r.
  destruct (StockRepository.has_id i r); [apply Hf|reflexivity].
Qed.

Lemma apply_plan_step (rows : list Stock) (i : Z) (s : Stock) (t : Z)
    (p : list (Stock * Z)) :
  NoDup (map id rows) -> In s rows -> id s = Some i ->
  (forall x, In x p -> id (fst x) <> Some i) -> 0 < t ->
  Spec.apply_plan (stored clock upd) p
    (map (fun r =>
            if StockRepository.has_id i r
            then StockRepository._update_stock_model_from_domain clock r
                   (upd s t)
            else r) rows)
  = Spec.apply_plan (stored clock upd) ((s, t) :: p) rows.
Proof.
  intros Hnd Hin Hid Hp Ht. unfold Spec.apply_plan. rewrite map_map.
  apply map_ext_in. intros r Hr.
  destruct (StockRepository.has_id i r) eqn:Hri.
  - apply has_id_iff in Hri.
    assert (r = s) by (apply (same_id_same_row rows); congruence). subst r.
    rewrite taken_absent.
    + rewrite taken_cons_same by reflexivity.
      apply Z.ltb_lt in Ht. rewrite Ht. reflexivity.
    + intros x Hx. cbn [id StockRepository._update_stock_model_from_domain].
      rewrite Hid. apply Hp. exact Hx.
  - rewrite taken_cons_other; [reflexivity|].
    intro E. rewrite Hid in E. symmetry in E. apply has_id_iff in E.
    congruence.
Qed.

(** The walk carries out the greedy plan: the table it leaves is the table
    it found with the plan applied, each lot changed being stored as
    [_update_stock_model_from_domain] stores it, and it returns the lots
    it changed. *)
Lemma lot_walk_spec (cands : list Stock) :
  forall (q : Z) (aff : list Stock) (db : InventoryDb),
    inventory_clock db = clock ->
    NoDup (map id (stock db)) ->
    NoDup (map id cands) ->
    (forall s, In s cands ->
               In s (stock db) /\ id s <> None /\ 0 < amount s) ->
    (forall s t, In s cands -> 0 < t <= amount s -> op s t = Ok (upd s t)) ->
    lot_walk op amount cands q aff db
    = (with_stock db
         (Spec.apply_plan (stored clock upd)
            (Spec.greedy_plan amount q cands) (stock db)),
       Ok (aff ++ touched upd (Spec.greedy_plan amount q cands))).
Proof.
  induction cands as [|s l IH]; intros q aff db Hck Hnd Hndc Hc Hop.
  - simpl. unfold ret. unfold Spec.apply_plan. simpl.
    rewrite map_id, with_stock_same, app_nil_r. reflexivity.
  - destruct (Z.leb_spec q 0) as [Hq|Hq].
    + assert (Hz : Forall (fun x => snd x = 0)
                     (Spec.greedy_plan amount q (s :: l))).
      { apply greedy_plan_stopped; [exact Hq|].
        intros x Hx. destruct (Hc x Hx) as (_ & _ & ?). lia. }
      rewrite (apply_plan_zero _ _ _ Hz), (touched_zero _ _ Hz).
      simpl. apply Z.leb_le in Hq. rewrite Hq. unfold ret.
      rewrite with_stock_same, app_nil_r. reflexivity.
    + destruct (Hc s (or_introl eq_refl)) as (Hins & Hids & Hams).
      destruct (id s) as [i|] eqn:Hid; [clear Hids|congruence].
      simpl in Hndc. apply NoDup_cons_iff in Hndc as [Hnotin Hndl].
      simpl. apply Z.leb_gt in Hq as Hq'. rewrite Hq'.
      replace (Z.max q 0) with q by lia.
      set (t := Z.min q (amount s)).
      assert (Ht : 0 < t <= amount s) by (unfold t; lia).
      unfold bind, lift. rewrite (Hop s t (or_introl eq_refl) Ht).
      unfold StockRepository.update_stock, StockRepository.save_stock.
      rewrite upd_id, Hid, Hck.
      rewrite (update_row_map _ (stock db) i s (upd s t) Hnd Hins Hid).
      rewrite IH.
      * simpl stock. unfold with_stock at 1 2. simpl.
        rewrite apply_plan_step; try assumption; try lia.
        -- unfold touched. simpl.
           destruct Ht as [Ht _]. apply Z.ltb_lt in Ht. rewrite Ht.
           simpl. rewrite <- app_assoc. reflexivity.
        -- intros x Hx E. apply Hnotin. simpl in E. rewrite Hid, <- E.
           apply in_map. rewrite <- (greedy_plan_fst amount (q - t) l).
           apply in_map. exact Hx.
      * cbn [inventory_clock with_stock]. exact Hck.
      * simpl stock. rewrite replaced_ids; [exact Hnd|reflexivity].
      * exact Hndl.
      * intros x Hx. destruct (Hc x (or_intror Hx)) as (Hinx & Hidx & Hax).
        split; [|split; assumption]. simpl stock.
        apply in_map_iff. exists x. split; [|exact Hinx].
        destruct (StockRepository.has_id i x) eqn:Hxi; [|reflexivity].
        exfalso. apply Hnotin. apply has_id_iff in Hxi.
        simpl. rewrite Hid, <- Hxi. apply in_map. exact Hx.
      * intros x t' Hx. apply Hop. right. exact Hx.
Qed.
End Walk.

(** ** Sums over a table *)

Lemma sum_Z_perm (l l' : list Z) : Permutation l l' -> sum_Z l = sum_Z l'.
Proof.
  induction 1; simpl; try lia.
Qed.

Lemma sum_Z_nonneg (l : list Z) : Forall (fun x => 0 <= x) l -> 0 <= sum_Z l.
Proof. induction 1; simpl; lia. Qed.

Lemma sum_filter_zero {A} (g : A -> Z) (p : A -> bool) (l : list A) :
  (forall r, In r l -> p r = false -> g r = 0) ->
  sum_Z (map g (filter p l)) = sum_Z (map g l).
Proof.
  induction l as [|x l IH]; intro H; simpl; [reflexivity|].
  assert (IH' : sum_Z (map g (filter p l)) = sum_Z (map g l)).
  { apply IH. intros r Hr. apply H. right. exact Hr. }
  destruct (p x) eqn:Hp; simpl.
  - rewrite IH'. reflexivity.
  - rewrite IH', (H x (or_introl eq_refl) Hp). reflexivity.
Qed.

Lemma greedy_plan_bounds amount q lots :
  (forall s, In s lots -> 0 <= amount s) ->
  Forall (fun x => 0 <= snd x <= amount (fst x))
    (Spec.greedy_plan amount q lots).
Proof.
  revert q. induction lots as [|s l IH]; intros q Ha; simpl; constructor.
  - simpl. specialize (Ha s (or_introl eq_refl)). lia.
  - apply IH. intros x Hx. apply Ha. right. exact Hx.
Qed.

Lemma greedy_plan_sum amount lots :
  (forall s, In s lots -> 0 <= amount s) ->
  forall q, 0 <= q <= sum_Z (map amount lots) ->
            sum_Z (map snd (Spec.greedy_plan amount q lots)) = q.
Proof.
  induction lots as [|s l IH]; intros Ha q Hq; simpl in *; [lia|].
  assert (Hs : 0 <= amount s) by (apply Ha; left; reflexivity).
  assert (Hl : 0 <= sum_Z (map amount l)).
  { apply sum_Z_nonneg. rewrite Forall_map, Forall_forall.
    intros x Hx. apply Ha. right. exact Hx. }
  rewrite IH; [lia| |lia].
  intros x Hx. apply Ha. right. exact Hx.
Qed.

Lemma taken_nonneg (plan : list (Stock * Z)) (r : Stock) :
  Forall (fun x => 0 <= snd x) plan -> 0 <= Spec.taken plan r.
Proof.
  induction 1 as [|[s t] p Hx _ IH]; [unfold Spec.taken; simpl; lia|].
  unfold Spec.taken in *. simpl in *.
  destruct (option_eqb Z.eqb (id s) (id r)); [exact Hx|exact IH].
Qed.

Lemma taken_plan_self (plan : list (Stock * Z)) :
  NoDup (map id (map fst plan)) ->
  map (Spec.taken plan) (map fst plan) = map snd plan.
Proof.
  induction plan as [|[s t] p IH]; intro Hnd; [reflexivity|].
  simpl in *. inversion Hnd as [|? ? Hnotin Hnd']; subst.
  rewrite taken_cons_same by reflexivity. f_equal.
  rewrite <- (IH Hnd'). apply map_ext_in. intros r Hr.
  apply taken_cons_other. intro E. apply Hnotin. rewrite E.
  apply in_map. exact Hr.
Qed.

(** The rows of a product, after a plan that keeps the product of a row. *)
Lemma rows_of_product_apply_plan upd plan pid rows :
  (forall r t, product_id (upd r t) = product_id r) ->
  StockRepository.rows_of_product pid (Spec.apply_plan upd plan rows)
  = Spec.apply_plan upd plan (StockRepository.rows_of_product pid rows).
Proof.
  intro Hp. unfold StockRepository.rows_of_product, Spec.apply_plan.
  induction rows as [|r rows IH]; simpl; [reflexivity|].
  assert (E : product_id (if 0 <? Spec.taken plan r
                          then upd r (Spec.taken plan r) else r)
              = product_id r).
  { destruct (0 <? Spec.taken plan r); [apply Hp|reflexivity]. }
  rewrite E. destruct (product_id r =? pid); simpl; rewrite IH; reflexivity.
Qed.

(** A quantity that a change moves by [k] units for each unit taken. *)
Lemma sum_apply_plan (f : Stock -> Z) (k : Z) upd plan rows :
  (forall r t, f (upd r t) = f r + k * t) ->
  Forall (fun x => 0 <= snd x) plan ->
  sum_Z (map f (Spec.apply_plan upd plan rows))
  = sum_Z (map f rows) + k * sum_Z (map (Spec.taken plan) rows).
Proof.
  intros Hf Hp. unfold Spec.apply_plan.
  induction rows as [|r rows IH]; simpl; [lia|].
  rewrite IH. pose proof (taken_nonneg plan r Hp) as Hn.
  destruct (Z.ltb_spec 0 (Spec.taken plan r)) as [Hlt|Hge].
  - rewrite Hf. lia.
  - replace (Spec.taken plan r) with 0 by lia. lia.
Qed.

(** ** The candidates of a walk *)

Lemma valid_post_init (s : Stock) :
  valid_stock_row s -> StockEntity.post_init s = Ok s.
Proof.
  intros (_ & Hp & (Hc & Hr & _) & _). unfold StockEntity.post_init.
  destruct (Z.leb_spec (product_id s) 0); [lia|].
  destruct (Z.ltb_spec (current_quantity s) 0); [lia|].
  destruct (Z.ltb_spec (reserved_quantity s) 0); [lia|].
  destruct (Z.ltb_spec (current_quantity s) (reserved_quantity s)); [lia|].
  reflexivity.
Qed.

Lemma rows_of_product_In pid rows s :
  In s (StockRepository.rows_of_product pid rows)
  <-> In s rows /\ product_id s = pid.
Proof.
  unfold StockRepository.rows_of_product. rewrite filter_In, Z.eqb_eq.
  reflexivity.
Qed.

Lemma find_stock_valid pid db :
  Forall valid_stock_row (stock db) ->
  StockRepository.find_stock_by_product_id pid db
  = (db, Ok (StockRepository.rows_of_product pid (stock db))).
Proof.
  intro H. unfold StockRepository.find_stock_by_product_id. f_equal.
  apply mapM_id. rewrite Forall_forall in *. intros s Hs.
  apply valid_post_init, H. apply rows_of_product_In in Hs. tauto.
Qed.

Lemma fifo_candidates_In l s :
  In s (InventoryService.fifo_candidates l)
  <-> In s l /\ 0 < StockEntity.available_quantity s.
Proof.
  unfold InventoryService.fifo_candidates.
  rewrite sort_by_key_In, filter_In, Z.ltb_lt. reflexivity.
Qed.

(** Keys stay unique in a selection of the rows. *)
Lemma unique_ids_filter (keep : Stock -> bool) (rows : list Stock) :
  NoDup (map id rows) -> NoDup (map id (filter keep rows)).
Proof.
  induction rows as [|r rows IH]; simpl; intro H; [constructor|].
  inversion H as [|? ? Hnotin Hnd]; subst.
  destruct (keep r); simpl; [|apply IH; exact Hnd].
  constructor; [|apply IH; exact Hnd].
  intro Hin. apply Hnotin. apply in_map_iff in Hin.
  destruct Hin as (y & E & Hy). apply filter_In in Hy.
  rewrite <- E. apply in_map. tauto.
Qed.

Lemma fifo_candidates_NoDup pid rows :
  NoDup (map id rows) ->
  NoDup (map id (InventoryService.fifo_candidates
                   (StockRepository.rows_of_product pid rows))).
Proof.
  intro H. unfold InventoryService.fifo_candidates.
  eapply Permutation_NoDup.
  - apply Permutation_map, sort_by_key_perm.
  - apply unique_ids_filter. unfold StockRepository.rows_of_product.
    apply unique_ids_filter. exact H.
Qed.

Lemma fifo_candidates_total (f : Stock -> Z) l :
  (forall s, In s l -> StockEntity.available_quantity s <= 0 -> f s = 0) ->
  sum_Z (map f (InventoryService.fifo_candidates l)) = sum_Z (map f l).
Proof.
  intro H. unfold InventoryService.fifo_candidates.
  rewrite <- (sum_Z_perm _ _ (Permutation_map f (sort_by_key_perm _ _))).
  apply sum_filter_zero. intros r Hr Hp. apply H; [exact Hr|].
  apply Z.ltb_ge in Hp. exact Hp.
Qed.

(** What a plan over the candidates of a product takes from the rows of
    the product is what it takes in all. *)
Lemma sum_taken_rows amount q pid rows :
  NoDup (map id rows) ->
  let rows_p := StockRepository.rows_of_product pid rows in
  let plan := Spec.greedy_plan amount q (InventoryService.fifo_candidates rows_p) in
  sum_Z (map (Spec.taken plan) rows_p) = sum_Z (map snd plan).
Proof.
  intros Hnd rows_p plan.
  rewrite <- (fifo_candidates_total (Spec.taken plan) rows_p).
  - rewrite <- taken_plan_self.
    + unfold plan. rewrite greedy_plan_fst. reflexivity.
    + unfold plan. rewrite greedy_plan_fst.
      apply fifo_candidates_NoDup. exact Hnd.
  - intros s Hs Ha. apply taken_absent. intros x Hx E.
    assert (Hc : In (fst x) (InventoryService.fifo_candidates rows_p)).
    { rewrite <- (greedy_plan_fst amount q
                    (InventoryService.fifo_candidates rows_p)).
      apply in_map. exact Hx. }
    apply fifo_candidates_In in Hc. destruct Hc as [Hc1 Hc2].
    apply rows_of_product_In in Hc1. apply rows_of_product_In in Hs.
    assert (fst x = s) by (apply (same_id_same_row rows); tauto).
    subst s. lia.
Qed.

(** ** Consume and reserve on a well-formed table *)

Lemma entity_remove_ok now s t :
  0 < t <= StockEntity.available_quantity s ->
  StockEntity.remove_stock now s t = Ok (removed now s t).
Proof.
  intros [H1 H2]. unfold StockEntity.remove_stock.
  destruct (Z.leb_spec t 0); [lia|].
  destruct (Z.ltb_spec (StockEntity.available_quantity s) t); [lia|].
  reflexivity.
Qed.

Lemma entity_reserve_ok s t :
  0 < t <= StockEntity.available_quantity s ->
  StockEntity.reserve_stock s t = Ok (reserved s t).
Proof.
  intros [H1 H2]. unfold StockEntity.reserve_stock.
  destruct (Z.leb_spec t 0); [lia|].
  destruct (Z.ltb_spec (StockEntity.available_quantity s) t); [lia|].
  reflexivity.
Qed.

Lemma entity_release_ok s t :
  0 < t <= reserved_quantity s ->
  StockEntity.release_reservation s t = Ok (released s t).
Proof.
  intros [H1 H2]. unfold StockEntity.release_reservation.
  destruct (Z.leb_spec t 0); [lia|].
  destruct (Z.ltb_spec (reserved_quantity s) t); [lia|].
  reflexivity.
Qed.

Lemma candidates_in_table pid rows s :
  wf_stock rows ->
  In s (InventoryService.fifo_candidates
          (StockRepository.rows_of_product pid rows)) ->
  In s rows /\ id s <> None /\ 0 < StockEntity.available_quantity s.
Proof.
  intros [_ Hv] Hs. apply fifo_candidates_In in Hs. destruct Hs as [Hs Ha].
  apply rows_of_product_In in Hs. destruct Hs as [Hs _].
  rewrite Forall_forall in Hv. destruct (Hv s Hs) as (Hid & _).
  auto.
Qed.

Lemma remove_stock_run now pid q ref_id ref_type nts mtype db p :
  wf_stock (stock db) ->
  find (fun p => prod_id p =? pid) (products db) = Some p ->
  q <= total_available pid (stock db) ->
  let plan := fifo_plan pid q (stock db) in
  InventoryService.remove_stock now pid q ref_id ref_type nts mtype db
  = (with_stock db
       (Spec.apply_plan (stored (inventory_clock db) (removed now)) plan
          (stock db)),
     Raise match StockMovementEntity.new None pid mtype (- q) ref_id
                   ref_type nts (Some now) None with
           | Ok _ => MovementTypeNotStorable
           | Raise e => e
           end).
Proof.
  intros Hwf Hp Hq plan. unfold InventoryService.remove_stock.
  unfold bind at 1. unfold ProductRepository.find_by_id. rewrite Hp.
  cbn [option_map].
  unfold bind at 1. unfold StockRepository.get_available_stock_by_product.
  fold (total_available pid (stock db)).
  apply Z.ltb_ge in Hq. unfold bind at 1. rewrite Hq. simpl when.
  unfold ret at 1. unfold bind at 1.
  rewrite (find_stock_valid pid db (proj2 Hwf)).
  unfold bind at 1. rewrite remove_loop_walk.
  rewrite (lot_walk_spec _ _ (removed now) (inventory_clock db)).
  - fold (fifo_plan pid q (stock db)). fold plan. simpl app.
    unfold bind, lift.
    destruct (StockMovementEntity.new None pid mtype (- q) ref_id ref_type
                nts (Some now) None) as [m|e]; reflexivity.
  - reflexivity.
  - reflexivity.
  - exact (proj1 Hwf).
  - apply fifo_candidates_NoDup. exact (proj1 Hwf).
  - intros s Hs. eapply candidates_in_table; eassumption.
  - intros s t _ Ht. apply entity_remove_ok. exact Ht.
Qed.

Lemma reserve_stock_run pid q db :
  wf_stock (stock db) ->
  q <= total_available pid (stock db) ->
  let plan := fifo_plan pid q (stock db) in
  InventoryService.reserve_stock pid q db
  = (with_stock db
       (Spec.apply_plan (stored (inventory_clock db) reserved) plan
          (stock db)),
     Ok (touched reserved plan)).
Proof.
  intros Hwf Hq plan. unfold InventoryService.reserve_stock.
  unfold bind at 1. unfold StockRepository.get_available_stock_by_product.
  fold (total_available pid (stock db)).
  apply Z.ltb_ge in Hq. unfold bind at 1. rewrite Hq. simpl when.
  unfold ret at 1. unfold bind at 1.
  rewrite (find_stock_valid pid db (proj2 Hwf)).
  rewrite reserve_loop_walk.
  rewrite (lot_walk_spec _ _ reserved (inventory_clock db)).
  - reflexivity.
  - reflexivity.
  - reflexivity.
  - exact (proj1 Hwf).
  - apply fifo_candidates_NoDup. exact (proj1 Hwf).
  - intros s Hs. eapply candidates_in_table; eassumption.
  - intros s t _ Ht. apply entity_reserve_ok. exact Ht.
Qed.

(** The plan of a consume distributes all of a quantity that the product
    has available. *)
Lemma fifo_plan_total pid q rows :
  wf_stock rows -> 0 <= q <= total_available pid rows ->
  sum_Z (map snd (fifo_plan pid q rows)) = q.
Proof.
  intros [Hnd Hv] Hq. unfold fifo_plan. apply greedy_plan_sum.
  - intros s Hs. apply fifo_candidates_In in Hs. lia.
  - rewrite fifo_candidates_total; [exact Hq|].
    intros s Hs Ha. apply rows_of_product_In in Hs.
    rewrite Forall_forall in Hv. destruct (Hv s (proj1 Hs)) as (_&_&Hi&_).
    destruct Hi as (_ & _ & Hi). lia.
Qed.

Lemma fifo_plan_nonneg pid q rows :
  Forall (fun x => 0 <= snd x) (fifo_plan pid q rows).
Proof.
  unfold fifo_plan. eapply Forall_impl; [|apply greedy_plan_bounds].
  - simpl. intros a H. exact (proj1 H).
  - intros s Hs. apply fifo_candidates_In in Hs. lia.
Qed.

(** After a plan of [q] units that changes the quantity [f] of a lot by
    [k] for each unit, the total of [f] over the product has changed by
    [k * q]. *)
Lemma total_after_plan (f : Stock -> Z) (k : Z) upd pid q rows :
  wf_stock rows -> 0 <= q <= total_available pid rows ->
  (forall r t, f (upd r t) = f r + k * t) ->
  (forall r t, product_id (upd r t) = product_id r) ->
  sum_Z (map f (StockRepository.rows_of_product pid
                  (Spec.apply_plan upd (fifo_plan pid q rows) rows)))
  = sum_Z (map f (StockRepository.rows_of_product pid rows)) + k * q.
Proof.
  intros Hwf Hq Hf Hp.
  rewrite rows_of_product_apply_plan by exact Hp.
  rewrite (sum_apply_plan f k) by (auto using fifo_plan_nonneg).
  unfold fifo_plan at 1.
  rewrite (sum_taken_rows StockEntity.available_quantity q pid rows (proj1 Hwf)).
  fold (fifo_plan pid q rows). rewrite fifo_plan_total by assumption.
  reflexivity.
Qed.

Lemma new_movement_ok mid pid t q ref_id ref_type nts c_at c_by :
  0 < pid -> q <> 0 ->
  exists m,
    StockMovementEntity.new mid pid t q ref_id ref_type nts c_at c_by = Ok m
    /\ mv_product_id m = pid /\ movement_type m = t
    /\ quantity m = match t with
                    | SALE | EXPIRED | DAMAGED => - Z.abs q
                    | PURCHASE | RETURN => Z.abs q
                    | ADJUSTMENT => q
                    end.
Proof.
  intros Hp Hq. unfold StockMovementEntity.new, StockMovementEntity.post_init.
  simpl. destruct (Z.leb_spec pid 0); [lia|].
  destruct (Z.eqb_spec q 0); [contradiction|].
  eexists. split; [reflexivity|]. simpl. split; [reflexivity|].
  split; [reflexivity|].
  destruct t;
    repeat match goal with
           | |- context [?a <? ?b] => destruct (Z.ltb_spec a b)
           end; lia.
Qed.

Lemma positive_total_has_row pid rows :
  Forall valid_stock_row rows -> 0 < total_available pid rows -> 0 < pid.
Proof.
  intros Hv Ht. unfold total_available in Ht.
  destruct (StockRepository.rows_of_product pid rows) as [|s l] eqn:E.
  - simpl in Ht. lia.
  - assert (Hs : In s (StockRepository.rows_of_product pid rows))
      by (rewrite E; left; reflexivity).
    apply rows_of_product_In in Hs. destruct Hs as [Hs <-].
    rewrite Forall_forall in Hv. destruct (Hv s Hs) as (_ & Hp & _).
    exact Hp.
Qed.

Lemma example_lot_valid i cur res exp :
  0 <= res <= cur ->
  (forall d, exp = Some d -> valid_date d) ->
  valid_stock_row (mkStock (Some i) 1 cur res exp None None None).
Proof.
  intros Hq Hd. unfold valid_stock_row, StockEntity.invariant,
    StockEntity.available_quantity. simpl.
  split; [discriminate|]. split; [lia|]. split; [lia|exact Hd].
Qed.

Lemma three_lots_wf : wf_stock (stock Ex.three_lots).
Proof.
  split.
  - simpl. repeat constructor; simpl; intuition discriminate.
  - simpl. unfold Ex.lot_none, Ex.lot_june, Ex.lot_march.
    repeat apply Forall_cons; try apply Forall_nil;
      apply example_lot_valid; try lia;
      intros d E; inversion E; subst; vm_compute; split; discriminate.
Qed.

Lemma held_lots_wf : wf_stock (stock Ex.held_lots).
Proof.
  split.
  - simpl. repeat constructor; simpl; intuition discriminate.
  - simpl. unfold Ex.lot_none, Ex.held_june, Ex.held_march.
    repeat apply Forall_cons; try apply Forall_nil;
      apply example_lot_valid; try lia;
      intros d E; inversion E; subst; vm_compute; split; discriminate.
Qed.

Lemma sorted_weaken {A} (R R' : A -> A -> Prop) (l : list A) :
  (forall a b, In a l -> In b l -> R a b -> R' a b) ->
  StronglySorted R l -> StronglySorted R' l.
Proof.
  intros H Hs. induction Hs as [|a l Hs IH Hf]; constructor.
  - apply IH. intros x y Hx Hy. apply H; right; assumption.
  - rewrite Forall_forall in *. intros x Hx.
    apply H; [left; reflexivity|right; exact Hx|apply Hf; exact Hx].
Qed.

Lemma Forall2_map_self {A B} (P : A -> B -> Prop) (f : A -> B) (l : list A) :
  (forall x, In x l -> P x (f x)) -> Forall2 P l (map f l).
Proof.
  induction l as [|x l IH]; simpl; intro H; constructor.
  - apply H. left. reflexivity.
  - apply IH. intros y Hy. apply H. right. exact Hy.
Qed.

(** On valid lots the order of the sort keys is the order the
    specification describes. *)
Lemma key_order_is_fifo (a b : Stock) :
  valid_stock_row a -> valid_stock_row b ->
  key_le InventoryService.expiration_key a b -> Spec.fifo_before a b.
Proof.
  intros (_ & _ & _ & Ha) (_ & _ & _ & Hb).
  unfold key_le, InventoryService.expiration_key, Spec.fifo_before.
  destruct (expiration_date a) as [x|], (expiration_date b) as [y|];
    try tauto.
  intro H. destruct (Hb y eq_refl) as [_ Hy]. lia.
Qed.

Lemma stored_removed_consumed (clock now : datetime) (r : Stock) (t : Z) :
  0 < t -> Spec.consumed t r (stored clock (removed now) r t).
Proof.
  intro Ht. unfold Spec.consumed, stored, removed.
  cbn. repeat split. intro E. lia.
Qed.

Lemma untouched_consumed (r : Stock) : Spec.consumed 0 r r.
Proof. unfold Spec.consumed. repeat split. lia. Qed.

Ltac lot_fields :=
  unfold stored, StockRepository._update_stock_model_from_domain,
    removed, reserved, released, StockEntity.set_current,
    StockEntity.set_reserved, StockEntity.available_quantity,
    Spec.available;
  cbn [current_quantity reserved_quantity product_id]; lia.

(** C3. A consume ([remove_stock]) of a quantity that does not exceed what
    the product has available, the available quantity of a lot being its
    current quantity less its reserved quantity, walks the lots of the
    product that have something available in ascending order of
    expiration date, the lots without expiration date last, and takes
    min(remaining, available) from each: every row of the table it leaves
    is the row it found with the amount of that greedy plan taken from
    its current quantity, and the rows from which nothing is taken are as
    they were.  With the lots March: 5, June: 10 and no expiration: 20,
    consuming 8 leaves March at 0, June at 7 and the lot without
    expiration at 20; when all of March and 4 of June are reserved, it
    leaves March at 5, June at 4 and the lot without expiration at 18.
    The lots are written one by one; the call itself, for a positive
    quantity, then ends with the exception of [save_movement]. *)
Theorem remove_stock_is_fifo :
  forall now pid q ref_id ref_type nts mtype db p,
    wf_stock (stock db) ->
    find (fun p => prod_id p =? pid) (products db) = Some p ->
    let lots := filter (fun s => product_id s =? pid) (stock db) in
    q <= sum_Z (map Spec.available lots) ->
    let r := InventoryService.remove_stock now pid q ref_id ref_type nts
               mtype db in
    exists cands,
      Permutation cands (filter (fun s => 0 <? Spec.available s) lots)
      /\ StronglySorted Spec.fifo_before cands
      /\ Forall2
           (fun row row' =>
              Spec.consumed
                (Spec.taken (Spec.greedy_plan Spec.available q cands) row)
                row row')
           (stock db) (stock (fst r))
      /\ products (fst r) = products db
      /\ stock_movements (fst r) = stock_movements db
      /\ (0 < q -> snd r = Raise MovementTypeNotStorable)
      /\ (let ex := InventoryService.remove_stock Ex.now 1 8 None None None
                      SALE Ex.three_lots in
          map (fun s => (expiration_date s, current_quantity s))
            (stock (fst ex))
          = [(None, 20); (Some (ymd 2024 6 1), 7); (Some (ymd 2024 3 1), 0)])
      /\ (let ex := InventoryService.remove_stock Ex.now 1 8 None None None
                      SALE Ex.held_lots in
          map (fun s => (expiration_date s, current_quantity s,
                         reserved_quantity s))
            (stock (fst ex))
          = [(None, 18, 0); (Some (ymd 2024 6 1), 4, 4);
             (Some (ymd 2024 3 1), 5, 5)]).
Proof.
  intros now pid q ref_id ref_type nts mtype db p Hwf Hp lots Hq r.
  change (q <= total_available pid (stock db)) in Hq.
  pose proof (remove_stock_run now pid q ref_id ref_type nts mtype db p
                Hwf Hp Hq) as Hrun.
  cbv zeta in Hrun. fold r in Hrun.
  exists (InventoryService.fifo_candidates lots).
  split; [|split; [|split; [|split; [|split; [|split; [|split]]]]]].
  - unfold InventoryService.fifo_candidates.
    apply Permutation_sym. apply sort_by_key_perm.
  - apply sorted_weaken with (R := key_le InventoryService.expiration_key);
      [|apply sort_by_key_sorted].
    intros a b Ha Hb.
    assert (Hv : forall x, In x (InventoryService.fifo_candidates lots) ->
                           valid_stock_row x).
    { intros x Hx. apply fifo_candidates_In in Hx. destruct Hx as [Hx _].
      apply rows_of_product_In in Hx. destruct Hx as [Hx _].
      destruct Hwf as [_ Hall]. rewrite Forall_forall in Hall.
      apply Hall. exact Hx. }
    apply key_order_is_fifo; auto.
  - rewrite Hrun. cbn [fst stock with_stock]. unfold Spec.apply_plan.
    apply Forall2_map_self. intros row Hrow.
    change (Spec.greedy_plan Spec.available q
              (InventoryService.fifo_candidates lots))
      with (fifo_plan pid q (stock db)).
    pose proof (taken_nonneg (fifo_plan pid q (stock db)) row
                  (fifo_plan_nonneg pid q (stock db))) as Hn.
    destruct (Z.ltb_spec 0 (Spec.taken (fifo_plan pid q (stock db)) row))
      as [Hpos|Hle].
    + apply stored_removed_consumed. exact Hpos.
    + replace (Spec.taken (fifo_plan pid q (stock db)) row) with 0 by lia.
      apply untouched_consumed.
  - rewrite Hrun. reflexivity.
  - rewrite Hrun. reflexivity.
  - intro Hpos. rewrite Hrun. cbn [snd].
    assert (Hpid : 0 < pid).
    { apply (positive_total_has_row pid (stock db)); [exact (proj2 Hwf)|lia]. }
    destruct (new_movement_ok None pid mtype (- q) ref_id ref_type nts
                (Some now) None Hpid) as (m & -> & _); [lia|].
    reflexivity.
  - vm_compute. reflexivity.
  - vm_compute. reflexivity.
Qed.

Lemma remove_stock_is_fifo_witness :
  exists cands,
    Permutation cands [Ex.lot_none; Ex.held_june]
    /\ StronglySorted Spec.fifo_before cands
    /\ Forall2
         (fun row row' =>
            Spec.consumed
              (Spec.taken (Spec.greedy_plan Spec.available 8 cands) row)
              row row')
         (stock Ex.held_lots)
         (stock (fst (InventoryService.remove_stock Ex.now 1 8 None None
                        None SALE Ex.held_lots))).
Proof.
  destruct (remove_stock_is_fifo Ex.now 1 8 None None None SALE Ex.held_lots
              Ex.product_1 held_lots_wf eq_refl)
    as (cands & Hperm & Hsorted & Hrows & _).
  - vm_compute. discriminate.
  - exists cands. split; [exact Hperm|]. split; [exact Hsorted|exact Hrows].
Defined.

(** C4, where a consume has what it asks for.  On a well-formed stock
    table and for a product that exists, a consume ([remove_stock]) or a
    reserve of more than the product has available raises
    InsufficientStock with the available and the requested quantity and
    leaves the database as it was, and a reserve of a quantity the
    product has available completes and distributes all of it.  A
    consume of a positive quantity that the product has available does
    not complete: it takes the whole quantity from the lots, stores each
    lot it has changed, and then raises the exception of [save_movement];
    the lots stay changed and no movement is recorded. *)
Theorem consume_fails_after_changing_lots :
  forall now pid q ref_id ref_type nts mtype db p,
    wf_stock (stock db) ->
    find (fun p => prod_id p =? pid) (products db) = Some p ->
    let lots (d : InventoryDb) :=
      filter (fun s => product_id s =? pid) (stock d) in
    let available := sum_Z (map Spec.available (lots db)) in
    (available < q ->
     InventoryService.remove_stock now pid q ref_id ref_type nts mtype db
     = (db, Raise (InsufficientStock available q))
     /\ InventoryService.reserve_stock pid q db
        = (db, Raise (InsufficientStockToReserve available q)))
    /\ (0 <= q <= available ->
        exists db' affected,
          InventoryService.reserve_stock pid q db = (db', Ok affected)
          /\ sum_Z (map reserved_quantity (lots db'))
             = sum_Z (map reserved_quantity (lots db)) + q
          /\ sum_Z (map current_quantity (lots db'))
             = sum_Z (map current_quantity (lots db))
          /\ sum_Z (map Spec.available (lots db')) = available - q)
    /\ (0 < q <= available ->
        let r := InventoryService.remove_stock now pid q ref_id ref_type
                   nts mtype db in
        snd r = Raise MovementTypeNotStorable
        /\ sum_Z (map current_quantity (lots (fst r)))
           = sum_Z (map current_quantity (lots db)) - q
        /\ sum_Z (map reserved_quantity (lots (fst r)))
           = sum_Z (map reserved_quantity (lots db))
        /\ sum_Z (map Spec.available (lots (fst r))) = available - q
        /\ stock (fst r) <> stock db
        /\ stock_movements (fst r) = stock_movements db).
Proof.
  intros now pid q ref_id ref_type nts mtype db p Hwf Hp lots available.
  change available with (total_available pid (stock db)).
  split; [|split].
  - intro Hlt. apply Z.ltb_lt in Hlt. split.
    + unfold InventoryService.remove_stock.
      unfold bind at 1. unfold ProductRepository.find_by_id. rewrite Hp.
      cbn [option_map]. unfold bind at 1.
      unfold StockRepository.get_available_stock_by_product.
      fold (total_available pid (stock db)).
      unfold bind at 1. rewrite Hlt. reflexivity.
    + unfold InventoryService.reserve_stock.
      unfold bind at 1.
      unfold StockRepository.get_available_stock_by_product.
      fold (total_available pid (stock db)).
      unfold bind at 1. rewrite Hlt. reflexivity.
  - intros Hq.
    rewrite (reserve_stock_run _ _ _ Hwf (proj2 Hq)).
    eexists. eexists. split; [reflexivity|]. unfold lots. cbn [stock with_stock].
    change (filter (fun s => product_id s =? pid))
      with (StockRepository.rows_of_product pid).
    change (map Spec.available) with (map StockEntity.available_quantity).
    unfold total_available.
    split; [|split].
    + rewrite (total_after_plan reserved_quantity 1 _ pid q _ Hwf Hq);
        [lia|intros r t; lot_fields|reflexivity].
    + rewrite (total_after_plan current_quantity 0 _ pid q _ Hwf Hq);
        [lia|intros r t; lot_fields|reflexivity].
    + rewrite (total_after_plan StockEntity.available_quantity (-1) _ pid q
                 _ Hwf Hq);
        [lia|intros r t; lot_fields|reflexivity].
  - intros [Hpos Hle] r.
    assert (Hq : 0 <= q <= total_available pid (stock db)) by lia.
    assert (Hpid : 0 < pid).
    { apply (positive_total_has_row pid (stock db)); [exact (proj2 Hwf)|lia]. }
    pose proof (remove_stock_run now pid q ref_id ref_type nts mtype db p
                  Hwf Hp Hle) as Hrun.
    cbv zeta in Hrun. fold r in Hrun.
    destruct (new_movement_ok None pid mtype (- q) ref_id ref_type nts
                (Some now) None Hpid) as (m & Hm & _); [lia|].
    rewrite Hm in Hrun.
    assert (Hcur : sum_Z (map current_quantity (lots (fst r)))
                   = sum_Z (map current_quantity (lots db)) - q).
    { rewrite Hrun. unfold lots. cbn [fst stock with_stock].
      change (filter (fun s => product_id s =? pid))
        with (StockRepository.rows_of_product pid).
      rewrite (total_after_plan current_quantity (-1) _ pid q _ Hwf Hq);
        [lia|intros x t; lot_fields|reflexivity]. }
    split; [rewrite Hrun; reflexivity|].
    split; [exact Hcur|]. split; [|split; [|split]].
    + rewrite Hrun. unfold lots. cbn [fst stock with_stock].
      change (filter (fun s => product_id s =? pid))
        with (StockRepository.rows_of_product pid).
      rewrite (total_after_plan reserved_quantity 0 _ pid q _ Hwf Hq);
        [lia|intros x t; lot_fields|reflexivity].
    + rewrite Hrun. unfold lots. cbn [fst stock with_stock].
      change (filter (fun s => product_id s =? pid))
        with (StockRepository.rows_of_product pid).
      change (map Spec.available) with (map StockEntity.available_quantity).
      unfold total_available.
      rewrite (total_after_plan StockEntity.available_quantity (-1) _ pid q
                 _ Hwf Hq);
        [lia|intros x t; lot_fields|reflexivity].
    + intro E. unfold lots in Hcur. rewrite E in Hcur. lia.
    + rewrite Hrun. reflexivity.
Qed.

Lemma consume_fails_after_changing_lots_witness :
  let r := InventoryService.remove_stock Ex.now 1 8 None None None SALE
             Ex.three_lots in
  snd r = Raise MovementTypeNotStorable
  /\ stock (fst r) <> stock Ex.three_lots
  /\ stock_movements (fst r) = stock_movements Ex.three_lots.
Proof.
  destruct (consume_fails_after_changing_lots Ex.now 1 8 None None None SALE
              Ex.three_lots Ex.product_1 three_lots_wf eq_refl)
    as (_ & _ & H).
  destruct H as (Hr & _ & _ & _ & Hs & Hm).
  - vm_compute. split; [reflexivity|discriminate].
  - split; [exact Hr|]. split; [exact Hs|exact Hm].
Defined.

Abbreviation keeps_same :=
  (keeps (fun db db' : InventoryDb => stock_movements db' = stock_movements db)).

Lemma keeps_same_bind {A B} (Q : A -> Prop) (Q' : B -> Prop)
    (c : M InventoryDb A) (k : A -> M InventoryDb B) :
  keeps_same Q c -> (forall a, Q a -> keeps_same Q' (k a)) ->
  keeps_same Q' (bind c k).
Proof. apply keeps_bind. intros a b c0 H1 H2. congruence. Qed.

Lemma keeps_same_pure {A} (f : InventoryDb -> result A) :
  keeps_same (fun _ => True) (fun db => (db, f db)).
Proof. apply keeps_pure; [reflexivity|auto]. Qed.

Lemma keeps_same_save_movement (m : StockMovement) :
  keeps_same (fun _ => False) (StockRepository.save_movement m).
Proof.
  intro db. rewrite save_movement_raises. split; [reflexivity|discriminate].
Qed.


(** C9, at a release of more than is reserved. The product has 4 units
    reserved; [release_reservation] of 8 raises nothing, releases the 4
    and returns the lot it changed. *)
Theorem release_reservation_accepts_over_release :
  let r := InventoryService.release_reservation 1 8 Ex.one_lot in
  total_reserved 1 (stock Ex.one_lot) = 4
  /\ snd r = Ok [released Ex.lot_reserved 4]
  /\ map reserved_quantity (stock (fst r)) = [0].
Proof. repeat split; vm_compute; reflexivity. Qed.

(** * Appointments: availability *)

Lemma blocks_slot_active (s : AppointmentStatus) :
  blocks_slot s = true <-> Spec.active s.
Proof.
  unfold Spec.active. destruct s; simpl; split; intro H;
    try reflexivity; try discriminate; auto;
    destruct H as [H|[H|H]]; discriminate.
Qed.

(** C5. [check_availability] answers no question: for every window, every
    practitioner and every table it raises, while it builds the filter of
    its query, and leaves the database as it was.  With one confirmed
    appointment from 10:00 to 10:30, where the answers are to be false for
    [10:15, 10:45), true for [10:30, 11:00) and true for [09:30, 10:00),
    the three calls raise; for [10:30, 11:00) no appointment satisfies
    start < apptEnd and end > apptStart, and the check does not return
    true. *)
Theorem check_availability_always_raises :
  (forall start_time end_time vet db,
      AppointmentRepository.check_availability start_time end_time vet db
      = (db, Raise AvailabilityQueryError))
  /\ AppointmentRepository.check_availability
       (Ex.at_time 10 15) (Ex.at_time 10 45) 7 Ex.clinic
     = (Ex.clinic, Raise AvailabilityQueryError)
  /\ AppointmentRepository.check_availability
       (Ex.at_time 10 30) (Ex.at_time 11 0) 7 Ex.clinic
     = (Ex.clinic, Raise AvailabilityQueryError)
  /\ AppointmentRepository.check_availability
       (Ex.at_time 9 30) (Ex.at_time 10 0) 7 Ex.clinic
     = (Ex.clinic, Raise AvailabilityQueryError)
  /\ ~ (exists a, In a (appointments Ex.clinic)
                  /\ veterinarian_id a = Some 7
                  /\ Spec.active (status a)
                  /\ Spec.overlap (Ex.at_time 10 30) (Ex.at_time 11 0)
                       (appointment_date a)
                       (appointment_date a
                        + duration_minutes a * usec_per_minute))
  /\ snd (AppointmentRepository.check_availability
            (Ex.at_time 10 30) (Ex.at_time 11 0) 7 Ex.clinic) <> Ok true.
Proof.
  split; [reflexivity|]. split; [reflexivity|]. split; [reflexivity|].
  split; [reflexivity|]. split.
  - intros (a & [<-|[]] & _ & _ & Ho). destruct Ho as [Ho _].
    vm_compute in Ho. discriminate.
  - vm_compute. discriminate.
Qed.

(** C1, at a request that conflicts.  Veterinarian 7 has a confirmed
    appointment from 10:00 to 10:30, which the window [10:15, 10:45)
    overlaps.  [schedule_appointment] for that window calls no
    availability check: it succeeds, and the conflicting appointment is
    stored after the one that was there. *)
Theorem schedule_appointment_accepts_conflict :
  let r := AppointmentService.schedule_appointment Ex.now Ex.request
             Ex.clinic in
  (appointments Ex.clinic = [Ex.booked]
   /\ veterinarian_id Ex.booked = Some 7
   /\ Spec.active (status Ex.booked)
   /\ Spec.overlap (Ex.at_time 10 15) (Ex.at_time 10 45)
        (appointment_date Ex.booked)
        (appointment_date Ex.booked
         + duration_minutes Ex.booked * usec_per_minute))
  /\ exists a row,
       snd r = Ok a
       /\ appointments (fst r) = Ex.booked :: [row]
       /\ row = AppointmentRepository._entity_to_model Ex.clock 2 a
       /\ apt_id a = Some 2
       /\ veterinarian_id a = Some 7
       /\ status a = SCHEDULED
       /\ appointment_date a = Ex.at_time 10 15
       /\ appointment_date a + duration_minutes a * usec_per_minute
          = Ex.at_time 10 45
       /\ AppointmentEntity.end_time a = Ex.at_time 10 45.
Proof.
  split.
  - split; [reflexivity|]. split; [reflexivity|].
    split; [right; left; reflexivity|].
    split; vm_compute; reflexivity.
  - eexists. eexists. split; [vm_compute; reflexivity|].
    repeat split; vm_compute; reflexivity.
Qed.

(** * Appointments: free slots *)

Lemma step_pos : 0 < AppointmentService.step.
Proof. reflexivity. Qed.

Lemma turns_lt (d end_time cur : Z) (k : nat) :
  (k < AppointmentService.turns d end_time cur)%nat
  <-> cur + Z.of_nat k * AppointmentService.step + d <= end_time.
Proof.
  unfold AppointmentService.turns. pose proof step_pos as Hs.
  set (x := end_time - (cur + d)).
  pose proof (Z.div_mod x AppointmentService.step ltac:(lia)) as Hdm.
  pose proof (Z.mod_pos_bound x AppointmentService.step Hs) as Hm.
  set (qd := x / AppointmentService.step) in *.
  set (rm := x mod AppointmentService.step) in *.
  split; intro H.
  - assert (Z.of_nat k < qd + 1) by lia. nia.
  - assert (Z.of_nat k <= qd) by nia. lia.
Qed.

Lemma turns_stop (d end_time cur : Z) :
  end_time < cur + d -> AppointmentService.turns d end_time cur = O.
Proof.
  intro H. destruct (AppointmentService.turns d end_time cur) eqn:E;
    [reflexivity|].
  assert (Hk : (0 < AppointmentService.turns d end_time cur)%nat) by lia.
  apply turns_lt in Hk. simpl in Hk. lia.
Qed.

Lemma turns_step (d end_time cur : Z) :
  cur + d <= end_time ->
  AppointmentService.turns d end_time cur
  = S (AppointmentService.turns d end_time (cur + AppointmentService.step)).
Proof.
  intro H. unfold AppointmentService.turns. pose proof step_pos as Hs.
  replace (end_time - (cur + AppointmentService.step + d))
    with (end_time - (cur + d) + (-1) * AppointmentService.step) by lia.
  rewrite Z.div_add by lia.
  assert (0 <= (end_time - (cur + d)) / AppointmentService.step)
    by (apply Z.div_pos; lia).
  lia.
Qed.

Lemma candidates_stop (d end_time cur : Z) :
  end_time < cur + d -> candidates d end_time cur = [].
Proof. intro H. unfold candidates. rewrite turns_stop by exact H. reflexivity. Qed.

Lemma candidates_step (d end_time cur : Z) :
  cur + d <= end_time ->
  candidates d end_time cur
  = AppointmentService.mkSlot cur (cur + d)
    :: candidates d end_time (cur + AppointmentService.step).
Proof.
  intro H. unfold candidates. rewrite (turns_step _ _ _ H).
  rewrite <- cons_seq, <- seq_shift, map_cons, map_map. f_equal.
  - f_equal; simpl; lia.
  - apply map_ext. intro k. f_equal; lia.
Qed.

(** The loop returns, in order, the candidates that are free. *)
Lemma slots_loop_spec (existing : list Appointment) (d end_time : Z) :
  forall (fuel : nat) (cur : Z) (acc : list AppointmentService.Slot),
    (AppointmentService.turns d end_time cur <= fuel)%nat ->
    AppointmentService.slots_loop fuel existing d end_time cur acc
    = Some (acc ++ filter (free existing) (candidates d end_time cur)).
Proof.
  induction fuel as [|fuel IH]; intros cur acc Hf.
  - simpl. destruct (Z.leb_spec (cur + d) end_time) as [Hle|Hgt].
    + rewrite (turns_step _ _ _ Hle) in Hf. lia.
    + rewrite candidates_stop by exact Hgt. simpl. rewrite app_nil_r.
      reflexivity.
  - simpl. destruct (Z.leb_spec (cur + d) end_time) as [Hle|Hgt].
    + rewrite IH by (rewrite (turns_step _ _ _ Hle) in Hf; lia).
      rewrite (candidates_step _ _ _ Hle). simpl filter.
      unfold free at 2. simpl.
      destruct (existsb _ existing); simpl.
      * reflexivity.
      * rewrite <- app_assoc. reflexivity.
    + rewrite candidates_stop by exact Hgt. simpl. rewrite app_nil_r.
      reflexivity.
Qed.

Lemma candidates_In (d end_time cur : Z) (w : AppointmentService.Slot) :
  In w (candidates d end_time cur)
  <-> exists k, 0 <= k
                /\ AppointmentService.start_time w
                   = cur + k * AppointmentService.step
                /\ AppointmentService.slot_end_time w
                   = AppointmentService.start_time w + d
                /\ AppointmentService.slot_end_time w <= end_time.
Proof.
  unfold candidates. rewrite in_map_iff. split.
  - intros (k & <- & Hk). apply in_seq in Hk. simpl in *.
    exists (Z.of_nat k). split; [lia|]. split; [reflexivity|].
    split; [reflexivity|]. apply turns_lt. lia.
  - intros (k & Hk & Hs & He & Hend). exists (Z.to_nat k).
    rewrite Z2Nat.id by exact Hk. split.
    + destruct w as [s e]. simpl in *. subst. reflexivity.
    + apply in_seq. split; [lia|]. simpl. apply turns_lt.
      rewrite Z2Nat.id by exact Hk. lia.
Qed.

Lemma sorted_map_seq {A} (R : A -> A -> Prop) (f : nat -> A) :
  (forall i j, (i < j)%nat -> R (f i) (f j)) ->
  forall n a, StronglySorted R (map f (seq a n)).
Proof.
  intros HR. induction n as [|n IH]; intro a; simpl; constructor.
  - apply IH.
  - rewrite Forall_map, Forall_forall. intros j Hj. apply in_seq in Hj.
    apply HR. lia.
Qed.

Lemma sorted_filter {A} (R : A -> A -> Prop) (p : A -> bool) (l : list A) :
  StronglySorted R l -> StronglySorted R (filter p l).
Proof.
  induction 1 as [|x l Hs IH Hall]; simpl; [constructor|].
  destruct (p x); [|exact IH]. constructor; [exact IH|].
  rewrite Forall_forall in *. intros y Hy. apply filter_In in Hy.
  apply Hall. tauto.
Qed.

Lemma candidates_sorted (d end_time cur : Z) :
  StronglySorted earlier (candidates d end_time cur).
Proof.
  unfold candidates. apply sorted_map_seq. intros i j Hij.
  unfold earlier. simpl. pose proof step_pos. nia.
Qed.

Lemma valid_appointment_post_init (a : Appointment) :
  0 < duration_minutes a -> AppointmentEntity.post_init a = Ok a.
Proof.
  intro H. unfold AppointmentEntity.post_init.
  destruct (Z.leb_spec (duration_minutes a) 0); [lia|reflexivity].
Qed.

Lemma find_by_date_valid (d : date) (db : ClinicDb) :
  Forall (fun a => 0 < duration_minutes a) (appointments db) ->
  AppointmentRepository.find_by_date d db
  = (db, Ok (sort_by_key appointment_date
               (filter (AppointmentRepository.on_date d) (appointments db)))).
Proof.
  intro H. unfold AppointmentRepository.find_by_date. f_equal.
  apply mapM_id. rewrite Forall_forall in *. intros a Ha.
  apply valid_appointment_post_init, H.
  apply sort_by_key_In, filter_In in Ha. tauto.
Qed.

Lemma overlaps_iff (s e : Z) (a : Appointment) :
  AppointmentService.overlaps s e a = true
  <-> Spec.overlap s e (appointment_date a) (AppointmentEntity.end_time a).
Proof.
  unfold AppointmentService.overlaps, Spec.overlap.
  rewrite andb_true_iff, !Z.ltb_lt. lia.
Qed.

(** An appointment of at most 480 minutes that overlaps a window of the
    opening hours of a day begins on that day. *)
Lemma overlapping_is_on_date (d : date) (a : Appointment) (s e : Z) :
  duration_minutes a <= 480 ->
  datetime_combine d AppointmentService.start_hour 0 <= s ->
  e <= datetime_combine d AppointmentService.end_hour 0 ->
  Spec.overlap s e (appointment_date a) (AppointmentEntity.end_time a) ->
  AppointmentRepository.on_date d a = true.
Proof.
  intros Hd Hs He [Ho1 Ho2].
  unfold AppointmentRepository.on_date, day_first_instant, day_last_instant,
    AppointmentEntity.end_time, timedelta_minutes, datetime_combine,
    AppointmentService.start_hour, AppointmentService.end_hour,
    usec_per_day, usec_per_hour, usec_per_minute in *.
  rewrite andb_true_iff, !Z.leb_le. lia.
Qed.

Lemma filter_all {A} (p : A -> bool) (l : list A) :
  (forall x, In x l -> p x = true) -> filter p l = l.
Proof.
  induction l as [|x l IH]; intro H; simpl; [reflexivity|].
  rewrite (H x (or_introl eq_refl)), IH; [reflexivity|].
  intros y Hy. apply H. right. exact Hy.
Qed.

(** The appointments [get_availability_slots] compares a window with. *)
Lemma existing_In (d : date) (vet : Z) (db : ClinicDb) (a : Appointment) :
  In a (filter (fun apt => option_eqb Z.eqb (veterinarian_id apt) (Some vet)
                           && blocks_slot (status apt))
          (sort_by_key appointment_date
             (filter (AppointmentRepository.on_date d) (appointments db))))
  <-> In a (appointments db) /\ AppointmentRepository.on_date d a = true
      /\ veterinarian_id a = Some vet /\ Spec.active (status a).
Proof.
  rewrite filter_In, sort_by_key_In, filter_In, andb_true_iff,
    option_eqb_Z_eq, blocks_slot_active. tauto.
Qed.

Lemma turns_of_a_day (d : date) :
  AppointmentService.turns (timedelta_minutes 30)
    (datetime_combine d AppointmentService.end_hour 0)
    (datetime_combine d AppointmentService.start_hour 0) = 20%nat.
Proof.
  unfold AppointmentService.turns.
  replace (datetime_combine d AppointmentService.end_hour 0
           - (datetime_combine d AppointmentService.start_hour 0
              + timedelta_minutes 30))
    with 34200000000.
  - reflexivity.
  - unfold datetime_combine, timedelta_minutes, AppointmentService.end_hour,
      AppointmentService.start_hour, usec_per_day, usec_per_hour,
      usec_per_minute. lia.
Qed.

(** The windows [get_availability_slots] returns when every stored
    appointment has a duration from 1 to 480 minutes. *)
Lemma slots_of_a_day :
  forall db date_target vet duration,
    Forall valid_appointment (appointments db) ->
    let day_start := datetime_combine date_target AppointmentService.start_hour 0 in
    let day_end := datetime_combine date_target AppointmentService.end_hour 0 in
    exists slots,
      AppointmentService.get_availability_slots date_target vet duration db
      = (db, Ok slots)
      /\ (forall w,
             In w slots <->
             (exists k, 0 <= k
                        /\ AppointmentService.start_time w
                           = day_start + k * timedelta_minutes 30
                        /\ AppointmentService.slot_end_time w
                           = AppointmentService.start_time w
                             + timedelta_minutes duration
                        /\ AppointmentService.slot_end_time w <= day_end)
             /\ ~ (exists a,
                      In a (appointments db)
                      /\ veterinarian_id a = Some vet
                      /\ Spec.active (status a)
                      /\ Spec.overlap (AppointmentService.start_time w)
                           (AppointmentService.slot_end_time w)
                           (appointment_date a)
                           (AppointmentEntity.end_time a)))
      /\ StronglySorted earlier slots
      /\ (forall w, In w slots ->
                    AppointmentService.slot_end_time w <= day_end)
      /\ (duration = 30 ->
          (forall a, In a (appointments db) ->
                     veterinarian_id a = Some vet ->
                     ~ Spec.active (status a)) ->
          List.length slots = 20%nat).
Proof.
  intros db date_target vet duration Hv day_start day_end.
  assert (Hpos : Forall (fun a => 0 < duration_minutes a) (appointments db)).
  { eapply Forall_impl; [|exact Hv]. intros a [H _]. exact H. }
  unfold AppointmentService.get_availability_slots.
  unfold bind. rewrite (find_by_date_valid _ _ Hpos).
  rewrite slots_loop_spec by apply le_n.
  fold day_start. fold day_end.
  set (existing := filter _ (sort_by_key _ _)).
  eexists. split; [reflexivity|].
  assert (Hin : forall w,
             In w (filter (free existing)
                     (candidates (timedelta_minutes duration) day_end day_start))
             <-> (exists k, 0 <= k
                        /\ AppointmentService.start_time w
                           = day_start + k * timedelta_minutes 30
                        /\ AppointmentService.slot_end_time w
                           = AppointmentService.start_time w
                             + timedelta_minutes duration
                        /\ AppointmentService.slot_end_time w <= day_end)
                 /\ ~ (exists a,
                          In a (appointments db)
                          /\ veterinarian_id a = Some vet
                          /\ Spec.active (status a)
                          /\ Spec.overlap (AppointmentService.start_time w)
                               (AppointmentService.slot_end_time w)
                               (appointment_date a)
                               (AppointmentEntity.end_time a))).
  { intro w. rewrite filter_In, candidates_In.
    fold AppointmentService.step.
    split; intros [Hc Hf]; (split; [exact Hc|]).
    - intros (a & Ha & Hvet & Hact & Hov).
      unfold free in Hf. apply negb_true_iff in Hf.
      assert (Hex : existsb (AppointmentService.overlaps
                               (AppointmentService.start_time w)
                               (AppointmentService.slot_end_time w))
                      existing = true); [|congruence].
      apply existsb_exists. exists a. split; [|apply overlaps_iff; exact Hov].
      apply existing_In. split; [exact Ha|]. split; [|tauto].
      destruct Hc as (k & Hk & Hs & _ & He).
      rewrite Forall_forall in Hv. destruct (Hv a Ha) as [_ Hmax].
      apply (overlapping_is_on_date date_target a
               (AppointmentService.start_time w)
               (AppointmentService.slot_end_time w) Hmax); [| |exact Hov].
      + fold day_start. pose proof step_pos.
        unfold AppointmentService.step in *. nia.
      + exact He.
    - unfold free. apply negb_true_iff.
      destruct (existsb _ existing) eqn:Hex; [|reflexivity].
      exfalso. apply Hf. apply existsb_exists in Hex.
      destruct Hex as (a & Ha & Hov). apply existing_In in Ha.
      apply overlaps_iff in Hov. exists a. tauto. }
  split; [exact Hin|]. split; [|split].
  - apply sorted_filter, candidates_sorted.
  - intros w Hw. apply Hin in Hw. destruct Hw as [(k & _ & _ & _ & He) _].
    exact He.
  - intros -> Hnone. rewrite filter_all.
    + simpl app. unfold candidates. rewrite length_map, length_seq.
      apply turns_of_a_day.
    + intros w _. unfold free. apply negb_true_iff.
      destruct (existsb _ existing) eqn:Hex; [|reflexivity].
      exfalso. apply existsb_exists in Hex.
      destruct Hex as (a & Ha & _). apply existing_In in Ha.
      apply (Hnone a); tauto.
Qed.

Lemma clinic_valid : Forall valid_appointment (appointments Ex.busy_clinic).
Proof. repeat constructor; vm_compute; discriminate. Qed.

(** C6, at a day that begins during an appointment.  The operation of
    veterinarian 7 begins at 23:00 on the day before, is confirmed and
    lasts 480 minutes; [update_appointment] sets its duration to 600
    minutes, so that it ends at 09:00.  [get_availability_slots] for the
    day compares the candidate windows with the appointments that begin
    on that day only: it returns all 20 windows, the window from 08:00 to
    08:30 among them, which the operation overlaps. *)
Theorem free_slots_overlap_appointment_begun_the_day_before :
  let r := AppointmentService.update_appointment Ex.now 1 Ex.prolong
             Ex.night_clinic in
  let db := fst r in
  let w := AppointmentService.mkSlot (Ex.at_time 8 0) (Ex.at_time 8 30) in
  appointments Ex.night_clinic = [Ex.overnight]
  /\ valid_appointment Ex.overnight
  /\ (exists a, snd r = Ok a /\ duration_minutes a = 600)
  /\ (exists a,
         appointments db = [a]
         /\ veterinarian_id a = Some 7
         /\ status a = CONFIRMED
         /\ appointment_date a = datetime_combine (Ex.day - 1) 23 0
         /\ appointment_date a + duration_minutes a * usec_per_minute
            = Ex.at_time 9 0
         /\ Spec.overlap (AppointmentService.start_time w)
              (AppointmentService.slot_end_time w)
              (appointment_date a)
              (appointment_date a + duration_minutes a * usec_per_minute))
  /\ exists slots,
       AppointmentService.get_availability_slots Ex.day 7 30 db
       = (db, Ok slots)
       /\ In w slots
       /\ List.length slots = 20%nat.
Proof.
  cbv zeta. split; [reflexivity|].
  split; [unfold valid_appointment; simpl; lia|].
  split; [eexists; split; vm_compute; reflexivity|]. split.
  - eexists. split; [vm_compute; reflexivity|].
    split; [reflexivity|]. split; [reflexivity|].
    split; [vm_compute; reflexivity|]. split; [vm_compute; reflexivity|].
    split; vm_compute; reflexivity.
  - eexists. split; [vm_compute; reflexivity|].
    split; [left; vm_compute; reflexivity|reflexivity].
Qed.

(** * Appointments: the status transitions *)

Lemma apt_has_id_iff (i : Z) (a : Appointment) :
  AppointmentRepository.has_id i a = true <-> apt_id a = Some i.
Proof. unfold AppointmentRepository.has_id. apply option_eqb_Z_eq. Qed.

Lemma find_by_id_inv (i : Z) (db db' : ClinicDb) (a : Appointment) :
  AppointmentRepository.find_by_id i db = (db', Ok (Some a)) ->
  db' = db /\ find (AppointmentRepository.has_id i) (appointments db) = Some a
  /\ apt_id a = Some i /\ 0 < duration_minutes a.
Proof.
  unfold AppointmentRepository.find_by_id.
  destruct (find _ (appointments db)) as [r|] eqn:Hf; [|discriminate].
  unfold AppointmentEntity.post_init.
  destruct (Z.leb_spec (duration_minutes r) 0); [discriminate|].
  intro E. injection E as <- <-.
  apply find_some in Hf as Hf'. destruct Hf' as [_ Hid].
  apply apt_has_id_iff in Hid. auto.
Qed.

Lemma find_by_id_found (i : Z) (db : ClinicDb) (a : Appointment) :
  find (AppointmentRepository.has_id i) (appointments db) = Some a ->
  0 < duration_minutes a ->
  AppointmentRepository.find_by_id i db = (db, Ok (Some a)).
Proof.
  intros Hf Hd. unfold AppointmentRepository.find_by_id. rewrite Hf.
  rewrite valid_appointment_post_init by exact Hd. reflexivity.
Qed.

(** Writing an entity back: the row found by its id takes the fields of
    the entity, and is the row found by that id afterwards. *)
Lemma update_row_found (i : Z) (e r : Appointment) (rows : list Appointment) :
  find (AppointmentRepository.has_id i) rows = Some r ->
  exists rows',
    AppointmentRepository.update_row i e rows = Some rows'
    /\ find (AppointmentRepository.has_id i) rows'
       = Some (AppointmentRepository.update_model_from_entity r e).
Proof.
  induction rows as [|x rows IH]; simpl; [discriminate|].
  destruct (AppointmentRepository.has_id i x) eqn:Hx.
  - intro E. injection E as ->. eexists. split; [reflexivity|].
    simpl. unfold AppointmentRepository.has_id in *. simpl. rewrite Hx.
    reflexivity.
  - intro Hf. destruct (IH Hf) as (rows' & -> & Hf').
    eexists. split; [reflexivity|]. simpl. rewrite Hx. exact Hf'.
Qed.

Lemma update_after_find (i : Z) (db : ClinicDb) (a e : Appointment) :
  AppointmentRepository.find_by_id i db = (db, Ok (Some a)) ->
  i <> 0 -> apt_id e = Some i -> duration_minutes e = duration_minutes a ->
  exists db',
    AppointmentRepository.update e db = (db', Ok e)
    /\ AppointmentRepository.find_by_id i db'
       = (db', Ok (Some (AppointmentRepository.update_model_from_entity a e))).
Proof.
  intros Hf Hi He Hd. apply find_by_id_inv in Hf.
  destruct Hf as (_ & Hf & Ha & Hpos).
  destruct (update_row_found i e a (appointments db) Hf) as (rows' & Hu & Hf').
  exists (with_appointments db rows'). split.
  - unfold AppointmentRepository.update. rewrite He.
    destruct i; [contradiction| |];
      unfold AppointmentRepository.save; rewrite He, Hu; reflexivity.
  - apply find_by_id_found; [exact Hf'|]. simpl. lia.
Qed.

(** C7, at a modification of fields.  Appointment 3 is completed, a
    status from which [can_be_modified] answers no.  [update_appointment]
    checks no status: with a new duration and new notes for appointment 3
    it raises nothing, returns the appointment with the fields changed
    and stores it, so that [find_by_id] reads the changed appointment
    back. *)
Theorem completed_appointment_is_modified :
  let r := AppointmentService.update_appointment Ex.now 3 Ex.edit
             Ex.busy_clinic in
  AppointmentRepository.find_by_id 3 Ex.busy_clinic
  = (Ex.busy_clinic, Ok (Some Ex.finished))
  /\ status Ex.finished = COMPLETED
  /\ ~ Spec.active (status Ex.finished)
  /\ AppointmentEntity.can_be_modified Ex.finished = false
  /\ duration_minutes Ex.finished = 30 /\ notes Ex.finished = None
  /\ (exists a, snd r = Ok a /\ status a = COMPLETED
                /\ duration_minutes a = 45 /\ notes a = Some "edited"%string)
  /\ (exists row,
         AppointmentRepository.find_by_id 3 (fst r) = (fst r, Ok (Some row))
         /\ status row = COMPLETED /\ duration_minutes row = 45
         /\ notes row = Some "edited"%string)
  /\ appointments (fst r) <> appointments Ex.busy_clinic.
Proof.
  split; [vm_compute; reflexivity|]. split; [reflexivity|].
  split; [intros [H|[H|H]]; discriminate|].
  split; [reflexivity|]. split; [reflexivity|]. split; [reflexivity|].
  split; [|split].
  - eexists. split; [vm_compute; reflexivity|]. repeat split.
  - eexists. split; [vm_compute; reflexivity|]. repeat split.
  - vm_compute. discriminate.
Qed.

(** X23. The four status transitions validate the status they start
    from.  For an appointment that is stored: confirm requires the status
    scheduled, start requires confirmed, complete requires in_progress and
    cancel requires a status among scheduled, confirmed and in_progress;
    attempted from another status each of them raises an
    invalid-state-transition error and leaves the database as it was.  On
    a scheduled appointment complete fails, while confirm, then start, then
    complete succeed and leave the status completed. *)
Theorem transitions_are_validated :
  forall now i db (a : Appointment),
    AppointmentRepository.find_by_id i db = (db, Ok (Some a)) ->
    (status a <> SCHEDULED ->
     AppointmentService.confirm_appointment now i db
     = (db, Raise OnlyScheduledCanBeConfirmed))
    /\ (status a <> CONFIRMED ->
        AppointmentService.start_appointment now i db
        = (db, Raise OnlyConfirmedCanBeStarted))
    /\ (forall nts, status a <> IN_PROGRESS ->
        AppointmentService.complete_appointment now i nts db
        = (db, Raise OnlyInProgressCanBeCompleted))
    /\ (forall why, ~ Spec.active (status a) ->
        AppointmentService.cancel_appointment now i why db
        = (db, Raise AppointmentCannotBeCancelled))
    /\ Spec.invalid_state_transition OnlyScheduledCanBeConfirmed
    /\ Spec.invalid_state_transition OnlyConfirmedCanBeStarted
    /\ Spec.invalid_state_transition OnlyInProgressCanBeCompleted
    /\ Spec.invalid_state_transition AppointmentCannotBeCancelled
    /\ (status a = SCHEDULED -> i <> 0 ->
        forall now2 now3 nts,
        exists db1 a1 db2 a2 db3 a3 stored,
          AppointmentService.confirm_appointment now i db = (db1, Ok a1)
          /\ status a1 = CONFIRMED
          /\ AppointmentService.start_appointment now2 i db1 = (db2, Ok a2)
          /\ status a2 = IN_PROGRESS
          /\ AppointmentService.complete_appointment now3 i nts db2
             = (db3, Ok a3)
          /\ status a3 = COMPLETED
          /\ AppointmentRepository.find_by_id i db3 = (db3, Ok (Some stored))
          /\ status stored = COMPLETED).
Proof.
  intros now i db a Hf.
  split; [|split; [|split; [|split; [|split; [|split; [|split; [|split]]]]]]].
  - intro Hs. unfold AppointmentService.confirm_appointment.
    rewrite (bind_ok _ _ _ _ _ Hf).
    destruct (status a) eqn:E; try contradiction; reflexivity.
  - intro Hs. unfold AppointmentService.start_appointment.
    rewrite (bind_ok _ _ _ _ _ Hf).
    destruct (status a) eqn:E; try contradiction; reflexivity.
  - intros nts Hs. unfold AppointmentService.complete_appointment.
    rewrite (bind_ok _ _ _ _ _ Hf).
    destruct (status a) eqn:E; try contradiction; reflexivity.
  - intros why Hs. unfold AppointmentService.cancel_appointment.
    rewrite (bind_ok _ _ _ _ _ Hf).
    unfold AppointmentEntity.can_be_modified.
    destruct (blocks_slot (status a)) eqn:E.
    + apply blocks_slot_active in E. contradiction.
    + reflexivity.
  - unfold Spec.invalid_state_transition. auto.
  - unfold Spec.invalid_state_transition. auto.
  - unfold Spec.invalid_state_transition. auto.
  - unfold Spec.invalid_state_transition. auto.
  - intros Hs Hi now2 now3 nts.
    destruct (update_after_find i db a
                (AppointmentService.touch a CONFIRMED now) Hf Hi)
      as (db1 & Hu1 & Hf1);
      [apply find_by_id_inv in Hf; simpl; tauto|reflexivity|].
    set (a1 := AppointmentRepository.update_model_from_entity a
                 (AppointmentService.touch a CONFIRMED now)) in *.
    destruct (update_after_find i db1 a1
                (AppointmentService.touch a1 IN_PROGRESS now2) Hf1 Hi)
      as (db2 & Hu2 & Hf2);
      [apply find_by_id_inv in Hf; simpl; tauto|reflexivity|].
    set (a2 := AppointmentRepository.update_model_from_entity a1
                 (AppointmentService.touch a1 IN_PROGRESS now2)) in *.
    set (e3 := AppointmentEntity.with_state a2 COMPLETED
                 (if truthy nts then nts else notes a2) (Some now3)).
    destruct (update_after_find i db2 a2 e3 Hf2 Hi)
      as (db3 & Hu3 & Hf3);
      [apply find_by_id_inv in Hf; simpl; tauto|reflexivity|].
    exists db1, (AppointmentService.touch a CONFIRMED now),
      db2, (AppointmentService.touch a1 IN_PROGRESS now2),
      db3, e3, (AppointmentRepository.update_model_from_entity a2 e3).
    split; [|split; [reflexivity|split; [|split; [reflexivity|split;
      [|split; [reflexivity|split; [exact Hf3|reflexivity]]]]]]].
    + unfold AppointmentService.confirm_appointment.
      rewrite (bind_ok _ _ _ _ _ Hf). unfold bind. rewrite Hs. simpl.
      exact Hu1.
    + unfold AppointmentService.start_appointment.
      rewrite (bind_ok _ _ _ _ _ Hf1). unfold bind. simpl. exact Hu2.
    + unfold AppointmentService.complete_appointment.
      rewrite (bind_ok _ _ _ _ _ Hf2). unfold bind. simpl. exact Hu3.
Qed.

Lemma transitions_are_validated_witness :
  AppointmentService.complete_appointment Ex.now 2 None Ex.busy_clinic
  = (Ex.busy_clinic, Raise OnlyInProgressCanBeCompleted)
  /\ exists db1 a1 db2 a2 db3 a3 stored,
       AppointmentService.confirm_appointment Ex.now 2 Ex.busy_clinic
       = (db1, Ok a1)
       /\ AppointmentService.start_appointment Ex.now 2 db1 = (db2, Ok a2)
       /\ AppointmentService.complete_appointment Ex.now 2 None db2
          = (db3, Ok a3)
       /\ status a3 = COMPLETED
       /\ AppointmentRepository.find_by_id 2 db3 = (db3, Ok (Some stored))
       /\ status stored = COMPLETED.
Proof.
  destruct (transitions_are_validated Ex.now 2 Ex.busy_clinic Ex.pending)
    as (_ & _ & Hc & _ & _ & _ & _ & _ & Hchain).
  - vm_compute. reflexivity.
  - split.
    + apply Hc. discriminate.
    + destruct (Hchain eq_refl ltac:(discriminate) Ex.now Ex.now None)
        as (db1 & a1 & db2 & a2 & db3 & a3 & stored & E1 & _ & E2 & _ & E3
            & Hs3 & Hf & Hs).
      exists db1, a1, db2, a2, db3, a3, stored.
      split; [exact E1|]. split; [exact E2|]. split; [exact E3|].
      split; [exact Hs3|]. split; [exact Hf|exact Hs].
Defined.

(** * The lot invariant under the operations *)

Lemma lots_stay_valid_refl (db : InventoryDb) : lots_stay_valid db db.
Proof. intro H. exact H. Qed.

Lemma lots_stay_valid_trans (a b c : InventoryDb) :
  lots_stay_valid a b -> lots_stay_valid b c -> lots_stay_valid a c.
Proof. intros H1 H2 H. apply H2, H1, H. Qed.

Abbreviation keeps_valid := (keeps lots_stay_valid).

Lemma keeps_valid_bind {A B} (Q : A -> Prop) (Q' : B -> Prop)
    (c : M InventoryDb A) (k : A -> M InventoryDb B) :
  keeps_valid Q c -> (forall a, Q a -> keeps_valid Q' (k a)) ->
  keeps_valid Q' (bind c k).
Proof. apply keeps_bind. exact lots_stay_valid_trans. Qed.

Lemma post_init_invariant (s s' : Stock) :
  StockEntity.post_init s = Ok s' -> StockEntity.invariant s'.
Proof.
  unfold StockEntity.post_init, StockEntity.invariant,
    StockEntity.available_quantity.
  destruct (product_id s <=? 0); [discriminate|].
  destruct (Z.ltb_spec (current_quantity s) 0); [discriminate|].
  destruct (Z.ltb_spec (reserved_quantity s) 0); [discriminate|].
  destruct (Z.ltb_spec (current_quantity s) (reserved_quantity s));
    [discriminate|].
  intro E. injection E as <-. lia.
Qed.

Lemma mapM_post_init_invariant (l l' : list Stock) :
  mapM StockEntity.post_init l = Ok l' -> Forall StockEntity.invariant l'.
Proof.
  revert l'. induction l as [|s l IH]; simpl; intros l' E.
  - injection E as <-. constructor.
  - destruct (StockEntity.post_init s) as [s'|e] eqn:Es; [|discriminate].
    destruct (mapM StockEntity.post_init l) as [ys|e]; [|discriminate].
    injection E as <-. constructor.
    + eapply post_init_invariant. exact Es.
    + apply IH. reflexivity.
Qed.

(** The four methods of a lot keep its invariant. *)
Lemma entity_methods_keep_invariant (now : datetime) (s s' : Stock) (t : Z) :
  StockEntity.invariant s ->
  StockEntity.add_stock now s t = Ok s'
  \/ StockEntity.remove_stock now s t = Ok s'
  \/ StockEntity.reserve_stock s t = Ok s'
  \/ StockEntity.release_reservation s t = Ok s' ->
  StockEntity.invariant s'.
Proof.
  unfold StockEntity.invariant, StockEntity.add_stock,
    StockEntity.remove_stock, StockEntity.reserve_stock,
    StockEntity.release_reservation, StockEntity.available_quantity.
  intros Hi [E|[E|[E|E]]];
    destruct (Z.leb_spec t 0); try discriminate;
    repeat match type of E with
           | context [?a <? ?b] => destruct (Z.ltb_spec a b)
           end; try discriminate;
    injection E as <-; simpl; lia.
Qed.

(** The row that is stored has the quantities of the entity. *)
Lemma invariant_stored (clock : datetime) (r s : Stock) (i : Z) :
  StockEntity.invariant s ->
  StockEntity.invariant
    (StockRepository._update_stock_model_from_domain clock r s)
  /\ StockEntity.invariant (StockRepository._stock_domain_to_model clock i s).
Proof. intro H. split; exact H. Qed.

Lemma update_row_Forall (P : Stock -> Prop) (clock : datetime) (i : Z)
    (s : Stock) (rows rows' : list Stock) :
  Forall P rows ->
  (forall r, P (StockRepository._update_stock_model_from_domain clock r s)) ->
  StockRepository.update_row clock i s rows = Some rows' -> Forall P rows'.
Proof.
  revert rows'. induction rows as [|r rows IH]; simpl; intros rows' Hall Hs E;
    [discriminate|].
  inversion Hall as [|? ? Hr Hrows]; subst.
  destruct (StockRepository.has_id i r).
  - injection E as <-. constructor; [apply Hs|assumption].
  - destruct (StockRepository.update_row clock i s rows) as [l|] eqn:El;
      [|discriminate].
    injection E as <-. constructor; [exact Hr|]. apply IH; auto.
Qed.

Lemma keeps_valid_save_stock (s : Stock) :
  StockEntity.invariant s ->
  keeps_valid (fun _ => True) (StockRepository.save_stock s).
Proof.
  intros Hs db. unfold StockRepository.save_stock.
  destruct (id s) as [i|].
  - destruct (StockRepository.update_row _ i s (stock db)) as [rows|] eqn:E;
      simpl; (split; [|auto]).
    + intro H. simpl.
      eapply update_row_Forall; [exact H| |exact E].
      intro r. apply (invariant_stored (inventory_clock db) r s 0 Hs).
    + apply lots_stay_valid_refl.
  - simpl. split; [|auto]. intro H. simpl. apply Forall_app. split; [exact H|].
    constructor; [|constructor].
    apply (invariant_stored (inventory_clock db) s s _ Hs).
Qed.

Lemma keeps_valid_find_stock (pid : Z) :
  keeps_valid (Forall StockEntity.invariant)
    (StockRepository.find_stock_by_product_id pid).
Proof.
  intros db. simpl. split; [apply lots_stay_valid_refl|].
  apply mapM_post_init_invariant.
Qed.

Lemma keeps_valid_same {A} (f : InventoryDb -> result A) :
  keeps_valid (fun _ => True) (fun db => (db, f db)).
Proof. apply keeps_pure; [exact lots_stay_valid_refl|auto]. Qed.

Lemma keeps_valid_walk op amount (l : list Stock) :
  (forall s t s', StockEntity.invariant s -> op s t = Ok s' ->
                  StockEntity.invariant s') ->
  Forall StockEntity.invariant l ->
  forall r aff, keeps_valid (fun _ => True) (lot_walk op amount l r aff).
Proof.
  intros Hop. induction 1 as [|s l Hs _ IH]; intros r aff; simpl.
  - apply keeps_ret; [exact lots_stay_valid_refl|exact I].
  - destruct (r <=? 0);
      [apply keeps_ret; [exact lots_stay_valid_refl|exact I]|].
    eapply keeps_valid_bind with (Q := StockEntity.invariant).
    + apply keeps_lift; [exact lots_stay_valid_refl|].
      intros s' E. eapply Hop; eassumption.
    + intros s' Hs'. eapply keeps_valid_bind.
      * apply keeps_valid_save_stock. exact Hs'.
      * intros _ _. apply IH.
Qed.

Lemma fifo_candidates_Forall (P : Stock -> Prop) (l : list Stock) :
  Forall P l -> Forall P (InventoryService.fifo_candidates l).
Proof.
  rewrite !Forall_forall. intros H s Hs.
  apply fifo_candidates_In in Hs. apply H. tauto.
Qed.

(** Whatever their outcome, a receive, a consume, a reserve and a release
    leave every lot with its invariant, when every lot had it. *)
Lemma other_operations_keep_invariant :
  (forall now pid q exp batch loc ref_id ref_type nts db,
      lots_stay_valid db
        (fst (InventoryService.add_stock now pid q exp batch loc ref_id
                ref_type nts db)))
  /\ (forall now pid q ref_id ref_type nts mtype db,
         lots_stay_valid db
           (fst (InventoryService.remove_stock now pid q ref_id ref_type nts
                   mtype db)))
  /\ (forall pid q db,
         lots_stay_valid db (fst (InventoryService.reserve_stock pid q db)))
  /\ (forall pid q db,
         lots_stay_valid db
           (fst (InventoryService.release_reservation pid q db))).
Proof.
  split; [|split; [|split]].
  - intros now pid q exp batch loc ref_id ref_type nts.
    enough (H : keeps_valid (fun _ => True)
                  (InventoryService.add_stock now pid q exp batch loc ref_id
                     ref_type nts)) by (intro db; apply H).
    unfold InventoryService.add_stock.
    eapply keeps_valid_bind; [apply keeps_valid_same|]. intros product _.
    destruct product as [p|];
      [|apply keeps_raise; exact lots_stay_valid_refl].
    eapply keeps_valid_bind;
      [apply keeps_when; exact lots_stay_valid_refl|]. intros _ _.
    eapply keeps_valid_bind; [apply keeps_valid_find_stock|].
    intros existing Hex.
    eapply keeps_valid_bind with (Q := fun _ => True).
    + destruct (find _ existing) as [m|] eqn:Hm.
      * apply find_some in Hm. destruct Hm as [Hm _].
        rewrite Forall_forall in Hex.
        eapply keeps_valid_bind with (Q := StockEntity.invariant).
        -- apply keeps_lift; [exact lots_stay_valid_refl|].
           intros s' E.
           apply (entity_methods_keep_invariant now m s' q (Hex m Hm)).
           left. exact E.
        -- intros s' Hs'. apply keeps_valid_save_stock. exact Hs'.
      * eapply keeps_valid_bind with (Q := StockEntity.invariant).
        -- apply keeps_lift; [exact lots_stay_valid_refl|].
           intros s' E. eapply post_init_invariant. exact E.
        -- intros s' Hs'. apply keeps_valid_save_stock. exact Hs'.
    + intros s _.
      eapply keeps_valid_bind with (Q := fun _ => True);
        [apply keeps_lift; [exact lots_stay_valid_refl|auto]|].
      intros mv _.
      eapply keeps_valid_bind; [apply keeps_valid_same|]. intros _ _.
      apply keeps_ret; [exact lots_stay_valid_refl|exact I].
  - intros now pid q ref_id ref_type nts mtype.
    enough (H : keeps_valid (fun _ => True)
                  (InventoryService.remove_stock now pid q ref_id ref_type
                     nts mtype)) by (intro db; apply H).
    unfold InventoryService.remove_stock.
    eapply keeps_valid_bind; [apply keeps_valid_same|]. intros product _.
    destruct product as [p|];
      [|apply keeps_raise; exact lots_stay_valid_refl].
    eapply keeps_valid_bind; [apply keeps_valid_same|]. intros av _.
    eapply keeps_valid_bind;
      [apply keeps_when; exact lots_stay_valid_refl|]. intros _ _.
    eapply keeps_valid_bind; [apply keeps_valid_find_stock|].
    intros stocks Hst.
    eapply keeps_valid_bind with (Q := fun _ => True).
    + intro db. rewrite remove_loop_walk. revert db.
      apply keeps_valid_walk; [|apply fifo_candidates_Forall; exact Hst].
      intros s t s' Hs E.
      apply (entity_methods_keep_invariant now s s' t Hs). auto.
    + intros aff _.
      eapply keeps_valid_bind with (Q := fun _ => True);
        [apply keeps_lift; [exact lots_stay_valid_refl|auto]|].
      intros mv _.
      eapply keeps_valid_bind; [apply keeps_valid_same|]. intros _ _.
      apply keeps_ret; [exact lots_stay_valid_refl|exact I].
  - intros pid q.
    enough (H : keeps_valid (fun _ => True)
                  (InventoryService.reserve_stock pid q))
      by (intro db; apply H).
    unfold InventoryService.reserve_stock.
    eapply keeps_valid_bind; [apply keeps_valid_same|]. intros av _.
    eapply keeps_valid_bind;
      [apply keeps_when; exact lots_stay_valid_refl|]. intros _ _.
    eapply keeps_valid_bind; [apply keeps_valid_find_stock|].
    intros stocks Hst.
    intro db. rewrite reserve_loop_walk. revert db.
    apply keeps_valid_walk; [|apply fifo_candidates_Forall; exact Hst].
    intros s t s' Hs E.
    apply (entity_methods_keep_invariant 0 s s' t Hs). auto.
  - intros pid q.
    enough (H : keeps_valid (fun _ => True)
                  (InventoryService.release_reservation pid q))
      by (intro db; apply H).
    unfold InventoryService.release_reservation.
    eapply keeps_valid_bind; [apply keeps_valid_find_stock|].
    intros stocks Hst.
    intro db. rewrite release_loop_walk. revert db.
    apply keeps_valid_walk.
    + intros s t s' Hs E.
      apply (entity_methods_keep_invariant 0 s s' t Hs). auto.
    + rewrite Forall_forall in *. intros s Hs. apply filter_In in Hs.
      apply Hst. tauto.
Qed.

(** An adjustment raises before it stores anything. *)
Lemma adjustment_keeps_invariant now pid new_quantity reason user_id db :
  lots_stay_valid db
    (fst (InventoryService.adjust_stock now pid new_quantity reason user_id
            db)).
Proof.
  enough (H : keeps_valid (fun _ => True)
                (InventoryService.adjust_stock now pid new_quantity reason
                   user_id)) by apply H.
  unfold InventoryService.adjust_stock.
  eapply keeps_valid_bind; [apply keeps_valid_same|]. intros cur _.
  eapply keeps_valid_bind;
    [apply keeps_when; exact lots_stay_valid_refl|]. intros _ _.
  eapply keeps_valid_bind with (Q := fun _ => False).
  - apply keeps_lift; [exact lots_stay_valid_refl|].
    intros a E. discriminate E.
  - intros ? [].
Qed.

(** C2. The available quantity of a lot is its current quantity less its
    reserved quantity.  When every lot of the table satisfies the
    invariant (current >= 0, 0 <= reserved <= current, current - reserved
    >= 0), every lot of the table satisfies it after a receive
    ([add_stock]), a consume ([remove_stock]), a reserve, a release and an
    adjustment, whatever their arguments and whether they return or raise;
    and a lot that satisfies it satisfies it after each of its four
    methods that returns. *)
Theorem lot_invariant_holds_after_every_operation :
  forall db,
    Forall Spec.lot_invariant (stock db) ->
    (forall s, StockEntity.available_quantity s
               = current_quantity s - reserved_quantity s)
    /\ (forall now pid q exp batch loc ref_id ref_type nts,
           Forall Spec.lot_invariant
             (stock (fst (InventoryService.add_stock now pid q exp batch loc
                            ref_id ref_type nts db))))
    /\ (forall now pid q ref_id ref_type nts mtype,
           Forall Spec.lot_invariant
             (stock (fst (InventoryService.remove_stock now pid q ref_id
                            ref_type nts mtype db))))
    /\ (forall pid q,
           Forall Spec.lot_invariant
             (stock (fst (InventoryService.reserve_stock pid q db))))
    /\ (forall pid q,
           Forall Spec.lot_invariant
             (stock (fst (InventoryService.release_reservation pid q db))))
    /\ (forall now pid new_quantity reason user_id,
           Forall Spec.lot_invariant
             (stock (fst (InventoryService.adjust_stock now pid new_quantity
                            reason user_id db))))
    /\ (forall now s t s',
           Spec.lot_invariant s ->
           StockEntity.add_stock now s t = Ok s'
           \/ StockEntity.remove_stock now s t = Ok s'
           \/ StockEntity.reserve_stock s t = Ok s'
           \/ StockEntity.release_reservation s t = Ok s' ->
           Spec.lot_invariant s').
Proof.
  intros db H.
  change (Forall StockEntity.invariant (stock db)) in H.
  destruct other_operations_keep_invariant as (Ha & Hr & Hs & Hl).
  split; [reflexivity|].
  split; [|split; [|split; [|split; [|split]]]].
  - intros now pid q exp batch loc ref_id ref_type nts.
    apply (Ha now pid q exp batch loc ref_id ref_type nts db H).
  - intros now pid q ref_id ref_type nts mtype.
    apply (Hr now pid q ref_id ref_type nts mtype db H).
  - intros pid q. apply (Hs pid q db H).
  - intros pid q. apply (Hl pid q db H).
  - intros now pid new_quantity why user_id.
    apply (adjustment_keeps_invariant now pid new_quantity why user_id
             db H).
  - intros now s t s' Hi Hm.
    apply (entity_methods_keep_invariant now s s' t); assumption.
Qed.

Lemma lot_invariant_holds_after_every_operation_witness :
  Forall Spec.lot_invariant
    (stock (fst (InventoryService.adjust_stock Ex.now 1 2 "recount" None
                   Ex.one_lot)))
  /\ Forall Spec.lot_invariant
       (stock (fst (InventoryService.remove_stock Ex.now 1 3 None None None
                      SALE Ex.one_lot))).
Proof.
  assert (H0 : Forall Spec.lot_invariant (stock Ex.one_lot)).
  { repeat constructor; vm_compute; discriminate. }
  destruct (lot_invariant_holds_after_every_operation Ex.one_lot H0)
    as (_ & _ & Hr & _ & _ & Hadj & _).
  split; [apply Hadj|apply Hr].
Defined.

(** * More about the inventory *)

(** X1. Whatever their outcome, a receive ([add_stock]), a consume
    ([remove_stock]), a reserve and a release leave every lot of the table
    with its invariant, when every lot had it before. *)
Theorem lot_invariant_is_kept :
  forall db,
    Forall StockEntity.invariant (stock db) ->
    (forall now pid q exp batch loc ref_id ref_type nts,
        Forall StockEntity.invariant
          (stock (fst (InventoryService.add_stock now pid q exp batch loc
                         ref_id ref_type nts db))))
    /\ (forall now pid q ref_id ref_type nts mtype,
           Forall StockEntity.invariant
             (stock (fst (InventoryService.remove_stock now pid q ref_id
                            ref_type nts mtype db))))
    /\ (forall pid q,
           Forall StockEntity.invariant
             (stock (fst (InventoryService.reserve_stock pid q db))))
    /\ (forall pid q,
           Forall StockEntity.invariant
             (stock (fst (InventoryService.release_reservation pid q db)))).
Proof.
  intros db H.
  destruct other_operations_keep_invariant as (Ha & Hr & Hs & Hl).
  split; [|split; [|split]]; intros.
  - apply Ha. exact H.
  - apply Hr. exact H.
  - apply Hs. exact H.
  - apply Hl. exact H.
Qed.

Lemma one_lot_invariant : Forall StockEntity.invariant (stock Ex.one_lot).
Proof. repeat constructor; vm_compute; discriminate. Qed.

Lemma lot_invariant_is_kept_witness :
  Forall StockEntity.invariant
    (stock (fst (InventoryService.release_reservation 1 8 Ex.one_lot))).
Proof.
  destruct (lot_invariant_is_kept Ex.one_lot one_lot_invariant)
    as (_ & _ & _ & H).
  apply H.
Defined.

(** X2. On a lot that satisfies the invariant, a reserve that succeeds is
    undone exactly by the release of the same quantity, a release by the
    reserve of the same quantity, and after an [add_stock] the
    [remove_stock] of the same quantity succeeds and restores the current
    and the reserved quantity. *)
Theorem lot_methods_round_trip :
  forall (now now' : datetime) (s : Stock) (q : Z),
    StockEntity.invariant s ->
    (forall s', StockEntity.reserve_stock s q = Ok s' ->
                StockEntity.release_reservation s' q = Ok s)
    /\ (forall s', StockEntity.release_reservation s q = Ok s' ->
                   StockEntity.reserve_stock s' q = Ok s)
    /\ (forall s', StockEntity.add_stock now s q = Ok s' ->
                   exists s'',
                     StockEntity.remove_stock now' s' q = Ok s''
                     /\ current_quantity s'' = current_quantity s
                     /\ reserved_quantity s'' = reserved_quantity s).
Proof.
  intros now now' s q (Hc & Hr & Ha).
  unfold StockEntity.available_quantity in Ha.
  split; [|split]; intros s' E.
  - unfold StockEntity.reserve_stock in E.
    destruct (Z.leb_spec q 0) as [|Hq]; [discriminate|].
    destruct (Z.ltb_spec (StockEntity.available_quantity s) q);
      [discriminate|].
    injection E as <-. unfold StockEntity.release_reservation.
    destruct (Z.leb_spec q 0); [lia|]. simpl.
    destruct (Z.ltb_spec (reserved_quantity s + q) q); [lia|].
    f_equal. destruct s. unfold StockEntity.set_reserved. simpl.
    f_equal. lia.
  - unfold StockEntity.release_reservation in E.
    destruct (Z.leb_spec q 0) as [|Hq]; [discriminate|].
    destruct (Z.ltb_spec (reserved_quantity s) q); [discriminate|].
    injection E as <-. unfold StockEntity.reserve_stock.
    destruct (Z.leb_spec q 0); [lia|].
    unfold StockEntity.available_quantity. simpl.
    destruct (Z.ltb_spec (current_quantity s - (reserved_quantity s - q)) q);
      [lia|].
    f_equal. destruct s. unfold StockEntity.set_reserved. simpl.
    f_equal. lia.
  - unfold StockEntity.add_stock in E.
    destruct (Z.leb_spec q 0) as [|Hq]; [discriminate|].
    injection E as <-. unfold StockEntity.remove_stock.
    destruct (Z.leb_spec q 0); [lia|].
    unfold StockEntity.available_quantity. simpl.
    destruct (Z.ltb_spec (current_quantity s + q - reserved_quantity s) q);
      [lia|].
    eexists. split; [reflexivity|]. simpl. split; lia.
Qed.

Lemma lot_methods_round_trip_witness :
  StockEntity.release_reservation (reserved Ex.lot_reserved 3) 3
  = Ok Ex.lot_reserved.
Proof.
  destruct (lot_methods_round_trip 0 0 Ex.lot_reserved 3) as (H & _).
  - vm_compute. repeat split; discriminate.
  - apply H. vm_compute. reflexivity.
Defined.

Lemma insert_by_key_stable {A} (key : A -> Z) (k : Z) (x : A) (l : list A) :
  filter (fun y => key y =? k) (insert_by_key key x l)
  = filter (fun y => key y =? k) (x :: l).
Proof.
  induction l as [|y l IH]; simpl; [reflexivity|].
  destruct (Z.leb_spec (key x) (key y)) as [Hle|Hgt]; simpl; [reflexivity|].
  rewrite IH. simpl.
  destruct (Z.eqb_spec (key x) k) as [Hx|Hx];
    destruct (Z.eqb_spec (key y) k) as [Hy|Hy]; try reflexivity.
  lia.
Qed.

Lemma sort_by_key_stable {A} (key : A -> Z) (k : Z) (l : list A) :
  filter (fun y => key y =? k) (sort_by_key key l)
  = filter (fun y => key y =? k) l.
Proof.
  induction l as [|x l IH]; simpl; [reflexivity|].
  rewrite insert_by_key_stable. simpl. rewrite IH. reflexivity.
Qed.

(** X3. The order in which a consume or a reserve walks the lots is
    stable: the lots that share a sort key (the same expiration date, or
    no expiration date) are walked in the order in which the repository
    returned them. *)
Theorem fifo_order_is_stable :
  forall (lots : list Stock) (k : Z),
    filter (fun s => InventoryService.expiration_key s =? k)
      (InventoryService.fifo_candidates lots)
    = filter (fun s => InventoryService.expiration_key s =? k)
        (filter (fun s => 0 <? StockEntity.available_quantity s) lots).
Proof.
  intros lots k. unfold InventoryService.fifo_candidates.
  apply sort_by_key_stable.
Qed.

Lemma mapM_valid_rows (rows : list Stock) :
  Forall valid_stock_row rows -> mapM StockEntity.post_init rows = Ok rows.
Proof.
  intro H. apply mapM_id. eapply Forall_impl; [|exact H].
  intros s Hs. apply valid_post_init. exact Hs.
Qed.

Lemma Forall_filter_keep {A} (P : A -> Prop) (p : A -> bool) (l : list A) :
  Forall P l -> Forall P (filter p l).
Proof.
  rewrite !Forall_forall. intros H x Hx. apply filter_In in Hx.
  apply H. tauto.
Qed.

(** X4. On a table of valid lots, and for a threshold that keeps
    [today + threshold] a date, the two expiration queries of the
    repository agree with the properties of the lot: the lots
    [find_near_expiration_stock] returns are the stored lots for which
    [is_near_expiration] holds with the same threshold, the lots
    [find_expired_stock] returns are the stored lots for which [is_expired]
    holds; no lot is in both lists and a lot without expiration date is in
    neither. *)
Theorem expiration_queries_agree_with_the_lot :
  forall (today : date) (days_threshold : Z) (db : InventoryDb),
    valid_date today -> valid_date (today + days_threshold) ->
    Forall valid_stock_row (stock db) ->
    exists near expired,
      StockRepository.find_near_expiration_stock today days_threshold db
      = (db, Ok near)
      /\ StockRepository.find_expired_stock today db = (db, Ok expired)
      /\ (forall s, In s near <->
                    In s (stock db)
                    /\ StockEntity.is_near_expiration today days_threshold s
                       = true)
      /\ (forall s, In s expired <->
                    In s (stock db) /\ StockEntity.is_expired today s = true)
      /\ (forall s, In s near -> ~ In s expired)
      /\ (forall s, expiration_date s = None ->
                    ~ In s near /\ ~ In s expired).
Proof.
  intros today days_threshold db _ _ Hv.
  unfold StockRepository.find_near_expiration_stock,
    StockRepository.find_expired_stock.
  rewrite !mapM_valid_rows by (repeat apply Forall_filter_keep; exact Hv).
  eexists. eexists. split; [reflexivity|]. split; [reflexivity|].
  assert (Hn : forall s,
             In s (filter (StockRepository.expiration_satisfies
                             (fun d => today <=? d))
                     (filter (StockRepository.expiration_satisfies
                                (fun d => d <=? today + days_threshold))
                        (stock db)))
             <-> In s (stock db)
                 /\ StockEntity.is_near_expiration today days_threshold s
                    = true).
  { intro s. rewrite !filter_In.
    unfold StockRepository.expiration_satisfies,
      StockEntity.is_near_expiration, StockEntity.days_to_expiration.
    destruct (expiration_date s) as [d|].
    - rewrite andb_true_iff, !Z.leb_le. intuition lia.
    - intuition discriminate. }
  assert (He : forall s,
             In s (filter (StockRepository.expiration_satisfies
                             (fun d => d <? today)) (stock db))
             <-> In s (stock db) /\ StockEntity.is_expired today s = true).
  { intro s. rewrite filter_In. reflexivity. }
  split; [exact Hn|]. split; [exact He|]. split.
  - intros s H1 H2. apply Hn in H1. apply He in H2.
    destruct H1 as [_ H1]. destruct H2 as [_ H2].
    unfold StockEntity.is_near_expiration, StockEntity.days_to_expiration,
      StockEntity.is_expired in *.
    destruct (expiration_date s) as [d|]; [|discriminate].
    apply andb_true_iff in H1. rewrite !Z.leb_le in H1.
    apply Z.ltb_lt in H2. lia.
  - intros s Hs. split; intro H.
    + apply Hn in H. destruct H as [_ H].
      unfold StockEntity.is_near_expiration, StockEntity.days_to_expiration
        in H. rewrite Hs in H. discriminate.
    + apply He in H. destruct H as [_ H].
      unfold StockEntity.is_expired in H. rewrite Hs in H. discriminate.
Qed.

Lemma expiration_queries_agree_with_the_lot_witness :
  exists near,
    StockRepository.find_near_expiration_stock (ymd 2024 2 15) 30
      Ex.three_lots = (Ex.three_lots, Ok near)
    /\ (In Ex.lot_march near
        <-> In Ex.lot_march (stock Ex.three_lots)
            /\ StockEntity.is_near_expiration (ymd 2024 2 15) 30 Ex.lot_march
               = true).
Proof.
  destruct (expiration_queries_agree_with_the_lot (ymd 2024 2 15) 30
              Ex.three_lots)
    as (near & expired & E & _ & Hn & _).
  - vm_compute. split; discriminate.
  - vm_compute. split; discriminate.
  - exact (proj2 three_lots_wf).
  - exists near. split; [exact E|apply Hn].
Defined.

(** The next key is above every key in use. *)
Lemma next_id_above (ids : list (option Z)) (n : Z) :
  In (Some n) ids -> n < next_id ids.
Proof.
  unfold next_id. induction ids as [|i ids IH]; intro H; [contradiction|].
  cbn [fold_right]. destruct H as [->|H].
  - lia.
  - specialize (IH H). destruct i; lia.
Qed.

Lemma find_appended {A} (p : A -> bool) (l : list A) (x : A) :
  (forall y, In y l -> p y = false) -> p x = true ->
  find p (l ++ [x]) = Some x.
Proof.
  intros Hl Hx. induction l as [|y l IH]; simpl.
  - rewrite Hx. reflexivity.
  - rewrite (Hl y (or_introl eq_refl)). apply IH.
    intros z Hz. apply Hl. right. exact Hz.
Qed.

Lemma keeps_same_save_stock (s : Stock) :
  keeps_same (fun _ => True) (StockRepository.save_stock s).
Proof.
  intros db. unfold StockRepository.save_stock.
  destruct (id s) as [i|].
  - destruct (StockRepository.update_row _ i s (stock db)); simpl;
      (split; [reflexivity|auto]).
  - simpl. split; [reflexivity|auto].
Qed.

Lemma keeps_same_walk op amount l r aff :
  keeps_same (fun _ => True) (lot_walk op amount l r aff).
Proof. intro db. split; [apply lot_walk_frame|auto]. Qed.

Ltac same_step :=
  first
    [ eapply keeps_same_bind;
      [ first [ apply keeps_same_save_stock
              | apply keeps_same_save_movement
              | apply keeps_when; reflexivity
              | apply (keeps_lift _ (fun db => eq_refl) (fun _ => True)); auto
              | apply keeps_same_pure ]
      | intros ? ? ]
    | apply keeps_same_save_stock
    | apply keeps_raise; reflexivity
    | apply keeps_ret; [reflexivity|exact I] ].

(** X5. The movement ledger is never written.  [save_movement] raises for
    every movement and every database and stores nothing: the movement
    type it hands to the column is a member of the enum of the entity,
    which the column does not take.  Hence, whatever their arguments and
    their outcome, a receive ([add_stock]), a consume ([remove_stock]), an
    adjustment, a reserve and a release leave the ledger as they found
    it. *)
Theorem ledger_is_never_written :
  (forall m db,
      StockRepository.save_movement m db
      = (db, Raise MovementTypeNotStorable))
  /\ (forall t, StockRepository.bind_movement_type (domain_member t)
                = Raise MovementTypeNotStorable)
  /\ (forall now pid q exp batch loc ref_id ref_type notes db,
         stock_movements
           (fst (InventoryService.add_stock now pid q exp batch loc
                   ref_id ref_type notes db))
         = stock_movements db)
  /\ (forall now pid q ref_id ref_type notes mtype db,
         stock_movements
           (fst (InventoryService.remove_stock now pid q ref_id ref_type
                   notes mtype db))
         = stock_movements db)
  /\ (forall now pid new_quantity reason user_id db,
         stock_movements
           (fst (InventoryService.adjust_stock now pid new_quantity reason
                   user_id db))
         = stock_movements db)
  /\ (forall pid q db,
         stock_movements (fst (InventoryService.reserve_stock pid q db))
         = stock_movements db)
  /\ (forall pid q db,
         stock_movements
           (fst (InventoryService.release_reservation pid q db))
         = stock_movements db).
Proof.
  split; [reflexivity|]. split; [reflexivity|].
  split; [|split; [|split; [|split]]].
  - intros now pid q exp batch loc ref_id ref_type nts.
    enough (H : keeps_same (fun _ => True)
                  (InventoryService.add_stock now pid q exp batch loc
                     ref_id ref_type nts)) by (intro db; apply H).
    unfold InventoryService.add_stock.
    same_step. destruct a as [p|]; [|same_step].
    do 2 same_step.
    eapply keeps_same_bind with (Q := fun _ => True).
    { destruct (find _ a0); repeat same_step. }
    intros s _. same_step.
    eapply keeps_same_bind; [apply keeps_same_save_movement|].
    intros ? [].
  - intros now pid q ref_id ref_type nts mtype.
    enough (H : keeps_same (fun _ => True)
                  (InventoryService.remove_stock now pid q ref_id ref_type
                     nts mtype)) by (intro db; apply H).
    unfold InventoryService.remove_stock.
    same_step. destruct a as [p|]; [|same_step].
    do 3 same_step.
    eapply keeps_same_bind with (Q := fun _ => True).
    { intro db. rewrite remove_loop_walk. apply keeps_same_walk. }
    intros aff _. same_step.
    eapply keeps_same_bind; [apply keeps_same_save_movement|].
    intros ? [].
  - intros now pid new_quantity reason user_id.
    enough (H : keeps_same (fun _ => True)
                  (InventoryService.adjust_stock now pid new_quantity reason
                     user_id)) by (intro db; apply H).
    unfold InventoryService.adjust_stock.
    do 3 same_step.
    eapply keeps_same_bind; [apply keeps_same_save_movement|].
    intros ? [].
  - intros pid q.
    enough (H : keeps_same (fun _ => True)
                  (InventoryService.reserve_stock pid q))
      by (intro db; apply H).
    unfold InventoryService.reserve_stock.
    do 3 same_step.
    intro db. rewrite reserve_loop_walk. apply keeps_same_walk.
  - intros pid q.
    enough (H : keeps_same (fun _ => True)
                  (InventoryService.release_reservation pid q))
      by (intro db; apply H).
    unfold InventoryService.release_reservation.
    same_step.
    intro db. rewrite release_loop_walk. apply keeps_same_walk.
Qed.

(** X6. A receive ([add_stock]) always fails and changes nothing.  A
    product that is loaded carries the status of its row, a member of the
    enum of the model, which is never equal to [ProductStatus.ACTIVE]: no
    product that is loaded is active.  So [add_stock] raises "Product not
    found" when no product has the key and "Cannot add stock to inactive
    product" when one has, whatever its status, and leaves lots and ledger
    as they were; it does so for the active product of the example. *)
Theorem receive_always_fails :
  (forall model : ProductModel,
      is_active (ProductRepository._model_to_domain model) = false)
  /\ (forall now pid q exp batch loc ref_id ref_type notes db,
         InventoryService.add_stock now pid q exp batch loc ref_id ref_type
           notes db
         = (db, Raise match find (fun p => prod_id p =? pid) (products db) with
                      | Some _ => CannotAddStockToInactiveProduct
                      | None => ProductNotFound
                      end))
  /\ prod_status Ex.product_1 = ProductStatusEnum.ACTIVE
  /\ InventoryService.add_stock Ex.now 1 5 None None None None None None
       Ex.three_lots
     = (Ex.three_lots, Raise CannotAddStockToInactiveProduct).
Proof.
  split; [reflexivity|]. split; [|split; reflexivity].
  intros now pid q exp batch loc ref_id ref_type nts db.
  unfold InventoryService.add_stock, ProductRepository.find_by_id.
  unfold bind at 1.
  destruct (find (fun p => prod_id p =? pid) (products db)) as [p|];
    reflexivity.
Qed.

(** X8. An adjustment ([adjust_stock]) always fails and changes nothing.
    When the new quantity is the total current quantity of the product it
    raises "No adjustment needed"; otherwise it builds the movement
    without the two reference arguments that [StockMovement] requires and
    Python raises, before anything is stored.  The lot of 10 units with 4
    reserved stays as it is when the product is adjusted to 2. *)
Theorem adjustment_always_fails :
  (forall now pid new_quantity reason user_id db,
      let total :=
        sum_Z (map current_quantity
                 (filter (fun s => product_id s =? pid) (stock db))) in
      InventoryService.adjust_stock now pid new_quantity reason user_id db
      = (db, Raise (if new_quantity =? total then NoAdjustmentNeeded
                    else MissingConstructorArguments)))
  /\ InventoryService.adjust_stock Ex.now 1 2 "recount" None Ex.one_lot
     = (Ex.one_lot, Raise MissingConstructorArguments)
  /\ map (fun s => (current_quantity s, reserved_quantity s))
       (stock Ex.one_lot) = [(10, 4)].
Proof.
  split; [|split; reflexivity].
  intros now pid new_quantity reason user_id db total.
  unfold InventoryService.adjust_stock.
  unfold bind at 1. unfold StockRepository.get_total_stock_by_product.
  fold (total_current pid (stock db)).
  change (total_current pid (stock db)) with total.
  unfold bind at 1.
  destruct (Z.eqb_spec (new_quantity - total) 0) as [E|E];
    destruct (Z.eqb_spec new_quantity total) as [E'|E']; try lia;
    reflexivity.
Qed.

Lemma greedy_plan_gives_what_it_can amount lots :
  (forall s, In s lots -> 0 <= amount s) ->
  forall q, sum_Z (map snd (Spec.greedy_plan amount q lots))
            = Z.min (Z.max q 0) (sum_Z (map amount lots)).
Proof.
  induction lots as [|s l IH]; intros Ha q; simpl in *; [lia|].
  assert (Hs : 0 <= amount s) by (apply Ha; left; reflexivity).
  assert (Hl : 0 <= sum_Z (map amount l)).
  { apply sum_Z_nonneg. rewrite Forall_map, Forall_forall.
    intros x Hx. apply Ha. right. exact Hx. }
  rewrite IH by (intros x Hx; apply Ha; right; exact Hx).
  unfold sum_Z in *. lia.
Qed.

(** What a plan over a selection of the lots takes from the lots is what
    it takes in all. *)
Lemma sum_taken_selected amount q (keep : Stock -> bool)
    (lots : list Stock) :
  NoDup (map id lots) ->
  let plan := Spec.greedy_plan amount q (filter keep lots) in
  sum_Z (map (Spec.taken plan) lots) = sum_Z (map snd plan).
Proof.
  intros Hnd plan.
  rewrite <- (sum_filter_zero (Spec.taken plan) keep lots).
  - rewrite <- taken_plan_self.
    + unfold plan. rewrite greedy_plan_fst. reflexivity.
    + unfold plan. rewrite greedy_plan_fst.
      apply unique_ids_filter. exact Hnd.
  - intros r Hr Hk. apply taken_absent. intros x Hx E.
    assert (Hc : In (fst x) (filter keep lots)).
    { rewrite <- (greedy_plan_fst amount q (filter keep lots)).
      apply in_map. exact Hx. }
    apply filter_In in Hc. destruct Hc as [Hc1 Hc2].
    assert (fst x = r) by (apply (same_id_same_row lots); assumption).
    congruence.
Qed.

(** What a plan takes from a lot is within the bound of the lot. *)
Lemma taken_within_bound amount q (cands rows : list Stock) (r : Stock) :
  NoDup (map id rows) ->
  (forall s, In s cands -> In s rows /\ 0 <= amount s) ->
  In r rows ->
  0 < Spec.taken (Spec.greedy_plan amount q cands) r ->
  Spec.taken (Spec.greedy_plan amount q cands) r <= amount r.
Proof.
  intros Hnd Hc Hr. unfold Spec.taken.
  destruct (find _ _) as [[s t]|] eqn:Hf; [|lia].
  apply find_some in Hf. destruct Hf as [Hin E]. simpl in E.
  apply option_eqb_Z_eq in E.
  assert (Hs : In s cands).
  { rewrite <- (greedy_plan_fst amount q cands).
    change s with (fst (s, t)). apply in_map. exact Hin. }
  assert (s = r) by (apply (same_id_same_row rows); auto; apply Hc; exact Hs).
  subst s.
  pose proof (greedy_plan_bounds amount q cands
                (fun s H => proj2 (Hc s H))) as Hb.
  rewrite Forall_forall in Hb. specialize (Hb _ Hin). simpl in Hb. lia.
Qed.

(** A plan whose changes keep a row valid keeps the table well formed. *)
Lemma apply_plan_wf upd plan rows :
  (forall r t, id (upd r t) = id r) ->
  (forall r, In r rows -> 0 < Spec.taken plan r ->
             valid_stock_row (upd r (Spec.taken plan r))) ->
  wf_stock rows -> wf_stock (Spec.apply_plan upd plan rows).
Proof.
  intros Hid Hok [Hnd Hv]. unfold Spec.apply_plan. split.
  - rewrite map_map. erewrite map_ext; [exact Hnd|].
    intro r. simpl. destruct (0 <? Spec.taken plan r); [apply Hid|reflexivity].
  - rewrite Forall_forall in *. intros x Hx. apply in_map_iff in Hx.
    destruct Hx as (r & <- & Hr).
    destruct (Z.ltb_spec 0 (Spec.taken plan r)); [apply Hok|apply Hv]; auto.
Qed.

Lemma total_reserved_selected pid rows :
  Forall valid_stock_row rows ->
  sum_Z (map reserved_quantity
           (filter (fun s => 0 <? reserved_quantity s)
              (StockRepository.rows_of_product pid rows)))
  = total_reserved pid rows.
Proof.
  intro Hv. apply sum_filter_zero. intros r Hr Hk.
  apply rows_of_product_In in Hr. rewrite Forall_forall in Hv.
  destruct (Hv r (proj1 Hr)) as (_ & _ & (_ & Hres & _) & _).
  apply Z.ltb_ge in Hk. lia.
Qed.

Lemma release_run pid q db :
  wf_stock (stock db) ->
  let plan :=
    Spec.greedy_plan reserved_quantity q
      (filter (fun s => 0 <? reserved_quantity s)
         (StockRepository.rows_of_product pid (stock db))) in
  InventoryService.release_reservation pid q db
  = (with_stock db
       (Spec.apply_plan (stored (inventory_clock db) released) plan
          (stock db)),
     Ok (touched released plan)).
Proof.
  intros [Hnd Hv] plan. unfold InventoryService.release_reservation.
  erewrite bind_ok; [|apply find_stock_valid; exact Hv].
  rewrite release_loop_walk.
  rewrite (lot_walk_spec _ _ released (inventory_clock db)).
  - reflexivity.
  - reflexivity.
  - reflexivity.
  - exact Hnd.
  - apply unique_ids_filter. unfold StockRepository.rows_of_product.
    apply unique_ids_filter. exact Hnd.
  - intros s Hs. apply filter_In in Hs. destruct Hs as [Hs Hres].
    apply rows_of_product_In in Hs. destruct Hs as [Hs _].
    rewrite Forall_forall in Hv. destruct (Hv s Hs) as (Hid & _).
    apply Z.ltb_lt in Hres. auto.
  - intros s t _ Ht. apply entity_release_ok. exact Ht.
Qed.

(** The total of a quantity [f] over a product after a release of [q]
    units, when a release moves [f] of a lot by [k] for each unit. *)
Lemma total_after_release (f : Stock -> Z) (k : Z) clock pid q rows :
  wf_stock rows ->
  (forall r t, f (stored clock released r t) = f r + k * t) ->
  let plan :=
    Spec.greedy_plan reserved_quantity q
      (filter (fun s => 0 <? reserved_quantity s)
         (StockRepository.rows_of_product pid rows)) in
  sum_Z (map f (StockRepository.rows_of_product pid
                  (Spec.apply_plan (stored clock released) plan rows)))
  = sum_Z (map f (StockRepository.rows_of_product pid rows))
    + k * Z.min (Z.max q 0) (total_reserved pid rows).
Proof.
  intros [Hnd Hv] Hf plan.
  assert (Hamount : forall s,
             In s (filter (fun s => 0 <? reserved_quantity s)
                     (StockRepository.rows_of_product pid rows)) ->
             0 <= reserved_quantity s).
  { intros s Hs. apply filter_In in Hs. destruct Hs as [_ Hs].
    apply Z.ltb_lt in Hs. lia. }
  rewrite rows_of_product_apply_plan by reflexivity.
  rewrite (sum_apply_plan f k).
  - unfold plan. rewrite sum_taken_selected.
    + rewrite greedy_plan_gives_what_it_can by exact Hamount.
      rewrite total_reserved_selected by exact Hv. reflexivity.
    + unfold StockRepository.rows_of_product.
      apply unique_ids_filter. exact Hnd.
  - exact Hf.
  - eapply Forall_impl; [|apply greedy_plan_bounds; exact Hamount].
    simpl. intros a H. exact (proj1 H).
Qed.

Lemma released_row_valid (clock : datetime) (r : Stock) (t : Z) :
  valid_stock_row r -> 0 < t <= reserved_quantity r ->
  valid_stock_row (stored clock released r t).
Proof.
  intros (Hid & Hp & (Hc & Hr & Ha) & He) Ht.
  unfold valid_stock_row, StockEntity.invariant,
    StockEntity.available_quantity, stored,
    StockRepository._update_stock_model_from_domain, released,
    StockEntity.set_reserved in *.
  cbn [id product_id current_quantity reserved_quantity expiration_date].
  split; [exact Hid|]. split; [exact Hp|]. split; [lia|exact He].
Qed.

Lemma release_keeps_wf clock pid q rows :
  wf_stock rows ->
  wf_stock
    (Spec.apply_plan (stored clock released)
       (Spec.greedy_plan reserved_quantity q
          (filter (fun s => 0 <? reserved_quantity s)
             (StockRepository.rows_of_product pid rows))) rows).
Proof.
  intros Hwf. apply apply_plan_wf; [reflexivity| |exact Hwf].
  destruct Hwf as [Hnd Hv]. intros r Hr Ht.
  apply released_row_valid.
  - rewrite Forall_forall in Hv. apply Hv. exact Hr.
  - split; [exact Ht|].
    apply (taken_within_bound reserved_quantity q _ rows); auto.
    intros s Hs. apply filter_In in Hs. destruct Hs as [Hs Hres].
    apply rows_of_product_In in Hs. apply Z.ltb_lt in Hres.
    split; [tauto|lia].
Qed.

(** X9. On a well-formed stock table a release ([release_reservation])
    never fails, whatever the quantity: the total reserved of the product
    goes down by the quantity asked for, capped at what is reserved and at
    zero from below, the total available goes up by the same amount, the
    total current quantity and the movement ledger are unchanged, and the
    table stays well formed. *)
Theorem release_is_capped_at_what_is_reserved :
  forall pid q db,
    wf_stock (stock db) ->
    exists db' affected,
      InventoryService.release_reservation pid q db = (db', Ok affected)
      /\ total_reserved pid (stock db')
         = total_reserved pid (stock db)
           - Z.min (Z.max q 0) (total_reserved pid (stock db))
      /\ total_available pid (stock db')
         = total_available pid (stock db)
           + Z.min (Z.max q 0) (total_reserved pid (stock db))
      /\ total_current pid (stock db') = total_current pid (stock db)
      /\ stock_movements db' = stock_movements db
      /\ wf_stock (stock db').
Proof.
  intros pid q db Hwf. eexists. eexists.
  split; [apply release_run; exact Hwf|].
  cbn [stock stock_movements with_stock].
  unfold total_reserved at 1, total_available at 1, total_current at 1.
  rewrite (total_after_release reserved_quantity (-1)),
    (total_after_release StockEntity.available_quantity 1),
    (total_after_release current_quantity 0); try exact Hwf.
  - fold (total_reserved pid (stock db)) (total_current pid (stock db))
      (total_available pid (stock db)).
    split; [lia|]. split; [lia|]. split; [lia|]. split; [reflexivity|].
    apply release_keeps_wf. exact Hwf.
  - intros r t. lot_fields.
  - intros r t. lot_fields.
  - intros r t. lot_fields.
Qed.

Lemma release_is_capped_at_what_is_reserved_witness :
  exists db' affected,
    InventoryService.release_reservation 1 9 Ex.one_lot = (db', Ok affected)
    /\ total_reserved 1 (stock db') = 0.
Proof.
  assert (Hwf : wf_stock (stock Ex.one_lot)).
  { split.
    - repeat constructor. simpl. tauto.
    - apply Forall_cons; [|constructor].
      apply (example_lot_valid 1 10 4 None); [lia|discriminate]. }
  destruct (release_is_capped_at_what_is_reserved 1 9 Ex.one_lot Hwf)
    as (db' & affected & E & Hr & _).
  exists db', affected. split; [exact E|]. rewrite Hr. reflexivity.
Defined.

Lemma reserved_row_valid (clock : datetime) (r : Stock) (t : Z) :
  valid_stock_row r -> 0 < t <= StockEntity.available_quantity r ->
  valid_stock_row (stored clock reserved r t).
Proof.
  intros (Hid & Hp & (Hc & Hr & Ha) & He) Ht.
  unfold valid_stock_row, StockEntity.invariant,
    StockEntity.available_quantity, stored,
    StockRepository._update_stock_model_from_domain, reserved,
    StockEntity.set_reserved in *.
  cbn [id product_id current_quantity reserved_quantity expiration_date].
  split; [exact Hid|]. split; [exact Hp|]. split; [lia|exact He].
Qed.

Lemma reserve_keeps_wf clock pid q rows :
  wf_stock rows ->
  wf_stock (Spec.apply_plan (stored clock reserved) (fifo_plan pid q rows)
              rows).
Proof.
  intros Hwf. apply apply_plan_wf; [reflexivity| |exact Hwf].
  destruct Hwf as [Hnd Hv]. intros r Hr Ht.
  apply reserved_row_valid.
  - rewrite Forall_forall in Hv. apply Hv. exact Hr.
  - split; [exact Ht|].
    apply (taken_within_bound StockEntity.available_quantity q _ rows); auto.
    intros s Hs. apply fifo_candidates_In in Hs. destruct Hs as [Hs Ha].
    apply rows_of_product_In in Hs. split; [tauto|lia].
Qed.

Lemma total_reserved_nonneg pid rows :
  Forall valid_stock_row rows -> 0 <= total_reserved pid rows.
Proof.
  intro Hv. unfold total_reserved. apply sum_Z_nonneg.
  rewrite Forall_map, Forall_forall. intros r Hr.
  apply rows_of_product_In in Hr. rewrite Forall_forall in Hv.
  destruct (Hv r (proj1 Hr)) as (_ & _ & (_ & Hres & _) & _). lia.
Qed.

Lemma total_available_nonneg pid rows :
  Forall valid_stock_row rows -> 0 <= total_available pid rows.
Proof.
  intro Hv. unfold total_available. apply sum_Z_nonneg.
  rewrite Forall_map, Forall_forall. intros r Hr.
  apply rows_of_product_In in Hr. rewrite Forall_forall in Hv.
  destruct (Hv r (proj1 Hr)) as (_ & _ & (_ & _ & Ha) & _). exact Ha.
Qed.

(** X10. On a well-formed stock table, a reserve of a quantity the product
    has available, followed by a release of the same quantity, both
    succeed and restore the totals of the product: reserved, available and
    current.  The lots themselves need not be restored: the reserve walks
    the lots by expiration date, the release in the order of the table, as
    the second part shows on a table with an earlier reservation. *)
Theorem reserve_then_release_restores_totals :
  (forall pid q db,
      wf_stock (stock db) ->
      0 <= q <= total_available pid (stock db) ->
      exists db1 a1 db2 a2,
        InventoryService.reserve_stock pid q db = (db1, Ok a1)
        /\ InventoryService.release_reservation pid q db1 = (db2, Ok a2)
        /\ total_reserved pid (stock db2) = total_reserved pid (stock db)
        /\ total_available pid (stock db2) = total_available pid (stock db)
        /\ total_current pid (stock db2) = total_current pid (stock db))
  /\ (let held := mkStock (Some 1) 1 10 4 None None None None in
      let early :=
        mkStock (Some 2) 1 5 0 (Some (ymd 2024 3 1)) None None None in
      let db := mkInventoryDb [Ex.product_1] [held; early] [] Ex.clock in
      wf_stock (stock db)
      /\ exists db1 a1 db2 a2,
           InventoryService.reserve_stock 1 3 db = (db1, Ok a1)
           /\ InventoryService.release_reservation 1 3 db1 = (db2, Ok a2)
           /\ map reserved_quantity (stock db) = [4; 0]
           /\ map reserved_quantity (stock db2) = [1; 3]).
Proof.
  split.
  - intros pid q db Hwf Hq.
    pose proof (reserve_keeps_wf (inventory_clock db) pid q (stock db) Hwf)
      as Hwf1.
    pose proof (total_reserved_nonneg pid (stock db) (proj2 Hwf)) as Hres.
    eexists. eexists. eexists. eexists.
    split; [apply reserve_stock_run; [exact Hwf|lia]|].
    split; [apply release_run; exact Hwf1|].
    cbn [stock with_stock].
    unfold total_reserved at 1, total_available at 1, total_current at 1.
    rewrite (total_after_release reserved_quantity (-1)),
      (total_after_release StockEntity.available_quantity 1),
      (total_after_release current_quantity 0); try exact Hwf1.
    + assert (HR : total_reserved pid
                     (Spec.apply_plan (stored (inventory_clock db) reserved)
                        (fifo_plan pid q (stock db)) (stock db))
                   = total_reserved pid (stock db) + 1 * q).
      { unfold total_reserved.
        apply (total_after_plan reserved_quantity 1); try assumption;
          [|reflexivity].
        intros r t. lot_fields. }
      fold (total_reserved pid
              (Spec.apply_plan (stored (inventory_clock db) reserved)
                 (fifo_plan pid q (stock db)) (stock db))).
      rewrite HR.
      rewrite (total_after_plan StockEntity.available_quantity (-1)),
        (total_after_plan current_quantity 0); try assumption;
        try reflexivity.
      * fold (total_current pid (stock db))
          (total_available pid (stock db)).
        split; [lia|]. split; lia.
      * intros r t. lot_fields.
      * intros r t. lot_fields.
    + intros r t. lot_fields.
    + intros r t. lot_fields.
    + intros r t. lot_fields.
  - cbv zeta. split.
    + split.
      * cbn [stock map id]. repeat constructor; simpl; intuition discriminate.
      * cbn [stock]. apply Forall_cons; [|apply Forall_cons; [|constructor]].
        -- apply (example_lot_valid 1 10 4 None); [lia|discriminate].
        -- apply (example_lot_valid 2 5 0 (Some (ymd 2024 3 1))); [lia|].
           intros d E. injection E as <-. vm_compute.
           split; discriminate.
    + eexists. eexists. eexists. eexists.
      split; [vm_compute; reflexivity|].
      split; [vm_compute; reflexivity|].
      split; reflexivity.
Qed.

Lemma reserve_then_release_restores_totals_witness :
  exists db1 a1 db2 a2,
    InventoryService.reserve_stock 1 12 Ex.three_lots = (db1, Ok a1)
    /\ InventoryService.release_reservation 1 12 db1 = (db2, Ok a2)
    /\ total_reserved 1 (stock db2) = total_reserved 1 (stock Ex.three_lots).
Proof.
  destruct reserve_then_release_restores_totals as [H _].
  destruct (H 1 12 Ex.three_lots three_lots_wf)
    as (db1 & a1 & db2 & a2 & E1 & E2 & Hr & _).
  - vm_compute. split; discriminate.
  - exists db1, a1, db2, a2. auto.
Defined.

(** X11. A consume ([remove_stock]) of a quantity that is zero or
    negative is not rejected for its quantity: on a well-formed stock
    table and for a product that exists it passes the check against the
    available stock and walks no lot.  At zero it raises "Quantity cannot
    be zero", the check of [StockMovement]; below zero it builds the
    movement and raises when it stores it.  The database is left as it
    was. *)
Theorem consume_of_nothing_changes_nothing :
  forall now pid q ref_id ref_type nts mtype db p,
    wf_stock (stock db) ->
    find (fun p => prod_id p =? pid) (products db) = Some p ->
    0 < pid -> q <= 0 ->
    InventoryService.remove_stock now pid q ref_id ref_type nts mtype db
    = (db, Raise (if q =? 0 then QuantityCannotBeZero
                  else MovementTypeNotStorable)).
Proof.
  intros now pid q ref_id ref_type nts mtype db p Hwf Hp Hpid Hq.
  pose proof (total_available_nonneg pid (stock db) (proj2 Hwf)) as Hav.
  assert (Hz : Forall (fun x => snd x = 0) (fifo_plan pid q (stock db))).
  { apply greedy_plan_stopped; [lia|].
    intros s Hs. apply fifo_candidates_In in Hs. lia. }
  rewrite (remove_stock_run now pid q ref_id ref_type nts mtype db p Hwf Hp)
    by lia.
  rewrite (apply_plan_zero _ _ _ Hz), with_stock_same.
  destruct (Z.eqb_spec q 0) as [->|Hne].
  - unfold StockMovementEntity.new, StockMovementEntity.post_init.
    cbn [mv_product_id quantity Z.opp].
    destruct (Z.leb_spec pid 0); [lia|]. reflexivity.
  - destruct (new_movement_ok None pid mtype (- q) ref_id ref_type nts
                (Some now) None Hpid ltac:(lia)) as (m & -> & _).
    reflexivity.
Qed.

Lemma consume_of_nothing_changes_nothing_witness :
  InventoryService.remove_stock Ex.now 1 (-5) None None None SALE
    Ex.three_lots
  = (Ex.three_lots, Raise MovementTypeNotStorable).
Proof.
  apply (consume_of_nothing_changes_nothing Ex.now 1 (-5) None None None SALE
           Ex.three_lots Ex.product_1 three_lots_wf eq_refl); lia.
Defined.

Lemma stored_reserved_held (clock : datetime) (r : Stock) (t : Z) :
  0 < t -> Spec.held t r (stored clock reserved r t).
Proof.
  intro Ht. unfold Spec.held, stored, reserved.
  cbn. repeat split. intro E. lia.
Qed.

Lemma untouched_held (r : Stock) : Spec.held 0 r r.
Proof. unfold Spec.held. repeat split. lia. Qed.

(** The row stored for a lot whose reservation a walk has changed has the
    time of the database as the time of its last update. *)
Lemma stored_reserved_time (clock : datetime) (r : Stock) (t : Z) :
  0 < t -> last_updated (stored clock reserved r t) = Some clock.
Proof.
  intro Ht. unfold stored, reserved, StockEntity.set_reserved,
    StockRepository._update_stock_model_from_domain,
    StockRepository.same_columns.
  cbn [last_updated product_id current_quantity reserved_quantity
       expiration_date batch_number location].
  replace (option_eqb Z.eqb (last_updated r) (last_updated r)) with true.
  - replace (reserved_quantity r =? reserved_quantity r + t) with false
      by (symmetry; apply Z.eqb_neq; lia).
    rewrite andb_false_r. reflexivity.
  - symmetry. apply option_eqb_Z_eq. reflexivity.
Qed.

(** X22. A reserve ([reserve_stock]) of a quantity that does not exceed
    what the product has available succeeds on a well-formed stock table
    and holds the quantity on the lots in the order of a consume: the lots
    of the product with something available, in ascending order of
    expiration date, the lots without expiration date last, each giving
    min(remaining, available).  Every row of the table it leaves is the
    row it found with that amount added to its reserved quantity; a row
    that holds more than before has the time of the database as the time
    of its last update, which the reserve itself does not set; the other
    rows, the products and the ledger are as they were. *)
Theorem reserve_stock_is_fifo :
  forall pid q db,
    wf_stock (stock db) ->
    let lots := filter (fun s => product_id s =? pid) (stock db) in
    q <= sum_Z (map Spec.available lots) ->
    exists cands db' affected,
      Permutation cands (filter (fun s => 0 <? Spec.available s) lots)
      /\ StronglySorted Spec.fifo_before cands
      /\ InventoryService.reserve_stock pid q db = (db', Ok affected)
      /\ Forall2
           (fun row row' =>
              let t :=
                Spec.taken (Spec.greedy_plan Spec.available q cands) row in
              Spec.held t row row'
              /\ (0 < t -> last_updated row' = Some (inventory_clock db)))
           (stock db) (stock db')
      /\ products db' = products db
      /\ stock_movements db' = stock_movements db.
Proof.
  intros pid q db Hwf lots Hq.
  change (q <= total_available pid (stock db)) in Hq.
  exists (InventoryService.fifo_candidates lots).
  eexists. eexists.
  split; [|split; [|split; [apply (reserve_stock_run pid q db Hwf Hq)|]]].
  - unfold InventoryService.fifo_candidates.
    apply Permutation_sym. apply sort_by_key_perm.
  - apply sorted_weaken with (R := key_le InventoryService.expiration_key);
      [|apply sort_by_key_sorted].
    intros a b Ha Hb.
    assert (Hv : forall x, In x (InventoryService.fifo_candidates lots) ->
                           valid_stock_row x).
    { intros x Hx. apply fifo_candidates_In in Hx. destruct Hx as [Hx _].
      apply rows_of_product_In in Hx. destruct Hx as [Hx _].
      destruct Hwf as [_ Hall]. rewrite Forall_forall in Hall.
      apply Hall. exact Hx. }
    apply key_order_is_fifo; auto.
  - cbn [stock with_stock products stock_movements].
    split; [|split; reflexivity].
    unfold Spec.apply_plan. apply Forall2_map_self. intros row Hrow.
    change (Spec.greedy_plan Spec.available q
              (InventoryService.fifo_candidates lots))
      with (fifo_plan pid q (stock db)).
    cbv zeta.
    pose proof (taken_nonneg (fifo_plan pid q (stock db)) row
                  (fifo_plan_nonneg pid q (stock db))) as Hn.
    destruct (Z.ltb_spec 0 (Spec.taken (fifo_plan pid q (stock db)) row))
      as [Hpos|Hle].
    + split; [apply stored_reserved_held; exact Hpos|].
      intros _. apply stored_reserved_time. exact Hpos.
    + split; [|lia].
      replace (Spec.taken (fifo_plan pid q (stock db)) row) with 0 by lia.
      apply untouched_held.
Qed.

Lemma reserve_stock_is_fifo_witness :
  exists cands db' affected,
    Permutation cands [Ex.lot_none; Ex.held_june]
    /\ InventoryService.reserve_stock 1 8 Ex.held_lots = (db', Ok affected)
    /\ Forall2
         (fun row row' =>
            let t :=
              Spec.taken (Spec.greedy_plan Spec.available 8 cands) row in
            Spec.held t row row'
            /\ (0 < t -> last_updated row' = Some Ex.clock))
         (stock Ex.held_lots) (stock db').
Proof.
  destruct (reserve_stock_is_fifo 1 8 Ex.held_lots held_lots_wf)
    as (cands & db' & affected & Hperm & _ & Hrun & Hrows & _).
  - vm_compute. discriminate.
  - exists cands, db', affected.
    split; [exact Hperm|]. split; [exact Hrun|exact Hrows].
Defined.

(** * More about the appointments *)

(** ** Scheduling *)

Lemma lookup_veterinarian_pure (vid : option Z) (db : ClinicDb) :
  fst (AppointmentService.lookup_veterinarian vid db) = db.
Proof.
  unfold AppointmentService.lookup_veterinarian.
  destruct (AppointmentService.truthy_int vid); [|reflexivity].
  destruct vid as [v|]; [|reflexivity].
  unfold bind, UserRepository.find_by_id.
  destruct (find _ (users db)) as [u|]; [|reflexivity].
  unfold when. destruct (negb _); reflexivity.
Qed.

Lemma validated_duration (d : AppointmentService.appointment_data) :
  AppointmentService._validate_appointment_data d = Ok tt ->
  AppointmentService.ad_duration_minutes d
  <> AppointmentService.present None
  /\ forall m, AppointmentService.ad_duration_minutes d
               = AppointmentService.present (Some m) -> 0 < m <= 480.
Proof.
  unfold AppointmentService._validate_appointment_data.
  intros H.
  destruct (negb (AppointmentService.truthy_int (AppointmentService.ad_pet_id d)));
    [discriminate|].
  destruct (AppointmentService.ad_appointment_date d); [|discriminate].
  destruct (negb (truthy (AppointmentService.ad_appointment_type d))); [discriminate|].
  destruct (AppointmentService.ad_appointment_type d) as [name|]; [|discriminate].
  destruct (AppointmentService.appointment_type_of_string name);
    [|discriminate].
  destruct (AppointmentService.ad_duration_minutes d) as [|[m'|]];
    [split; [discriminate|intros m E; discriminate]| |discriminate].
  split; [discriminate|]. intros m E. injection E as <-.
  destruct (Z.leb_spec m' 0); [discriminate|].
  destruct (Z.ltb_spec 480 m'); [discriminate|]. lia.
Qed.

Lemma default_duration_valid (t : AppointmentType) :
  0 < AppointmentService._get_default_duration t <= 480.
Proof. destruct t; simpl; lia. Qed.

(** The two outcomes of [schedule_appointment]. *)
Lemma schedule_outcome now d db :
  match AppointmentService.schedule_appointment now d db with
  | (db', Raise _) => db' = db
  | (db', Ok a) =>
      let n := next_id (map apt_id (appointments db)) in
      db' = with_appointments db
              (appointments db
               ++ [AppointmentRepository._entity_to_model (clinic_clock db)
                     n a])
      /\ apt_id a = Some n
      /\ status a = SCHEDULED /\ valid_appointment a
      /\ created_at a = Some now /\ updated_at a = None
  end.
Proof.
  unfold AppointmentService.schedule_appointment.
  destruct (AppointmentService._validate_appointment_data d) as [[]|e]
    eqn:Hval; [|reflexivity].
  pose proof (validated_duration d Hval) as [Hnone Hdur].
  unfold bind at 1. unfold lift at 1.
  destruct (AppointmentService.ad_pet_id d) as [pid|]; [|reflexivity].
  destruct (AppointmentService.ad_appointment_date d) as [date|]; [|reflexivity].
  destruct (AppointmentService.ad_appointment_type d) as [name|]; [|reflexivity].
  unfold bind at 1. unfold PetRepository.find_by_id.
  destruct (find _ (pets db)) as [pet|]; [|reflexivity].
  unfold bind at 1. unfold when at 1.
  destruct (negb (pet_is_active pet)); [reflexivity|]. unfold ret at 1.
  unfold bind at 1.
  pose proof (lookup_veterinarian_pure (AppointmentService.ad_veterinarian_id d) db) as Hvet.
  destruct (AppointmentService.lookup_veterinarian (AppointmentService.ad_veterinarian_id d) db)
    as [db1 [vet|e]]; simpl in Hvet; subst db1; [|reflexivity].
  unfold bind at 1. unfold when at 1.
  destruct (date <? now); [reflexivity|]. unfold ret at 1.
  destruct (AppointmentService.appointment_type_of_string name) as [t|];
    [|reflexivity].
  assert (Hd : forall m,
             match AppointmentService.ad_duration_minutes d with
             | AppointmentService.present (Some m') => m = m'
             | AppointmentService.absent =>
                 m = AppointmentService._get_default_duration t
             | AppointmentService.present None => False
             end -> 0 < m <= 480).
  { intros m. destruct (AppointmentService.ad_duration_minutes d) as [|[m'|]].
    - intros ->. apply default_duration_valid.
    - intros ->. apply Hdur. reflexivity.
    - contradiction. }
  unfold bind at 1.
  destruct (AppointmentService.ad_duration_minutes d) as [|[m|]];
    [| |reflexivity].
  - specialize (Hd _ eq_refl). unfold ret at 1.
    unfold bind at 1, lift at 1.
    destruct (AppointmentService.strip_or_none (AppointmentService.ad_reason d))
      as [rs|e]; [|reflexivity].
    unfold bind at 1, lift at 1.
    destruct (AppointmentService.strip_or_none (AppointmentService.ad_notes d))
      as [ns|e]; [|reflexivity].
    unfold bind, lift, AppointmentEntity.post_init. cbn [duration_minutes].
    destruct (Z.leb_spec (AppointmentService._get_default_duration t) 0);
      [lia|].
    unfold AppointmentRepository.save. cbn [apt_id]. cbv zeta.
    split; [reflexivity|]. split; [reflexivity|]. split; [reflexivity|].
    split; [exact Hd|]. split; reflexivity.
  - specialize (Hd _ eq_refl). unfold ret at 1.
    unfold bind at 1, lift at 1.
    destruct (AppointmentService.strip_or_none (AppointmentService.ad_reason d))
      as [rs|e]; [|reflexivity].
    unfold bind at 1, lift at 1.
    destruct (AppointmentService.strip_or_none (AppointmentService.ad_notes d))
      as [ns|e]; [|reflexivity].
    unfold bind, lift, AppointmentEntity.post_init. cbn [duration_minutes].
    destruct (Z.leb_spec m 0); [lia|].
    unfold AppointmentRepository.save. cbn [apt_id]. cbv zeta.
    split; [reflexivity|]. split; [reflexivity|]. split; [reflexivity|].
    split; [exact Hd|]. split; reflexivity.
Qed.

Lemma fresh_appointment_id (rows : list Appointment) (r : Appointment) :
  In r rows -> apt_id r <> Some (next_id (map apt_id rows)).
Proof.
  intros Hr Hid.
  assert (Hlt : next_id (map apt_id rows) < next_id (map apt_id rows)).
  { apply next_id_above. rewrite <- Hid. apply in_map. exact Hr. }
  lia.
Qed.

Lemma appended_appointment_found (db : ClinicDb) (a : Appointment) :
  apt_id a = Some (next_id (map apt_id (appointments db))) ->
  0 < duration_minutes a ->
  let db' := with_appointments db (appointments db ++ [a]) in
  AppointmentRepository.find_by_id (next_id (map apt_id (appointments db))) db'
  = (db', Ok (Some a)).
Proof.
  intros Hid Hd db'. apply find_by_id_found; [|exact Hd].
  unfold db'. cbn [appointments with_appointments].
  apply find_appended.
  - intros y Hy.
    destruct (AppointmentRepository.has_id _ y) eqn:E; [|reflexivity].
    apply apt_has_id_iff in E. exfalso.
    exact (fresh_appointment_id _ _ Hy E).
  - apply apt_has_id_iff. exact Hid.
Qed.

(** X12. [schedule_appointment] stores one appointment or nothing.  When
    it raises, the database is as it was.  When it returns, the pets and
    users are as they were and one row is appended to the appointments.
    The appointment returned has a key that no other row has, the status
    scheduled, a duration from 1 to 480 minutes, the time of the call as
    the time of its creation and no time of update; the row is that
    appointment with the time of the database as the time of its update,
    the default of the column, and it is the row that [find_by_id] with
    the key reads back. *)
Theorem schedule_stores_one_appointment_or_nothing :
  forall now d db,
    match AppointmentService.schedule_appointment now d db with
    | (db', Raise _) => db' = db
    | (db', Ok a) =>
        let row :=
          mkAppointment (apt_id a) (pet_id a) (veterinarian_id a)
            (appointment_date a) (duration_minutes a) (appointment_type a)
            (status a) (reason a) (notes a) (created_at a)
            (Some (clinic_clock db)) (created_by a) in
        pets db' = pets db /\ users db' = users db
        /\ appointments db' = appointments db ++ [row]
        /\ status a = SCHEDULED
        /\ valid_appointment a
        /\ created_at a = Some now
        /\ updated_at a = None
        /\ exists n,
             apt_id a = Some n
             /\ (forall r, In r (appointments db) -> apt_id r <> Some n)
             /\ AppointmentRepository.find_by_id n db' = (db', Ok (Some row))
    end.
Proof.
  intros now d db. pose proof (schedule_outcome now d db) as H.
  destruct (AppointmentService.schedule_appointment now d db)
    as [db' [a|e]]; [|exact H].
  cbv zeta in H. destruct H as (-> & Hid & Hs & Hv & Hc & Hu). cbv zeta.
  assert (Hrow : AppointmentRepository._entity_to_model (clinic_clock db)
                   (next_id (map apt_id (appointments db))) a
                 = mkAppointment (apt_id a) (pet_id a) (veterinarian_id a)
                     (appointment_date a) (duration_minutes a)
                     (appointment_type a) (status a) (reason a) (notes a)
                     (created_at a) (Some (clinic_clock db)) (created_by a)).
  { unfold AppointmentRepository._entity_to_model.
    rewrite Hid, Hc, Hu. reflexivity. }
  rewrite Hrow.
  split; [reflexivity|]. split; [reflexivity|]. split; [reflexivity|].
  split; [exact Hs|]. split; [exact Hv|]. split; [exact Hc|].
  split; [exact Hu|].
  exists (next_id (map apt_id (appointments db))).
  split; [exact Hid|]. split.
  - intros r Hr. apply fresh_appointment_id. exact Hr.
  - apply appended_appointment_found; [exact Hid|].
    cbn [duration_minutes]. destruct Hv. lia.
Qed.

Lemma validate_accepts (d : AppointmentService.appointment_data)
    (pid date : Z) (name : string) (t : AppointmentType) :
  AppointmentService.ad_pet_id d = Some pid -> pid <> 0 ->
  AppointmentService.ad_appointment_date d = Some date ->
  AppointmentService.ad_appointment_type d = Some name ->
  AppointmentService.appointment_type_of_string name = Some t ->
  AppointmentService.ad_duration_minutes d
  <> AppointmentService.present None ->
  (forall m, AppointmentService.ad_duration_minutes d
             = AppointmentService.present (Some m) -> 0 < m <= 480) ->
  AppointmentService._validate_appointment_data d = Ok tt.
Proof.
  intros Hpid Hnz Hdate Hname Ht Hnone Hdur.
  unfold AppointmentService._validate_appointment_data.
  rewrite Hpid, Hdate, Hname, Ht.
  assert (Hp : AppointmentService.truthy_int (Some pid) = true)
    by (destruct pid; [contradiction|reflexivity|reflexivity]).
  rewrite Hp. cbn [negb].
  assert (Hn : truthy (Some name) = true).
  { destruct name; [vm_compute in Ht; discriminate|reflexivity]. }
  rewrite Hn. cbn [negb].
  destruct (AppointmentService.ad_duration_minutes d) as [|[m|]];
    [reflexivity| |contradiction].
  specialize (Hdur m eq_refl).
  destruct (Z.leb_spec m 0); [lia|].
  destruct (Z.ltb_spec 480 m); [lia|]. reflexivity.
Qed.

(** X13. [schedule_appointment] succeeds when the data name a pet that is
    stored and active, a veterinarian that passes the check of the role (or
    none), a date that is not before now and is before the last day of
    the calendar, so that the end of the appointment is a time of the
    calendar, a type among the six types, if the key of the duration is
    there a duration from 1 to 480 minutes, and when the keys of the
    reason and of the notes are absent or come with a string.  The appointment stored is scheduled for that pet,
    veterinarian and date; without a duration in the data it gets the
    default duration of its type; the reason and the notes are the
    strings without the white space around them, or none when nothing is
    left.  When the key of the reason or of the notes is there with the
    value [None], as a form with the field left empty sends it, the same
    call raises the error of [None.strip()] and stores nothing. *)
Theorem schedule_succeeds_on_valid_data :
  forall now d db pid date name t pet vet,
    AppointmentService.ad_pet_id d = Some pid -> pid <> 0 ->
    find (fun p => pet_key p =? pid) (pets db) = Some pet ->
    pet_is_active pet = true ->
    AppointmentService.lookup_veterinarian
      (AppointmentService.ad_veterinarian_id d) db = (db, Ok vet) ->
    AppointmentService.ad_appointment_date d = Some date -> now <= date ->
    0 <= date < (date_max - 1) * usec_per_day ->
    AppointmentService.ad_appointment_type d = Some name ->
    AppointmentService.appointment_type_of_string name = Some t ->
    AppointmentService.ad_duration_minutes d
    <> AppointmentService.present None ->
    (forall m, AppointmentService.ad_duration_minutes d
               = AppointmentService.present (Some m) -> 0 < m <= 480) ->
    (AppointmentService.ad_reason d <> AppointmentService.present None ->
     AppointmentService.ad_notes d <> AppointmentService.present None ->
     exists a db',
       AppointmentService.schedule_appointment now d db = (db', Ok a)
       /\ pet_id a = pid
       /\ veterinarian_id a = option_map user_key vet
       /\ appointment_date a = date
       /\ appointment_type a = t
       /\ duration_minutes a
          = match AppointmentService.ad_duration_minutes d with
            | AppointmentService.present (Some m) => m
            | _ => AppointmentService._get_default_duration t
            end
       /\ status a = SCHEDULED
       /\ reason a = Spec.stripped (AppointmentService.ad_reason d)
       /\ notes a = Spec.stripped (AppointmentService.ad_notes d)
       /\ created_at a = Some now)
    /\ (AppointmentService.ad_reason d = AppointmentService.present None
        \/ AppointmentService.ad_notes d = AppointmentService.present None ->
        AppointmentService.schedule_appointment now d db
        = (db, Raise NoneHasNoStrip)).
Proof.
  intros now d db pid date name t pet vet Hpid Hnz Hpet Hact Hvet Hdate Hnow
    _ Hname Ht Hnone Hdur.
  pose proof (validate_accepts d pid date name t Hpid Hnz Hdate Hname Ht
                Hnone Hdur) as Hval.
  apply find_some in Hpet as Hkey. destruct Hkey as [_ Hkey].
  apply Z.eqb_eq in Hkey.
  unfold AppointmentService.schedule_appointment.
  rewrite Hval, Hpid, Hdate, Hname.
  rewrite (bind_ok _ _ db db tt) by reflexivity.
  rewrite (bind_ok _ _ db db (Some pet))
    by (unfold PetRepository.find_by_id; rewrite Hpet; reflexivity).
  rewrite (bind_ok _ _ db db tt) by (rewrite Hact; reflexivity).
  rewrite (bind_ok _ _ db db vet) by exact Hvet.
  rewrite (bind_ok _ _ db db tt).
  2:{ destruct (Z.ltb_spec date now); [lia|reflexivity]. }
  rewrite Ht.
  set (duration := match AppointmentService.ad_duration_minutes d with
                   | AppointmentService.present (Some m) => m
                   | _ => AppointmentService._get_default_duration t
                   end).
  assert (Hd : 0 < duration).
  { unfold duration.
    destruct (AppointmentService.ad_duration_minutes d) as [|[m|]].
    - apply default_duration_valid.
    - apply (Hdur m eq_refl).
    - apply default_duration_valid. }
  rewrite (bind_ok _ _ db db duration).
  2:{ unfold duration.
      destruct (AppointmentService.ad_duration_minutes d) as [|[m|]];
        [reflexivity|reflexivity|contradiction]. }
  split.
  - intros Hr Hn.
    rewrite (bind_ok _ _ db db (Spec.stripped (AppointmentService.ad_reason d))).
    2:{ unfold lift, AppointmentService.strip_or_none, Spec.stripped.
        destruct (AppointmentService.ad_reason d) as [|[v|]];
          [reflexivity|reflexivity|contradiction]. }
    rewrite (bind_ok _ _ db db (Spec.stripped (AppointmentService.ad_notes d))).
    2:{ unfold lift, AppointmentService.strip_or_none, Spec.stripped.
        destruct (AppointmentService.ad_notes d) as [|[v|]];
          [reflexivity|reflexivity|contradiction]. }
    unfold bind, lift, AppointmentEntity.post_init. cbn [duration_minutes].
    destruct (Z.leb_spec duration 0); [lia|].
    unfold AppointmentRepository.save. cbn [apt_id].
    eexists. eexists. split; [reflexivity|].
    cbn. repeat split. exact Hkey.
  - intros [Hr|Hn].
    + apply bind_raise. rewrite Hr. reflexivity.
    + destruct (AppointmentService.strip_or_none
                  (AppointmentService.ad_reason d)) as [rs|e] eqn:Ers.
      * rewrite (bind_ok _ _ db db rs) by reflexivity.
        apply bind_raise. rewrite Hn. reflexivity.
      * assert (e = NoneHasNoStrip).
        { unfold AppointmentService.strip_or_none in Ers.
          destruct (AppointmentService.ad_reason d) as [|[v|]];
            try discriminate. injection Ers as <-. reflexivity. }
        subst e. apply bind_raise. reflexivity.
Qed.

Lemma schedule_succeeds_on_valid_data_witness :
  exists a db',
    AppointmentService.schedule_appointment Ex.now Ex.request Ex.clinic
    = (db', Ok a)
    /\ duration_minutes a = 30 /\ status a = SCHEDULED
    /\ reason a = Some "check-up"%string.
Proof.
  destruct (schedule_succeeds_on_valid_data Ex.now Ex.request Ex.clinic 1
              (Ex.at_time 10 15) "consultation"%string CONSULTATION
              (mkPet 1 true) (Some (mkUser 7 VETERINARIAN)))
    as (H & _); try reflexivity.
  - discriminate.
  - vm_compute. discriminate.
  - vm_compute. split; [discriminate|reflexivity].
  - discriminate.
  - intros m Hm. injection Hm as <-. lia.
  - destruct H as (a & db' & E & _ & _ & _ & _ & Hd & Hs & Hr & _);
      try discriminate.
    exists a, db'. split; [exact E|]. split; [exact Hd|].
    split; [exact Hs|]. rewrite Hr. vm_compute. reflexivity.
Defined.

(** ** Changing a stored appointment *)

Lemma find_by_id_pure (i : Z) (db : ClinicDb) :
  fst (AppointmentRepository.find_by_id i db) = db.
Proof.
  unfold AppointmentRepository.find_by_id.
  destruct (find _ (appointments db)) as [r|]; [|reflexivity].
  destruct (AppointmentEntity.post_init r); reflexivity.
Qed.

Lemma find_by_id_broken (i : Z) (db : ClinicDb) (r : Appointment) :
  find (AppointmentRepository.has_id i) (appointments db) = Some r ->
  duration_minutes r <= 0 ->
  AppointmentRepository.find_by_id i db = (db, Raise DurationMustBePositive).
Proof.
  intros Hf Hd. unfold AppointmentRepository.find_by_id. rewrite Hf.
  unfold AppointmentEntity.post_init.
  destruct (Z.leb_spec (duration_minutes r) 0); [reflexivity|lia].
Qed.

(** X14. [update_appointment] checks no duration: with a duration that is
    zero or negative in the update data it succeeds and stores it.  From
    then on the appointment cannot be loaded: [find_by_id] raises the error
    of [Appointment.__post_init__], and with it every operation of the
    service that starts by loading the appointment, a second
    [update_appointment] included. *)
Theorem update_can_make_an_appointment_unloadable :
  forall now i u db a m,
    AppointmentRepository.find_by_id i db = (db, Ok (Some a)) ->
    i <> 0 ->
    AppointmentService.ud_duration_minutes u = Some m -> m <= 0 ->
    (forall new_date, AppointmentService.ud_appointment_date u = Some new_date
                      -> now <= new_date) ->
    (forall name, AppointmentService.ud_appointment_type u = Some name ->
                  AppointmentService.appointment_type_of_string name <> None) ->
    exists db' a',
      AppointmentService.update_appointment now i u db = (db', Ok a')
      /\ duration_minutes a' = m
      /\ AppointmentRepository.find_by_id i db'
         = (db', Raise DurationMustBePositive)
      /\ (forall now' u',
             AppointmentService.update_appointment now' i u' db'
             = (db', Raise DurationMustBePositive))
      /\ (forall now',
             AppointmentService.confirm_appointment now' i db'
             = (db', Raise DurationMustBePositive))
      /\ (forall now' why,
             AppointmentService.cancel_appointment now' i why db'
             = (db', Raise DurationMustBePositive)).
Proof.
  intros now i u db a m Hf Hi Hm Hle Hdate Htype.
  apply find_by_id_inv in Hf as Hinv. destruct Hinv as (_ & Hfind & Hid & _).
  assert (Ht : exists t,
             (match AppointmentService.ud_appointment_type u with
              | None => ret None
              | Some name =>
                  match AppointmentService.appointment_type_of_string name with
                  | None => raise InvalidAppointmentType
                  | Some t => ret (Some t)
                  end
              end) db = (db, Ok t)).
  { destruct (AppointmentService.ud_appointment_type u) as [name|] eqn:E.
    - specialize (Htype name eq_refl).
      destruct (AppointmentService.appointment_type_of_string name) as [t|];
        [|contradiction].
      exists (Some t). reflexivity.
    - exists None. reflexivity. }
  destruct Ht as (t & Ht).
  set (e := AppointmentService.apply_update a u t now).
  destruct (update_row_found i e a (appointments db) Hfind)
    as (rows' & Hu & Hf').
  assert (Hbroken : AppointmentRepository.find_by_id i
                      (with_appointments db rows')
                    = (with_appointments db rows',
                       Raise DurationMustBePositive)).
  { apply (find_by_id_broken i (with_appointments db rows')
             (AppointmentRepository.update_model_from_entity a e)).
    - exact Hf'.
    - unfold e. simpl. rewrite Hm. exact Hle. }
  exists (with_appointments db rows'), e.
  split; [|split; [|split; [exact Hbroken|split; [|split]]]].
  - unfold AppointmentService.update_appointment.
    rewrite (bind_ok _ _ _ _ _ Hf).
    rewrite (bind_ok _ _ db db tt).
    2:{ destruct (AppointmentService.ud_appointment_date u) as [nd|];
          [|reflexivity].
        specialize (Hdate nd eq_refl).
        destruct (Z.ltb_spec nd now); [lia|reflexivity]. }
    rewrite (bind_ok _ _ _ _ _ Ht). fold e.
    unfold AppointmentRepository.update.
    assert (He : apt_id e = Some i) by exact Hid. rewrite He.
    destruct i; [contradiction| |];
      unfold AppointmentRepository.save; rewrite He, Hu; reflexivity.
  - unfold e. simpl. rewrite Hm. reflexivity.
  - intros now' u'. unfold AppointmentService.update_appointment.
    apply bind_raise. exact Hbroken.
  - intros now'. unfold AppointmentService.confirm_appointment.
    apply bind_raise. exact Hbroken.
  - intros now' why. unfold AppointmentService.cancel_appointment.
    apply bind_raise. exact Hbroken.
Qed.

Lemma update_can_make_an_appointment_unloadable_witness :
  exists db' a',
    AppointmentService.update_appointment Ex.now 2
      (AppointmentService.mkUpdateData None (Some 0) None None None None)
      Ex.busy_clinic = (db', Ok a')
    /\ AppointmentRepository.find_by_id 2 db'
       = (db', Raise DurationMustBePositive).
Proof.
  destruct (update_can_make_an_appointment_unloadable Ex.now 2
              (AppointmentService.mkUpdateData None (Some 0) None None None
                 None)
              Ex.busy_clinic Ex.pending 0)
    as (db' & a' & E & _ & Hf & _);
    try reflexivity; try lia; try discriminate.
  exists db', a'. split; [exact E|exact Hf].
Defined.

(** ** The durations of the stored appointments *)

Lemma apt_update_row_Forall (P : Appointment -> Prop) (i : Z)
    (e : Appointment) (rows rows' : list Appointment) :
  AppointmentRepository.update_row i e rows = Some rows' ->
  Forall P rows ->
  (forall r, In r rows ->
             P (AppointmentRepository.update_model_from_entity r e)) ->
  Forall P rows'.
Proof.
  revert rows'. induction rows as [|x rows IH]; intros rows' Hu Hall He;
    simpl in Hu; [discriminate|].
  inversion Hall as [|? ? Hx Hrest]; subst.
  destruct (AppointmentRepository.has_id i x).
  - injection Hu as <-.
    constructor; [apply He; left; reflexivity|exact Hrest].
  - destruct (AppointmentRepository.update_row i e rows) as [l|] eqn:E;
      [|discriminate].
    simpl in Hu. injection Hu as <-. constructor; [exact Hx|].
    apply (IH l eq_refl Hrest). intros r Hr. apply He. right. exact Hr.
Qed.

Lemma update_keeps_durations (e : Appointment) (db : ClinicDb) :
  valid_appointment e -> Forall valid_appointment (appointments db) ->
  Forall valid_appointment
    (appointments (fst (AppointmentRepository.update e db))).
Proof.
  intros He Hv. unfold AppointmentRepository.update.
  destruct (apt_id e) as [i|] eqn:Hid; [|exact Hv].
  assert (Hs : Forall valid_appointment
                 (appointments (fst (AppointmentRepository.save e db)))).
  { unfold AppointmentRepository.save. rewrite Hid.
    destruct (AppointmentRepository.update_row i e (appointments db))
      as [rows'|] eqn:Hu; [|exact Hv].
    simpl. eapply apt_update_row_Forall; [exact Hu|exact Hv|].
    intros r _. exact He. }
  destruct i; [exact Hv|exact Hs|exact Hs].
Qed.

Lemma loaded_then_changed_keeps_durations (i : Z) (db : ClinicDb)
    (k : Appointment -> M ClinicDb Appointment) :
  Forall valid_appointment (appointments db) ->
  (forall a, valid_appointment a ->
             Forall valid_appointment (appointments (fst (k a db)))) ->
  Forall valid_appointment
    (appointments
       (fst (bind (AppointmentRepository.find_by_id i)
               (fun o => match o with
                         | None => raise AppointmentNotFound
                         | Some a => k a
                         end) db))).
Proof.
  intros Hv Hk. unfold bind.
  pose proof (find_by_id_pure i db) as Hp.
  destruct (AppointmentRepository.find_by_id i db) as [db1 [[a|]|e]] eqn:Hf;
    simpl in Hp; subst db1; try exact Hv.
  apply Hk. apply find_by_id_inv in Hf. destruct Hf as (_ & Hf & _).
  apply find_some in Hf. rewrite Forall_forall in Hv. apply Hv. tauto.
Qed.

(** X15. The operations of the service that create an appointment or move
    it through its statuses keep the durations of the stored appointments
    within 1 to 480 minutes, whatever their outcome: [schedule_appointment],
    [confirm_appointment], [start_appointment], [complete_appointment] and
    [cancel_appointment]. *)
Theorem durations_stay_valid :
  forall db,
    Forall valid_appointment (appointments db) ->
    (forall now d,
        Forall valid_appointment
          (appointments
             (fst (AppointmentService.schedule_appointment now d db))))
    /\ (forall now i,
           Forall valid_appointment
             (appointments
                (fst (AppointmentService.confirm_appointment now i db))))
    /\ (forall now i,
           Forall valid_appointment
             (appointments
                (fst (AppointmentService.start_appointment now i db))))
    /\ (forall now i nts,
           Forall valid_appointment
             (appointments
                (fst (AppointmentService.complete_appointment now i nts db))))
    /\ (forall now i why,
           Forall valid_appointment
             (appointments
                (fst (AppointmentService.cancel_appointment now i why db)))).
Proof.
  intros db Hv. split; [|split; [|split; [|split]]].
  - intros now d. pose proof (schedule_outcome now d db) as H.
    destruct (AppointmentService.schedule_appointment now d db)
      as [db' [a|e]]; simpl.
    + cbv zeta in H. destruct H as (-> & _ & _ & Ha & _). simpl.
      apply Forall_app. split; [exact Hv|]. constructor; [exact Ha|constructor].
    + subst db'. exact Hv.
  - intros now i. unfold AppointmentService.confirm_appointment.
    apply loaded_then_changed_keeps_durations; [exact Hv|].
    intros a Ha. unfold bind, when.
    destruct (negb (status_eqb (status a) SCHEDULED)); [exact Hv|].
    apply update_keeps_durations; [exact Ha|exact Hv].
  - intros now i. unfold AppointmentService.start_appointment.
    apply loaded_then_changed_keeps_durations; [exact Hv|].
    intros a Ha. unfold bind, when.
    destruct (negb (status_eqb (status a) CONFIRMED)); [exact Hv|].
    apply update_keeps_durations; [exact Ha|exact Hv].
  - intros now i nts. unfold AppointmentService.complete_appointment.
    apply loaded_then_changed_keeps_durations; [exact Hv|].
    intros a Ha. unfold bind, when, lift, AppointmentEntity.mark_as_completed.
    destruct (negb (status_eqb (status a) IN_PROGRESS)); [exact Hv|].
    apply update_keeps_durations; [exact Ha|exact Hv].
  - intros now i why. unfold AppointmentService.cancel_appointment.
    apply loaded_then_changed_keeps_durations; [exact Hv|].
    intros a Ha. unfold bind, when, lift, AppointmentEntity.cancel.
    destruct (negb (AppointmentEntity.can_be_modified a)); [exact Hv|].
    apply update_keeps_durations; [exact Ha|exact Hv].
Qed.

Lemma durations_stay_valid_witness :
  Forall valid_appointment
    (appointments
       (fst (AppointmentService.cancel_appointment Ex.now 2 None
               Ex.busy_clinic))).
Proof.
  destruct (durations_stay_valid Ex.busy_clinic clinic_valid)
    as (_ & _ & _ & _ & H).
  apply H.
Defined.

(** ** Free slots *)

(** X17. The free slots of a day, when the stored appointments keep to
    the durations the scheduling accepts.  For a day before the last day
    of the calendar and a duration asked for between -1440 and 1440
    minutes, so that every time computed is a time of the calendar, and
    over stored appointments with durations from 1 to 480 minutes,
    [get_availability_slots] returns.  Its candidate windows start at
    08:00, advance by steps of 30 minutes, have the duration asked for and
    stop once candidateStart + duration is past 18:00, so no window
    returned ends after 18:00.  The windows returned are exactly the
    candidates that do not overlap (half-open) any appointment of the
    practitioner with status scheduled, confirmed or in_progress, the end
    of an appointment being its start plus its duration, in chronological
    order.  When no appointment blocks and the duration is 30 minutes, 20
    windows are returned. *)
Theorem get_availability_slots_spec :
  forall db date_target vet duration,
    Forall valid_appointment (appointments db) ->
    valid_date date_target -> date_target < date_max ->
    - 1440 <= duration <= 1440 ->
    let day_start := (date_target - 1) * usec_per_day + 8 * usec_per_hour in
    let day_end := (date_target - 1) * usec_per_day + 18 * usec_per_hour in
    exists slots,
      AppointmentService.get_availability_slots date_target vet duration db
      = (db, Ok slots)
      /\ (forall w,
             In w slots <->
             (exists k, 0 <= k
                        /\ AppointmentService.start_time w
                           = day_start + k * (30 * usec_per_minute)
                        /\ AppointmentService.slot_end_time w
                           = AppointmentService.start_time w
                             + duration * usec_per_minute
                        /\ AppointmentService.slot_end_time w <= day_end)
             /\ ~ (exists a,
                      In a (appointments db)
                      /\ veterinarian_id a = Some vet
                      /\ Spec.active (status a)
                      /\ Spec.overlap (AppointmentService.start_time w)
                           (AppointmentService.slot_end_time w)
                           (appointment_date a)
                           (appointment_date a
                            + duration_minutes a * usec_per_minute)))
      /\ StronglySorted earlier slots
      /\ (forall w, In w slots ->
                    AppointmentService.slot_end_time w <= day_end)
      /\ (duration = 30 ->
          (forall a, In a (appointments db) ->
                     veterinarian_id a = Some vet ->
                     ~ Spec.active (status a)) ->
          List.length slots = 20%nat).
Proof.
  intros db date_target vet duration Hv _ _ _ day_start day_end.
  assert (Hs : day_start
               = datetime_combine date_target AppointmentService.start_hour 0).
  { unfold day_start, datetime_combine, AppointmentService.start_hour. lia. }
  assert (He : day_end
               = datetime_combine date_target AppointmentService.end_hour 0).
  { unfold day_end, datetime_combine, AppointmentService.end_hour. lia. }
  rewrite Hs, He.
  exact (slots_of_a_day db date_target vet duration Hv).
Qed.

Lemma get_availability_slots_spec_witness :
  exists slots,
    AppointmentService.get_availability_slots Ex.day 7 30 Ex.busy_clinic
    = (Ex.busy_clinic, Ok slots)
    /\ StronglySorted earlier slots
    /\ forall w, In w slots ->
                 AppointmentService.slot_end_time w
                 <= (Ex.day - 1) * usec_per_day + 18 * usec_per_hour.
Proof.
  destruct (get_availability_slots_spec Ex.busy_clinic Ex.day 7 30
              clinic_valid) as (slots & E & _ & Hs & He & _).
  - vm_compute. split; discriminate.
  - vm_compute. reflexivity.
  - lia.
  - exists slots. split; [exact E|]. split; [exact Hs|exact He].
Defined.

(** ** The schedule of a day *)

Lemma enrich_spec (now : datetime) (db : ClinicDb) (apts : list Appointment) :
  exists entries,
    AppointmentService.enrich now apts db = (db, Ok entries)
    /\ map AppointmentService.entry_appointment entries = apts
    /\ Forall
         (fun e =>
            let a := AppointmentService.entry_appointment e in
            AppointmentService.entry_pet e
            = find (fun p => pet_key p =? pet_id a) (pets db)
            /\ AppointmentService.entry_veterinarian e
               = match veterinarian_id a with
                 | Some v => if v =? 0 then None
                             else find (fun u => user_key u =? v) (users db)
                 | None => None
                 end
            /\ AppointmentService.entry_is_upcoming e
               = AppointmentEntity.is_upcoming now a) entries.
Proof.
  induction apts as [|a apts IH].
  - exists []. split; [reflexivity|]. split; [reflexivity|constructor].
  - destruct IH as (entries & He & Hm & Hall).
    cbn [AppointmentService.enrich].
    rewrite (bind_ok _ _ db db
               (find (fun p => pet_key p =? pet_id a) (pets db)))
      by reflexivity.
    rewrite (bind_ok _ _ db db
               (match veterinarian_id a with
                | Some v => if v =? 0 then None
                            else find (fun u => user_key u =? v) (users db)
                | None => None
                end)).
    2:{ destruct (veterinarian_id a) as [[|v|v]|]; reflexivity. }
    rewrite (bind_ok _ _ _ _ _ He). unfold ret.
    eexists. split; [reflexivity|]. split.
    + cbn [map AppointmentService.entry_appointment]. rewrite Hm.
      reflexivity.
    + constructor; [|exact Hall]. cbn. auto.
Qed.

(** X18. Over stored appointments with valid durations,
    [get_daily_schedule] returns one entry for each appointment of the day
    (of the veterinarian, when one is given and is not 0), in the order of
    their times; each entry carries the pet and the veterinarian looked up
    by the keys of the appointment, and whether the appointment begins
    within 24 hours from now. *)
Theorem daily_schedule_lists_the_day_in_order :
  forall now target_date vet db,
    Forall valid_appointment (appointments db) ->
    exists schedule,
      AppointmentService.get_daily_schedule now target_date vet db
      = (db, Ok schedule)
      /\ (forall a,
             In a (map AppointmentService.entry_appointment schedule) <->
             In a (appointments db)
             /\ AppointmentRepository.on_date target_date a = true
             /\ (AppointmentService.truthy_int vet = true ->
                 veterinarian_id a = vet))
      /\ StronglySorted
           (key_le (fun e => appointment_date
                               (AppointmentService.entry_appointment e)))
           schedule
      /\ (forall e,
             In e schedule ->
             let a := AppointmentService.entry_appointment e in
             AppointmentService.entry_pet e
             = find (fun p => pet_key p =? pet_id a) (pets db)
             /\ AppointmentService.entry_veterinarian e
                = match veterinarian_id a with
                  | Some v => if v =? 0 then None
                              else find (fun u => user_key u =? v) (users db)
                  | None => None
                  end
             /\ AppointmentService.entry_is_upcoming e
                = AppointmentEntity.is_upcoming now a).
Proof.
  intros now target_date vet db Hv.
  assert (Hpos : Forall (fun a => 0 < duration_minutes a) (appointments db)).
  { eapply Forall_impl; [|exact Hv]. intros a [H _]. exact H. }
  unfold AppointmentService.get_daily_schedule.
  rewrite (bind_ok _ _ _ _ _ (find_by_date_valid target_date db Hpos)).
  set (on_day := sort_by_key appointment_date
                   (filter (AppointmentRepository.on_date target_date)
                      (appointments db))).
  set (apts := if AppointmentService.truthy_int vet
               then filter (fun apt => option_eqb Z.eqb (veterinarian_id apt)
                                         vet) on_day
               else on_day).
  destruct (enrich_spec now db apts) as (entries & He & Hm & Hall).
  rewrite (bind_ok _ _ _ _ _ He). unfold ret.
  eexists. split; [reflexivity|]. split; [|split].
  - intro a.
    assert (Hperm : In a (map AppointmentService.entry_appointment
                            (sort_by_key
                               (fun e => appointment_date
                                           (AppointmentService.entry_appointment
                                              e)) entries))
                    <-> In a apts).
    { rewrite <- Hm. rewrite !in_map_iff.
      split; intros (e & E & Hin); exists e; (split; [exact E|]);
        apply sort_by_key_In in Hin || apply sort_by_key_In; exact Hin. }
    rewrite Hperm. unfold apts, on_day.
    destruct (AppointmentService.truthy_int vet).
    + rewrite filter_In, sort_by_key_In, filter_In, option_eqb_Z_eq. tauto.
    + rewrite sort_by_key_In, filter_In.
      split; [intros [H1 H2]; repeat split; auto; discriminate|tauto].
  - apply sort_by_key_sorted.
  - intros e Hin. apply sort_by_key_In in Hin.
    rewrite Forall_forall in Hall. apply (Hall e Hin).
Qed.

Lemma daily_schedule_lists_the_day_in_order_witness :
  exists schedule,
    AppointmentService.get_daily_schedule Ex.now Ex.day (Some 7)
      Ex.busy_clinic = (Ex.busy_clinic, Ok schedule)
    /\ In Ex.pending (map AppointmentService.entry_appointment schedule).
Proof.
  destruct (daily_schedule_lists_the_day_in_order Ex.now Ex.day (Some 7)
              Ex.busy_clinic clinic_valid) as (schedule & E & H & _).
  exists schedule. split; [exact E|]. apply H.
  split; [right; left; reflexivity|]. split; reflexivity.
Defined.

(** ** What a transition changes *)






(** ** Deleting an appointment *)

Lemma remove_row_filter (i : Z) (rows : list Appointment) :
  NoDup (map apt_id rows) ->
  AppointmentRepository.remove_row i rows
  = filter (fun r => negb (AppointmentRepository.has_id i r)) rows.
Proof.
  induction rows as [|r rows IH]; intro Hnd; simpl; [reflexivity|].
  inversion Hnd as [|? ? Hnotin Hnd']; subst.
  destruct (AppointmentRepository.has_id i r) eqn:Hr; simpl.
  - symmetry. apply filter_all. intros x Hx.
    destruct (AppointmentRepository.has_id i x) eqn:Hxi; [|reflexivity].
    exfalso. apply Hnotin.
    apply apt_has_id_iff in Hr. apply apt_has_id_iff in Hxi.
    rewrite Hr, <- Hxi. apply in_map. exact Hx.
  - rewrite (IH Hnd'). reflexivity.
Qed.

(** X20. With unique keys, [delete] of a key that is stored answers true
    and removes the appointment with that key and no other: the other
    appointments stay, in their order, and [find_by_id] with the key finds
    nothing afterwards.  [delete] of a key that is not stored answers false
    and leaves the database as it was. *)
Theorem delete_removes_the_appointment_and_no_other :
  forall i db,
    NoDup (map apt_id (appointments db)) ->
    ((forall r, In r (appointments db) -> apt_id r <> Some i) ->
     AppointmentRepository.delete i db = (db, Ok false))
    /\ (forall r, In r (appointments db) -> apt_id r = Some i ->
        exists db',
          AppointmentRepository.delete i db = (db', Ok true)
          /\ appointments db'
             = filter (fun x => negb (AppointmentRepository.has_id i x))
                 (appointments db)
          /\ pets db' = pets db /\ users db' = users db
          /\ AppointmentRepository.find_by_id i db' = (db', Ok None)).
Proof.
  intros i db Hnd. unfold AppointmentRepository.delete. split.
  - intro Hnone.
    destruct (find (AppointmentRepository.has_id i) (appointments db))
      as [x|] eqn:Hx; [|reflexivity].
    apply find_some in Hx. destruct Hx as [Hin Hid].
    apply apt_has_id_iff in Hid. exfalso. exact (Hnone x Hin Hid).
  - intros r Hr Hid.
    destruct (find (AppointmentRepository.has_id i) (appointments db))
      as [x|] eqn:Hx.
    + eexists. split; [reflexivity|]. cbn [appointments with_appointments
        pets users].
      rewrite (remove_row_filter i _ Hnd).
      split; [reflexivity|]. split; [reflexivity|]. split; [reflexivity|].
      unfold AppointmentRepository.find_by_id.
      cbn [appointments with_appointments].
      destruct (find (AppointmentRepository.has_id i)
                  (filter (fun x0 => negb (AppointmentRepository.has_id i x0))
                     (appointments db))) as [y|] eqn:Hy; [|reflexivity].
      exfalso. apply find_some in Hy. destruct Hy as [Hy1 Hy2].
      apply filter_In in Hy1. destruct Hy1 as [_ Hy1].
      rewrite Hy2 in Hy1. discriminate.
    + exfalso. pose proof (find_none _ _ Hx r Hr) as Hn.
      apply apt_has_id_iff in Hid. congruence.
Qed.

Lemma delete_removes_the_appointment_and_no_other_witness :
  exists db',
    AppointmentRepository.delete 2 Ex.busy_clinic = (db', Ok true)
    /\ appointments db' = [Ex.booked; Ex.finished].
Proof.
  destruct (delete_removes_the_appointment_and_no_other 2 Ex.busy_clinic)
    as [_ H].
  - repeat constructor; simpl; intuition discriminate.
  - destruct (H Ex.pending) as (db' & E & Hrows & _);
      [right; left; reflexivity|reflexivity|].
    exists db'. split; [exact E|]. rewrite Hrows. reflexivity.
Defined.

(** * More about the stock table *)

Lemma update_row_absent (clock i : Z) (s : Stock) (rows : list Stock) :
  (forall r, In r rows -> id r <> Some i) ->
  StockRepository.update_row clock i s rows = None.
Proof.
  induction rows as [|r rows IH]; intro H; simpl; [reflexivity|].
  destruct (StockRepository.has_id i r) eqn:Hr.
  - apply has_id_iff in Hr. exfalso. exact (H r (or_introl eq_refl) Hr).
  - rewrite IH; [reflexivity|]. intros x Hx. apply H. right. exact Hx.
Qed.

Lemma option_eqb_refl {A} (eqb : A -> A -> bool) (x : option A) :
  (forall a, eqb a a = true) -> option_eqb eqb x x = true.
Proof. intro H. destruct x; simpl; auto. Qed.

(** A lot written back as it was loaded is stored as it was. *)
Lemma update_model_unchanged (clock : datetime) (r : Stock) :
  StockRepository._update_stock_model_from_domain clock r r = r.
Proof.
  unfold StockRepository._update_stock_model_from_domain,
    StockRepository.same_columns.
  rewrite !Z.eqb_refl, !(option_eqb_refl Z.eqb) by apply Z.eqb_refl.
  rewrite !(option_eqb_refl String.eqb) by apply String.eqb_refl.
  destruct r; reflexivity.
Qed.

(** X21. A lot built by the constructor [Stock(...)] without key and
    stored with [save_stock] gets a key that no stored lot has; the entity
    returned is the lot with that key; the row appended to the table is
    the lot with that key and, when the lot has no time of last update,
    with the time of the database, the default of the column;
    [find_stock_by_id] with the key reads that row back.  [update_stock]
    of a lot whose key is not in the table raises "Stock not found" and
    leaves the table as it was.  With unique keys, [update_stock] of a row
    of the table as it is stored changes nothing. *)
Theorem saved_lot_is_read_back :
  forall db,
    (forall pid cur res exp batch loc upd s,
        StockEntity.new None pid cur res exp batch loc upd = Ok s ->
        exists db' n,
          let row :=
            mkStock (Some n) pid cur res exp batch loc
              (match upd with
               | Some t => Some t
               | None => Some (inventory_clock db)
               end) in
          StockRepository.save_stock s db
          = (db', Ok (mkStock (Some n) pid cur res exp batch loc upd))
          /\ (forall r, In r (stock db) -> id r <> Some n)
          /\ stock db' = stock db ++ [row]
          /\ StockRepository.find_stock_by_id n db' = (db', Ok (Some row)))
    /\ (forall i s,
           id s = Some i ->
           (forall r, In r (stock db) -> id r <> Some i) ->
           StockRepository.update_stock s db = (db, Raise StockNotFound))
    /\ (NoDup (map id (stock db)) ->
        forall r, In r (stock db) -> id r <> None ->
                  StockRepository.update_stock r db = (db, Ok r)).
Proof.
  intro db. split; [|split].
  - intros pid cur res exp batch loc upd s E.
    unfold StockEntity.new, StockEntity.post_init in E.
    cbn [product_id current_quantity reserved_quantity] in E.
    destruct (Z.leb_spec pid 0) as [|Hp]; [discriminate|].
    destruct (Z.ltb_spec cur 0) as [|Hc]; [discriminate|].
    destruct (Z.ltb_spec res 0) as [|Hr]; [discriminate|].
    destruct (Z.ltb_spec cur res) as [|Hcr]; [discriminate|].
    injection E as <-.
    set (n := next_id (map id (stock db))).
    assert (Hfresh : forall r, In r (stock db) -> id r <> Some n).
    { intros r Hr' Hid.
      assert (Hlt : n < next_id (map id (stock db))).
      { apply next_id_above. rewrite <- Hid. apply in_map. exact Hr'. }
      unfold n in Hlt. lia. }
    eexists. exists n. cbv zeta.
    split; [reflexivity|]. split; [exact Hfresh|].
    split; [reflexivity|].
    unfold StockRepository.find_stock_by_id. cbn [stock with_stock].
    fold n. unfold StockRepository._stock_domain_to_model.
    cbn [product_id current_quantity reserved_quantity expiration_date
         batch_number location last_updated].
    rewrite find_appended.
    + unfold StockEntity.post_init.
      cbn [product_id current_quantity reserved_quantity].
      destruct (Z.leb_spec pid 0); [lia|].
      destruct (Z.ltb_spec cur 0); [lia|].
      destruct (Z.ltb_spec res 0); [lia|].
      destruct (Z.ltb_spec cur res); [lia|]. reflexivity.
    + intros y Hy. destruct (StockRepository.has_id n y) eqn:Hyn;
        [|reflexivity].
      apply has_id_iff in Hyn. exfalso. exact (Hfresh y Hy Hyn).
    + apply has_id_iff. reflexivity.
  - intros i s Hid Hnone.
    unfold StockRepository.update_stock, StockRepository.save_stock.
    rewrite Hid, (update_row_absent _ i s _ Hnone). reflexivity.
  - intros Hnd r Hr Hid.
    destruct (id r) as [i|] eqn:Hi; [clear Hid|contradiction].
    unfold StockRepository.update_stock, StockRepository.save_stock.
    rewrite Hi, (update_row_map _ (stock db) i r r Hnd Hr Hi).
    assert (Hsame : map (fun x =>
                           if StockRepository.has_id i x
                           then StockRepository._update_stock_model_from_domain
                                  (inventory_clock db) x r
                           else x) (stock db) = stock db).
    { erewrite map_ext_in; [apply map_id|].
      intros x Hx. simpl.
      destruct (StockRepository.has_id i x) eqn:Hxi; [|reflexivity].
      apply has_id_iff in Hxi.
      assert (x = r) by (apply (same_id_same_row (stock db)); congruence).
      subst x. apply update_model_unchanged. }
    rewrite Hsame, with_stock_same. reflexivity.
Qed.

Lemma saved_lot_is_read_back_witness :
  exists db' n,
    StockRepository.save_stock
      (mkStock None 1 6 0 None None None None) Ex.three_lots
    = (db', Ok (mkStock (Some n) 1 6 0 None None None None))
    /\ StockRepository.find_stock_by_id n db'
       = (db', Ok (Some (mkStock (Some n) 1 6 0 None None None
                           (Some Ex.clock)))).
Proof.
  destruct (saved_lot_is_read_back Ex.three_lots) as [H _].
  destruct (H 1 6 0 None None None None
              (mkStock None 1 6 0 None None None None) eq_refl)
    as (db' & n & E & _ & _ & Hf).
  exists db', n. split; [exact E|exact Hf].
Defined.
